(** * Asteroid impact simulator: the physics pipeline and its properties

    A shallow embedding of the impact-consequence calculators
    (atmosphere.js, crater.js, waves.js, thermal.js, seismic.js, tsunami.js
    and the orchestrating ImpactCalculator) and of the code that draws
    their results on the map, followed by the properties the specification
    states about them and by further properties of the code.

    Numbers.  JavaScript numbers are IEEE-754 doubles.  The calculators are
    closed-form scaling laws, and they are embedded here over the real
    numbers: [+], [*], [/], [Math.sqrt], [Math.pow], [Math.log], [Math.sin]
    are the exact real operations, so rounding, overflow and underflow are
    not represented.  The places where the code leaves the finite numbers on
    inputs it can really receive (a maximum over an empty array, a property
    read that yields [undefined], a division by an area that is zero) are
    embedded with the explicit type [Number] below.  The comparison that
    decides whether the body reaches the ground is, in addition, given on
    doubles (module [Binary64]).

    Objects.  Stage results are records; a field that only some return paths
    set is an [option].  The aggregate result of [calculateImpact], whose
    keys depend on the path taken, is a finite map from key to value. *)

From Stdlib Require Import PrimFloat FloatOps SpecFloat.
From Stdlib Require Import Reals Lra Lia ZArith.
From stdpp Require Import base gmap strings list sorting pretty.

Open Scope R_scope.

#[global] Instance Rle_decision (x y : R) : Decision (x <= y) := Rle_dec x y.
#[global] Instance Rlt_decision (x y : R) : Decision (x < y) := Rlt_dec x y.
#[global] Instance Req_decision : EqDecision R := Req_dec_T.

(** ** The [Math] object and non-finite numbers *)

Module JsMath.

(** A number that may have left the reals. *)
Inductive Number : Type :=
| Finite (x : R)
| PosInfinity
| NegInfinity
| NaN.

(** [Math.pow(x, y)].  For a positive base this is [exp (y * ln x)];
    [0] to a positive power is [0] and to the power [0] is [1]; a negative
    base is raised to the integer part of the exponent, which is exact at
    the integer exponents [2] and [3] the calculators use.  JavaScript
    answers [Infinity] for [0] to a negative power and [NaN] for a
    negative base with a fractional exponent; the value given here in
    those two cases is arbitrary. *)
Definition pow (x y : R) : R :=
  if decide (0 < x) then Rpower x y
  else if decide (x = 0) then (if decide (0 < y) then 0 else 1)
  else powerRZ x (Int_part y).

(** [Math.log10]. *)
Definition log10 (x : R) : R := ln x / ln 10.

(** [Math.floor]. *)
Definition floor (x : R) : Z := Int_part x.

(** [Math.atan2(y, x)]. *)
Definition atan2 (y x : R) : R :=
  if decide (0 < x) then atan (y / x)
  else if decide (x < 0) then
    (if decide (0 <= y) then atan (y / x) + PI else atan (y / x) - PI)
  else if decide (0 < y) then PI / 2
  else if decide (y < 0) then - (PI / 2)
  else 0.

(** [Math.max(...xs)]: the maximum of no argument is [-Infinity]. *)
Definition max_spread (xs : list R) : Number :=
  foldr (fun x acc =>
           match acc with
           | Finite m => Finite (Rmax x m)
           | NegInfinity => Finite x
           | other => other
           end) NegInfinity xs.

(** [a / b] when [b] may be zero. *)
Definition div (a b : R) : Number :=
  if decide (b = 0) then
    (if decide (0 < a) then PosInfinity
     else if decide (a < 0) then NegInfinity else NaN)
  else Finite (a / b).

(** [Math.max(a, b)] with a finite [b]. *)
Definition max_with (a : Number) (b : R) : Number :=
  match a with
  | Finite x => Finite (Rmax x b)
  | PosInfinity => PosInfinity
  | NegInfinity => Finite b
  | NaN => NaN
  end.

(** [Math.sqrt] of a possibly non-finite number. *)
Definition sqrtN (a : Number) : Number :=
  match a with
  | Finite x => if decide (x < 0) then NaN else Finite (sqrt x)
  | PosInfinity => PosInfinity
  | NegInfinity => NaN
  | NaN => NaN
  end.

(** [a * r] with a finite [r]. *)
Definition mulN (a : Number) (r : R) : Number :=
  match a with
  | Finite x => Finite (x * r)
  | PosInfinity =>
      if decide (0 < r) then PosInfinity
      else if decide (r < 0) then NegInfinity else NaN
  | NegInfinity =>
      if decide (0 < r) then NegInfinity
      else if decide (r < 0) then PosInfinity else NaN
  | NaN => NaN
  end.

(** The comparisons [a < b], [a > b] and [a >= b] against a finite [b];
    every comparison with [NaN] is false. *)
Definition ltN (a : Number) (b : R) : bool :=
  match a with
  | Finite x => bool_decide (x < b)
  | NegInfinity => true
  | _ => false
  end.

Definition gtN (a : Number) (b : R) : bool :=
  match a with
  | Finite x => bool_decide (b < x)
  | PosInfinity => true
  | _ => false
  end.

Definition geN (a : Number) (b : R) : bool :=
  match a with
  | Finite x => bool_decide (b <= x)
  | PosInfinity => true
  | _ => false
  end.

(** The numbers a height can be: finite or [Infinity]. *)
Definition isHeight (n : Number) : Prop :=
  match n with
  | Finite _ | PosInfinity => True
  | NegInfinity | NaN => False
  end.

(** [a / b] with a finite [a] and a divisor that may have left the
    reals. *)
Definition divN (a : R) (b : Number) : Number :=
  match b with
  | Finite y => div a y
  | PosInfinity | NegInfinity => Finite 0
  | NaN => NaN
  end.

(** [Math.min(a, b)] with a finite [b]. *)
Definition min_with (a : Number) (b : R) : Number :=
  match a with
  | Finite x => Finite (Rmin x b)
  | PosInfinity => Finite b
  | NegInfinity => NegInfinity
  | NaN => NaN
  end.

(** [a - b]. *)
Definition subN (a b : Number) : Number :=
  match a, b with
  | NaN, _ | _, NaN => NaN
  | Finite x, Finite y => Finite (x - y)
  | Finite _, PosInfinity => NegInfinity
  | Finite _, NegInfinity => PosInfinity
  | PosInfinity, PosInfinity => NaN
  | PosInfinity, _ => PosInfinity
  | NegInfinity, NegInfinity => NaN
  | NegInfinity, _ => NegInfinity
  end.

(** The truth value of a number in a condition: [0] and [NaN] are
    falsy. *)
Definition truthy (a : Number) : bool :=
  match a with
  | Finite x => bool_decide (x <> 0)
  | NaN => false
  | _ => true
  end.

End JsMath.

(** ** Arrays *)

Module JsArray.
Import JsMath.

(** [Array.prototype.sort(compare)].  The sort is stable: an element moves
    behind another one only when the comparator puts it strictly after
    (a positive result; [NaN] counts as zero).  [insertSorted] puts [x],
    which stood before all of [sorted] in the array, at its place. *)
Fixpoint insertSorted {A} (compare : A -> A -> Number) (x : A)
    (sorted : list A) : list A :=
  match sorted with
  | [] => [x]
  | y :: rest =>
      if gtN (compare x y) 0 then y :: insertSorted compare x rest
      else x :: sorted
  end.

Definition sort {A} (compare : A -> A -> Number) (array : list A) : list A :=
  foldr (insertSorted compare) [] array.

End JsArray.

Import JsMath.

(** ** utils/constants.js *)

Module PHYSICS_CONSTANTS.
Definition EARTH_RADIUS : R := 6371000.
Definition EARTH_GRAVITY : R := 9.81.
Definition EARTH_CRUST_DENSITY : R := 2700.
Definition WATER_DENSITY : R := 1000.
Definition ATMOSPHERE_SCALE_HEIGHT : R := 8400.
Definition AIR_DENSITY_SEA_LEVEL : R := 1.225.
Definition TNT_EQUIVALENT : R := 4.184e9.
Definition SOUND_SPEED : R := 343.
Definition SEISMIC_VELOCITY : R := 6000.
End PHYSICS_CONSTANTS.

Module DAMAGE_THRESHOLDS.
Module OVERPRESSURE.
Definition LIGHT_DAMAGE : R := 6895.
Definition MODERATE_DAMAGE : R := 34475.
Definition HEAVY_DAMAGE : R := 68950.
Definition COMPLETE_DESTRUCTION : R := 137900.
End OVERPRESSURE.
Module THERMAL.
Definition FIRST_DEGREE_BURN : R := 25.
Definition SECOND_DEGREE_BURN : R := 37.5.
Definition THIRD_DEGREE_BURN : R := 62.5.
End THERMAL.
End DAMAGE_THRESHOLDS.

(** ** physics/atmosphere.js *)

Module AtmosphereCalculator.

Record EntryResult : Type := mkEntry {
  survivesAtmosphere : bool;
  airburstAltitude : R;
  airburstEnergy : R;
  finalVelocity : R;
  finalMass : R;
  finalDiameter : R
}.

(** The threshold over the reals.  The source computes it on doubles
    ([Binary64.calculateSurvivalDiameter] below); the two values differ by
    rounding, which decides the test only for a diameter within rounding
    distance of the threshold. *)
Definition calculateSurvivalDiameter (velocity density : R) : R :=
  let strengthFactor := sqrt (density / 3000) in
  let velocityFactor := pow (velocity / 20) 0.5 in
  50 * strengthFactor / velocityFactor.

Definition getMaterialStrength (density : R) : R :=
  if decide (density < 1000) then 1e6
  else if decide (density < 5000) then 1e8
  else 1e9.

Definition calculateAirburstAltitude (diameter velocity density : R) : R :=
  let dynamicPressure :=
    0.5 * PHYSICS_CONSTANTS.AIR_DENSITY_SEA_LEVEL * pow (velocity * 1000) 2 in
  let strength := getMaterialStrength density in
  let altitudeFactor := ln (dynamicPressure / strength) in
  let altitude := PHYSICS_CONSTANTS.ATMOSPHERE_SCALE_HEIGHT * altitudeFactor in
  Rmax altitude 10000.

Definition calculateMassLossRatio (diameter velocity density : R) : R :=
  let surfaceAreaToVolume := 6 / diameter in
  let velocityFactor := pow (velocity / 20) 2 in
  let strengthFactor := 3000 / density in
  let massLoss := 0.1 * surfaceAreaToVolume * velocityFactor * strengthFactor in
  Rmin massLoss 0.9.

Definition calculateFinalVelocity (velocity diameter density : R) : R :=
  let massLossRatio := calculateMassLossRatio diameter velocity density in
  let velocityRetention := 1 - massLossRatio * 0.3 in
  velocity * Rmax velocityRetention 0.5.

Definition calculateFinalMass (mass diameter velocity density : R) : R :=
  let massLossRatio := calculateMassLossRatio diameter velocity density in
  mass * (1 - massLossRatio).

(** The parameter [angle] is destructured by the source and never used. *)
Definition calculateAtmosphericEntry
    (diameter velocity angle density mass : R) : EntryResult :=
  let survivalDiameter := calculateSurvivalDiameter velocity density in
  let survives := bool_decide (survivalDiameter <= diameter) in
  if negb survives then
    let altitude := calculateAirburstAltitude diameter velocity density in
    let energy := mass * pow (velocity * 1000) 2 * 0.5 in
    mkEntry false altitude energy 0 0 0
  else
    let finalVelocity := calculateFinalVelocity velocity diameter density in
    let finalMass := calculateFinalMass mass diameter velocity density in
    let finalDiameter := pow (finalMass / density * 6 / PI) (1 / 3) in
    mkEntry true 0 0 finalVelocity finalMass finalDiameter.

End AtmosphereCalculator.

(** ** The survival test on doubles *)

(** [calculateSurvivalDiameter] and the test [diameter >= survivalDiameter]
    as the source evaluates them, in IEEE-754 binary64 arithmetic: [/] and
    [*] round to nearest, [Math.sqrt] is correctly rounded, and
    [Math.pow(x, 0.5)] is the square root of [x] (the [pow] of fdlibm,
    which V8 ports, returns [sqrt(x)] for the exponent [0.5]). *)
Module Binary64.

Definition calculateSurvivalDiameter (velocity density : float) : float :=
  let strengthFactor := PrimFloat.sqrt (density / 3000) in
  let velocityFactor := PrimFloat.sqrt (velocity / 20) in
  (50 * strengthFactor / velocityFactor)%float.

Definition survivesAtmosphere (diameter velocity density : float) : bool :=
  let survivalDiameter := calculateSurvivalDiameter velocity density in
  (survivalDiameter <=? diameter)%float.


End Binary64.

(** ** physics/crater.js *)

Module CraterCalculator.

Definition targetDensity : R := PHYSICS_CONSTANTS.EARTH_CRUST_DENSITY.
Definition gravity : R := PHYSICS_CONSTANTS.EARTH_GRAVITY.

Record CraterResult : Type := mkCrater {
  diameter : R;
  depth : R;
  volume : R;
  rimHeight : R;
  ejectaRange : R;
  efficiency : R;
  shape : string
}.

(** The parameter [velocity] is not used by the scaling law. *)
Definition calculateCraterDiameter (energy velocity mass : R) : R :=
  let K := 1.161 in
  let L := pow (mass / targetDensity) (1 / 3) in
  let scalingFactor := pow (energy / (targetDensity * gravity)) 0.25 in
  let sizeFactor := pow L (- 0.25) in
  K * scalingFactor * sizeFactor.

Definition calculateCraterDepth (diameter : R) : R :=
  let transitionDiameter := 2000 in
  if decide (diameter < transitionDiameter) then diameter * 0.2
  else diameter * 0.1.

Definition calculateCraterVolume (diameter depth : R) : R :=
  let radius := diameter / 2 in
  let height := depth in
  (PI * pow height 2 * (3 * radius - height)) / 3.

Definition calculateRimHeight (diameter : R) : R :=
  let heightRatio := if decide (diameter < 2000) then 0.07 else 0.03 in
  diameter * heightRatio.

Definition calculateEjectaRange (diameter velocity : R) : R :=
  let baseRange := 2.5 * diameter in
  let velocityFactor := Rmin (velocity / 20) 2 in
  baseRange * velocityFactor.

Definition determineCraterShape (angle : R) : string :=
  if decide (60 <= angle) then "circular"
  else if decide (30 <= angle) then "elliptical"
  else "elongated".

Definition calculateCrater (diameter velocity angle density energy : R)
    : CraterResult :=
  let angleRad := (angle * PI) / 180 in
  let efficiency := sin angleRad in
  let effectiveEnergy := energy * efficiency in
  let projectileRadius := diameter / 2 in
  let projectileMass := (4 / 3) * PI * pow projectileRadius 3 * density in
  let craterDiameter :=
    calculateCraterDiameter effectiveEnergy velocity projectileMass in
  let craterDepth := calculateCraterDepth craterDiameter in
  let craterVolume := calculateCraterVolume craterDiameter craterDepth in
  let rimHeight := calculateRimHeight craterDiameter in
  let ejectaRange := calculateEjectaRange craterDiameter velocity in
  mkCrater craterDiameter craterDepth craterVolume rimHeight ejectaRange
           efficiency (determineCraterShape angle).

End CraterCalculator.

(** ** physics/waves.js *)

Module BlastWaveCalculator.

Record OverpressureRadius : Type := mkRadius {
  pressure : R;
  radius : R
}.

Record BlastResult : Type := mkBlast {
  radius1psi : R;
  radius5psi : R;
  radius10psi : R;
  overpressureRadii : list OverpressureRadius
}.

Definition calculateEffectiveEnergy (energy angle : R) : R :=
  let angleRad := (angle * PI) / 180 in
  let efficiency := sin angleRad in
  energy * efficiency.

Definition calculateOverpressureRadius (energy targetPressure : R) : R :=
  let radius := pow (energy / (4 * PI * targetPressure)) (1 / 3) in
  Rmax radius 0.

Definition calculateMultipleRadii (energy : R) : list OverpressureRadius :=
  let pressures := [1000; 5000; 10000; 20000; 50000] in
  map (fun pressure =>
         mkRadius pressure (calculateOverpressureRadius energy pressure))
      pressures.

Definition calculateBlastWave (energy angle : R) : BlastResult :=
  let effectiveEnergy := calculateEffectiveEnergy energy angle in
  mkBlast
    (calculateOverpressureRadius effectiveEnergy
       DAMAGE_THRESHOLDS.OVERPRESSURE.LIGHT_DAMAGE)
    (calculateOverpressureRadius effectiveEnergy
       DAMAGE_THRESHOLDS.OVERPRESSURE.MODERATE_DAMAGE)
    (calculateOverpressureRadius effectiveEnergy
       DAMAGE_THRESHOLDS.OVERPRESSURE.HEAVY_DAMAGE)
    (calculateMultipleRadii effectiveEnergy).

End BlastWaveCalculator.

(** ** physics/thermal.js *)

Module ThermalCalculator.

Record Fireball : Type := mkFireball {
  radius : R;
  duration : R;
  temperature : R;
  totalRadiantEnergy : R
}.

Record ThermalResult : Type := mkThermal {
  radius1deg : R;
  radius2deg : R;
  radius3deg : R;
  thermalDuration : R;
  fireball : Fireball;
  (** whether the source logs 'Invalid thermal radius ordering' *)
  orderingWarning : bool
}.

Definition calculateFireball (energy : R) : Fireball :=
  let radius := pow (energy / 4.184e9) 0.4 * 180 in
  let duration := pow (energy / 4.184e9) 0.25 * 0.4 in
  let temperature := 6000 in
  mkFireball radius duration temperature (energy * 0.35).

Definition calculateBurnRadius (fb : Fireball) (threshold : R) : R :=
  let fireballRadius := radius fb in
  let fireballSurfaceArea := 4 * PI * pow fireballRadius 2 in
  let fireballFluence := totalRadiantEnergy fb / fireballSurfaceArea in
  let thresholdJm2 := threshold * 10000 in
  let burnRadius := fireballRadius * sqrt (fireballFluence / thresholdJm2) in
  Rmax burnRadius fireballRadius.

(** The parameter [diameter] is destructured by the source and never
    used.  The validation of the ordering only writes to the console; its
    outcome is recorded in [orderingWarning]. *)
Definition calculateThermalRadiation (energy diameter : R) : ThermalResult :=
  let fb := calculateFireball energy in
  let r1 := calculateBurnRadius fb DAMAGE_THRESHOLDS.THERMAL.FIRST_DEGREE_BURN in
  let r2 := calculateBurnRadius fb DAMAGE_THRESHOLDS.THERMAL.SECOND_DEGREE_BURN in
  let r3 := calculateBurnRadius fb DAMAGE_THRESHOLDS.THERMAL.THIRD_DEGREE_BURN in
  let warn := bool_decide (r1 <= r2) || bool_decide (r2 <= r3) in
  mkThermal r1 r2 r3 (duration fb) fb warn.

End ThermalCalculator.

(** ** physics/seismic.js *)

Module SeismicCalculator.

Definition attenuationModel : string := "Boore-Atkinson".
Definition crustalVelocity : R := PHYSICS_CONSTANTS.SEISMIC_VELOCITY.

(** An entry of the local array [intensityLevels]. *)
Record IntensityLevel : Type := mkLevel {
  level_intensity : Z;
  level_description : string;
  level_damageLevel : R;
  level_baseRadius : R
}.

Record IntensityZone : Type := mkZone {
  intensity : Z;
  description : string;
  radius : R;
  damageLevel : R;
  peakAcceleration : R;
  center_latitude : R;
  center_longitude : R;
  color : string;
  opacity : R
}.

Record GroundMotion : Type := mkGroundMotion {
  peakGroundAcceleration : Number;
  maxIntensity : Number;
  gm_attenuationModel : string;
  crustal_velocity : R;
  crustal_density : R;
  crustal_quality : R
}.

Record DamageStates : Type := mkDamageStates {
  light : R;
  moderate : R;
  extensive : R;
  complete : R
}.

Record BuildingAssessment : Type := mkBuilding {
  building_name : string;
  damageStates : DamageStates;
  expectedLoss : R
}.

Record ZoneAssessment : Type := mkZoneAssessment {
  za_intensity : Z;
  za_radius : R;
  buildings : list (string * BuildingAssessment)
}.

Record DamageAssessment : Type := mkDamageAssessment {
  da_zones : list ZoneAssessment;
  totalDamage : DamageStates
}.

(** The result object.  [peakAcceleration] is set only by the two
    no-effect returns; [groundMotion], [damageAssessment] and [duration]
    only by the significant one.  The fields [arrivalTimes] and [frequency]
    of the significant return are read by no caller and are left out. *)
Record SeismicResult : Type := mkSeismic {
  magnitude : R;
  significant : bool;
  effectRadius : Number;
  zones : list IntensityZone;
  res_peakAcceleration : option R;
  groundMotion : option GroundMotion;
  damageAssessment : option DamageAssessment;
  duration : option R
}.

Definition calculateMagnitude (energy : R) : R :=
  let seismicEnergy := energy * 0.01 in
  let logEnergy := log10 seismicEnergy in
  let magnitude := (logEnergy - 9.1) / 1.5 in
  Rmax 0 (Rmin magnitude 10).

(** The source ignores its argument and assumes a rock site. *)
Definition getSiteAmplification (location : gmap string R) : R := 0.0.

Definition calculateIntensityRadius
    (magnitude : R) (intensity : Z) (location : gmap string R) : R :=
  let A := 2.0 in
  let B := 1.5 in
  let C := 3.5 in
  let siteAmp := getSiteAmplification location in
  let logR := (A + B * magnitude + siteAmp - IZR intensity) / C in
  let radiusKm := pow 10 logR in
  Rmax (radiusKm * 1000) 0.

Definition intensityToPGA (intensity : Z) : R :=
  let logPGA := IZR intensity / 3.0 - 1.5 in
  pow 10 logPGA.

Definition getIntensityColor (intensity : Z) : string :=
  match intensity with
  | 12%Z => "#FF0000" | 11%Z => "#FF2200" | 10%Z => "#FF4400"
  | 9%Z => "#FF6600" | 8%Z => "#FF8800" | 7%Z => "#FFAA00"
  | 6%Z => "#FFCC00" | 5%Z => "#FFDD00" | 4%Z => "#FFFF00"
  | 3%Z => "#CCFF33" | 2%Z => "#99FF66" | 1%Z => "#66FF99"
  | _ => "#CCCCCC"
  end.

Definition getIntensityDescription (intensity : Z) : string :=
  match intensity with
  | 12%Z => "Extreme Destruction" | 11%Z => "Catastrophic"
  | 10%Z => "Disastrous" | 9%Z => "Violent" | 8%Z => "Severe"
  | 7%Z => "Very Strong" | 6%Z => "Strong" | 5%Z => "Moderate"
  | 4%Z => "Light" | 3%Z => "Weak" | 2%Z => "Very Weak" | 1%Z => "Not Felt"
  | _ => "Unknown"
  end.

Definition baseIntensityOf (magnitude : R) : Z :=
  Z.min 12 (Z.max 3 (floor (magnitude * 1.5 + 2))).

(** The loop [for (let i = baseIntensity; i >= 3; i -= 2)].  The counter
    [fuel] only makes the recursion structural; [intensityLevelsOf] starts
    it with more fuel than the loop has iterations
    (see [levelsLoop_fuel_irrelevant]). *)
Fixpoint levelsLoop (fuel : nat) (baseIntensity i : Z) (craterDiameter : R)
    : list IntensityLevel :=
  match fuel with
  | O => []
  | S fuel' =>
      if decide (3 <= i)%Z then
        let radiusMultiplier := pow 2 (IZR (baseIntensity - i) / 2) in
        mkLevel i (getIntensityDescription i) (IZR i / 12)
                (craterDiameter * radiusMultiplier)
        :: levelsLoop fuel' baseIntensity (i - 2) craterDiameter
      else []
  end.

Definition intensityLevelsOf (baseIntensity : Z) (craterDiameter : R)
    : list IntensityLevel :=
  levelsLoop (Z.to_nat baseIntensity) baseIntensity baseIntensity craterDiameter.

(** The body of [intensityLevels.forEach((level, index) => ...)], which
    pushes a zone when its radius exceeds the floor. *)
Fixpoint zonesLoop (magnitude : R) (location : gmap string R) (lat lon : R)
    (levels : list IntensityLevel) (index : nat) : list IntensityZone :=
  match levels with
  | [] => []
  | level :: rest =>
      let radius :=
        calculateIntensityRadius magnitude (level_intensity level) location in
      let minRadius := Rmax (level_baseRadius level) 500 in
      let later := zonesLoop magnitude location lat lon rest (S index) in
      if decide (minRadius < radius) then
        mkZone (level_intensity level) (level_description level) radius
               (level_damageLevel level)
               (intensityToPGA (level_intensity level))
               lat lon
               (getIntensityColor (level_intensity level))
               (0.7 - INR index * 0.1)
        :: later
      else later
  end.

(** The comparator [(a, b) => b.radius - a.radius] of the final sort puts
    [a] before [b] when [b.radius <= a.radius]. *)
Definition largestFirst (a b : IntensityZone) : Prop := radius b <= radius a.

#[global] Instance largestFirst_decision a b : Decision (largestFirst a b) :=
  Rle_dec (radius b) (radius a).

(** [location] has passed the validation of [calculateSeismicEffects];
    [lat] and [lon] are its two coordinates. *)
Definition calculateIntensityZones
    (magnitude : R) (location : gmap string R) (lat lon : R)
    (craterDiameter : R) : list IntensityZone :=
  let baseIntensity := baseIntensityOf magnitude in
  let intensityLevels := intensityLevelsOf baseIntensity craterDiameter in
  let zones := zonesLoop magnitude location lat lon intensityLevels 0 in
  merge_sort largestFirst zones.

Definition calculateGroundMotionParameters
    (magnitude : R) (zones : list IntensityZone) : GroundMotion :=
  let maxPGA :=
    match zones with
    | [] => Finite 0
    | _ => max_spread (map peakAcceleration zones)
    end in
  let maxI :=
    match zones with
    | [] => Finite 0
    | _ => max_spread (map (fun z => IZR (intensity z)) zones)
    end in
  mkGroundMotion maxPGA maxI attenuationModel crustalVelocity
                 PHYSICS_CONSTANTS.EARTH_CRUST_DENSITY 600.

Definition calculateFragilityCurve (intensity : Z) (vulnerability : R)
    : DamageStates :=
  let adjustedIntensity := IZR intensity * vulnerability in
  mkDamageStates
    (Rmin (adjustedIntensity / 12 * 0.8) 0.8)
    (Rmin (Rmax (adjustedIntensity - 4) 0 / 8 * 0.6) 0.6)
    (Rmin (Rmax (adjustedIntensity - 6) 0 / 6 * 0.4) 0.4)
    (Rmin (Rmax (adjustedIntensity - 8) 0 / 4 * 0.2) 0.2).

Definition damageCategories : list (string * (string * R)) :=
  [ ("residential", ("Residential Buildings", 1.0));
    ("commercial", ("Commercial Buildings", 0.8));
    ("industrial", ("Industrial Facilities", 0.6));
    ("critical", ("Critical Infrastructure", 0.4)) ].

Definition assessBuildingDamage (zones : list IntensityZone)
    : DamageAssessment :=
  mkDamageAssessment
    (map (fun zone =>
            mkZoneAssessment (intensity zone) (radius zone)
              (map (fun entry =>
                      let fragility :=
                        calculateFragilityCurve (intensity zone)
                                                (snd (snd entry)) in
                      (fst entry,
                       mkBuilding (fst (snd entry)) fragility
                         (complete fragility * 0.6
                          + extensive fragility * 0.3
                          + moderate fragility * 0.1)))
                   damageCategories))
         zones)
    (mkDamageStates 0 0 0 0).

Definition calculateShakingDuration (magnitude : R) : R :=
  let tectonicDuration := pow 10 (0.5 * magnitude - 1.5) in
  Rmax (tectonicDuration * 0.3) 5.

(** [location] is an object whose fields are numbers; the validation
    [typeof location.latitude !== 'number'] fails when a key is missing. *)
Definition calculateSeismicEffects
    (energy : R) (location : gmap string R) (craterDiameter : R)
    : SeismicResult :=
  match location !! "latitude", location !! "longitude" with
  | Some lat, Some lon =>
      let magnitude := calculateMagnitude energy in
      if decide (magnitude < 3.0) then
        mkSeismic magnitude false (Finite 0) [] (Some 0) None None None
      else
        let intensityZones :=
          calculateIntensityZones magnitude location lat lon craterDiameter in
        let groundMotion :=
          calculateGroundMotionParameters magnitude intensityZones in
        let damageAssessment := assessBuildingDamage intensityZones in
        mkSeismic magnitude true
                  (max_spread (map radius intensityZones))
                  intensityZones None
                  (Some groundMotion) (Some damageAssessment)
                  (Some (calculateShakingDuration magnitude))
  | _, _ => mkSeismic 0 false (Finite 0) [] (Some 0) None None None
  end.

(** The order in which the zones of one event are laid out, from the
    outermost ring inwards: the radius strictly decreases and the intensity
    strictly increases. *)
Definition outward (a b : IntensityZone) : Prop :=
  radius b < radius a /\ (intensity a < intensity b)%Z.

(** An entry of the object [waveTypes]. *)
Record WaveType : Type := mkWaveType {
  wave_velocity : R;
  wave_name : string
}.

Definition waveTypes : list (string * WaveType) :=
  [ ("pWave", mkWaveType 6000 "P-Wave (Primary)");
    ("sWave", mkWaveType 3500 "S-Wave (Secondary)");
    ("surface", mkWaveType 2800 "Surface Waves") ].

Record WaveArrival : Type := mkWaveArrival {
  arrival_name : string;
  arrival_time : R;
  arrival_velocity : R
}.

Record ZoneArrival : Type := mkZoneArrival {
  arrival_distance : R;
  arrival_intensity : Z;
  waveArrivals : list (string * WaveArrival)
}.

Record ArrivalTimes : Type := mkArrivalTimes {
  arrivals_epicenter : gmap string R;
  arrivals_waveTypes : list (string * WaveType);
  arrivals : list ZoneArrival
}.

(** The field [arrivalTimes] of the significant result. *)
Definition calculateArrivalTimes (epicenter : gmap string R)
    (zones : list IntensityZone) : ArrivalTimes :=
  let arrivals :=
    map (fun zone =>
           let distance := radius zone in
           let times :=
             map (fun entry : string * WaveType =>
                    (fst entry,
                     mkWaveArrival (wave_name (snd entry))
                       (distance / wave_velocity (snd entry))
                       (wave_velocity (snd entry))))
                 waveTypes in
           mkZoneArrival distance (intensity zone) times)
        zones in
  mkArrivalTimes epicenter waveTypes arrivals.

(** The field [frequency] of the significant result.  A crater diameter
    of zero makes the base frequency [Infinity], a negative one [NaN]. *)
Definition calculateDominantFrequency (magnitude craterDiameter : R)
    : Number :=
  let baseFreq := divN 1.0 (sqrtN (Finite (craterDiameter / 1000))) in
  let magnitudeEffect := pow 10 ((5 - magnitude) / 3) in
  max_with (min_with (mulN baseFreq magnitudeEffect) 50) 0.1.

End SeismicCalculator.

(** ** physics/tsunami.js *)

Module TsunamiCalculator.

Definition waterDensity : R := PHYSICS_CONSTANTS.WATER_DENSITY.
Definition gravity : R := PHYSICS_CONSTANTS.EARTH_GRAVITY.
Definition earthRadius : R := PHYSICS_CONSTANTS.EARTH_RADIUS.

Record OceanImpact : Type := mkOcean {
  inOcean : bool;
  waterDepth : R;
  oceanBasin : option string;
  nearestCoast : option string
}.

Record InitialWave : Type := mkInitialWave {
  height : Number;
  wavelength : R;
  period : R;
  speed : R;
  energy : R;
  displacementVolume : R;
  transferEfficiency : R;
  waveType : string
}.

Record WaveFront : Type := mkFront {
  front_time : R;
  front_radius : R;
  front_height : Number;
  front_speed : R;
  front_energy : R
}.

(** The fields [travelTimes] and [energyDecay] stay empty in the source and
    are left out. *)
Record PropagationData : Type := mkPropagation {
  epicenter : gmap string R;
  prop_initialWave : InitialWave;
  waveFronts : list WaveFront
}.

Record Coastline : Type := mkCoastline {
  coast_name : string;
  coast_coordinates : gmap string R;
  population : R;
  topography : string
}.

Record CoastalEffect : Type := mkCoastal {
  location : string;
  coordinates_latitude : option R;
  coordinates_longitude : option R;
  distance : Number;
  arrivalTime : R;
  waveHeight : Number;
  runUpHeight : Number;
  inundationDistance : Number;
  velocity : Number;
  hazardLevel : string;
  populationAtRisk : R
}.

(** Rendering attributes (colours, opacity, labels) are left out. *)
Record Visualization : Type := mkVisualization {
  animationFrames : list (R * R * Number);
  coastalMarkers : list (R * Number * string);
  vis_duration : Number
}.

(** The result object; a field that a return path does not set is [None].
    [oceanImpact] is [null] on the invalid-location return.  The field
    [energyDistribution] is read by no caller and is left out, and so is
    the formatted text of an arrival time. *)
Record TsunamiResult : Type := mkTsunami {
  generated : bool;
  reason : option string;
  oceanImpact : option OceanImpact;
  maxHeight : Number;
  waveData : option InitialWave;
  initialWave : option InitialWave;
  propagation : option PropagationData;
  coastalEffects : list CoastalEffect;
  visualization : option Visualization;
  arrivalTimes : option (list (string * R * Number));
  duration : option R
}.

Definition isOceanCoordinate (lat lng : R) : bool :=
  if bool_decide (-80 <= lng) && bool_decide (lng <= 20)
     && bool_decide (Rabs lat < 70) then true
  else if (bool_decide (-180 <= lng) && bool_decide (lng <= -80))
          || (bool_decide (120 <= lng) && bool_decide (lng <= 180)) then true
  else if bool_decide (20 <= lng) && bool_decide (lng <= 120)
          && bool_decide (-60 <= lat) && bool_decide (lat <= 30) then true
  else false.

Definition estimateWaterDepth (lat lng : R) : R :=
  let absLat := Rabs lat in
  if decide (60 < absLat) then 2000
  else if decide (absLat < 30) then 4000
  else 3000.

Definition identifyOceanBasin (lat lng : R) : string :=
  if bool_decide (-80 <= lng) && bool_decide (lng <= 20) then "Atlantic"
  else if (bool_decide (-180 <= lng) && bool_decide (lng <= -80))
          || (bool_decide (120 <= lng) && bool_decide (lng <= 180))
       then "Pacific"
  else if bool_decide (20 <= lng) && bool_decide (lng <= 120) then "Indian"
  else "Unknown".

(** The [reduce] starts from [{name: '', dist: Infinity}], here [None]. *)
Definition findNearestCoastline (lat lng : R) : string :=
  let distances :=
    [ ("North America West", Rabs (lng + 120));
      ("North America East", Rabs (lng + 75));
      ("Europe", Rabs (lng - 0));
      ("Asia", Rabs (lng - 140));
      ("Australia", Rabs (lng - 140) + Rabs (lat + 25)) ] in
  let nearest :=
    foldl (fun (min : option (string * R)) (entry : string * R) =>
             match min with
             | None => Some entry
             | Some m => if decide (snd entry < snd m) then Some entry else min
             end) None distances in
  match nearest with Some m => fst m | None => "" end.

Definition determineOceanImpact (lat lng : R) : OceanImpact :=
  let isOcean := isOceanCoordinate lat lng in
  if negb isOcean then mkOcean false 0 None None
  else
    mkOcean true (estimateWaterDepth lat lng)
            (Some (identifyOceanBasin lat lng))
            (Some (findNearestCoastline lat lng)).

Definition calculateEnergyTransferEfficiency (waterDepth craterDiameter : R)
    : R :=
  let depthFactor := Rmin (waterDepth / 1000) 1 in
  let sizeFactor := Rmin (craterDiameter / 1000) 1 in
  0.001 * (1 + depthFactor) * (1 + sizeFactor).

Definition calculateWaterDisplacement (craterDiameter waterDepth : R) : R :=
  let radius := craterDiameter / 2 in
  let displacementDepth := Rmin (radius * 0.2) waterDepth in
  (2 / 3) * PI * pow radius 2 * displacementDepth.

(** The wave area is zero when the crater diameter is, and the quotient
    then leaves the reals. *)
Definition calculateInitialWaveHeight
    (energy displacementVolume waterDepth : R) : Number :=
  let waveArea := PI * pow (sqrt (displacementVolume / PI)) 2 in
  let heightSquared := div (2 * energy) (waterDensity * gravity * waveArea) in
  sqrtN (max_with heightSquared 0).

Definition calculateWavePeriod (wavelength waterDepth : R) : R :=
  if decide (waterDepth < wavelength / 20) then
    wavelength / sqrt (gravity * waterDepth)
  else sqrt (wavelength / (2 * PI * gravity)).

Definition calculateWaveSpeed (wavelength waterDepth : R) : R :=
  if decide (waterDepth < wavelength / 20) then sqrt (gravity * waterDepth)
  else sqrt (gravity * wavelength / (2 * PI)).

(** The label compares [waterDepth] with [wavelength / 20].  Over the
    reals the wavelength is never below [waterDepth * 20]; on doubles
    [(waterDepth * 20) / 20] can round below [waterDepth] (at the depth
    0.47, for instance), and the source then answers 'deep-water'.  At the
    depths that [estimateWaterDepth] returns, the product and the quotient
    by 20 are exact. *)
Definition calculateInitialWave (energy waterDepth craterDiameter : R)
    : InitialWave :=
  let transferEfficiency :=
    calculateEnergyTransferEfficiency waterDepth craterDiameter in
  let tsunamiEnergy := energy * transferEfficiency in
  let displacementVolume :=
    calculateWaterDisplacement craterDiameter waterDepth in
  let initialHeight :=
    calculateInitialWaveHeight tsunamiEnergy displacementVolume waterDepth in
  let wavelength := Rmax (craterDiameter * 50) (waterDepth * 20) in
  let period := calculateWavePeriod wavelength waterDepth in
  let waveSpeed := calculateWaveSpeed wavelength waterDepth in
  mkInitialWave initialHeight wavelength period waveSpeed tsunamiEnergy
    displacementVolume transferEfficiency
    (if decide (wavelength / 20 < waterDepth) then "deep-water"
     else "shallow-water").

Definition calculateWaveHeightDecay
    (initialHeight : Number) (distance wavelength : R) : Number :=
  let geometricDecay := 1 / sqrt (Rmax (distance / 1000) 1) in
  let dissipationFactor := exp (- distance / (wavelength * 1000)) in
  mulN (mulN initialHeight geometricDecay) dissipationFactor.

Definition calculateWaveSpeedAtDistance (w : InitialWave) (distance : R) : R :=
  speed w.

Definition calculateEnergyAtDistance (initialEnergy distance : R) : R :=
  initialEnergy / Rmax (distance / 1000) 1.

Definition maxPropagationDistance : R := 20000.
Definition timeSteps : nat := 24.
Definition timeInterval : R := 3600.

(** The loop [for (let step = 0; step < timeSteps; step++)] with its two
    [break]s; [remaining] counts the iterations still allowed. *)
Fixpoint propagationLoop (w : InitialWave) (remaining step : nat)
    : list WaveFront :=
  match remaining with
  | O => []
  | S remaining' =>
      let currentTime := INR step * timeInterval in
      let waveRadius := speed w * currentTime in
      if decide (maxPropagationDistance * 1000 < waveRadius) then []
      else
        let heightAtDistance :=
          calculateWaveHeightDecay (height w) waveRadius (wavelength w) in
        if ltN heightAtDistance 0.01 then []
        else
          mkFront currentTime waveRadius heightAtDistance
                  (calculateWaveSpeedAtDistance w waveRadius)
                  (calculateEnergyAtDistance (energy w) waveRadius)
          :: propagationLoop w remaining' (S step)
  end.

Definition modelWavePropagation (w : InitialWave) (epicenter : gmap string R)
    : PropagationData :=
  mkPropagation epicenter w (propagationLoop w timeSteps 0).

(** A coordinate that the point does not carry reads as [undefined], and
    the arithmetic on it gives [NaN].  Over the reals the quantity [a] lies
    between 0 and 1 for latitudes between -90 and 90 degrees; on doubles
    it can round above 1 for two nearly antipodal points, and the source
    then returns [NaN] as well, which is not represented here. *)
Definition calculateDistance (point1 point2 : gmap string R) : Number :=
  match point1 !! "latitude", point1 !! "longitude",
        point2 !! "latitude", point2 !! "longitude" with
  | Some lat1, Some lon1, Some lat2, Some lon2 =>
      let R0 := earthRadius in
      let phi1 := lat1 * PI / 180 in
      let phi2 := lat2 * PI / 180 in
      let dphi := (lat2 - lat1) * PI / 180 in
      let dlambda := (lon2 - lon1) * PI / 180 in
      let a := sin (dphi / 2) * sin (dphi / 2)
               + cos phi1 * cos phi2 * sin (dlambda / 2) * sin (dlambda / 2) in
      let c := 2 * atan2 (sqrt a) (sqrt (1 - a)) in
      Finite (R0 * c)
  | _, _, _, _ => NaN
  end.

(** The coastline points carry the keys [lat] and [lng]. *)
Definition getMajorCoastlines (epicenter : gmap string R) : list Coastline :=
  [ mkCoastline "California Coast" {[ "lat" := 36; "lng" := -122 ]}
                25000000 "steep";
    mkCoastline "Japan Coast" {[ "lat" := 36; "lng" := 140 ]}
                50000000 "moderate";
    mkCoastline "Chile Coast" {[ "lat" := -30; "lng" := -71 ]}
                5000000 "steep";
    mkCoastline "Indonesia Coast" {[ "lat" := -6; "lng" := 106 ]}
                30000000 "flat";
    mkCoastline "Hawaii Islands" {[ "lat" := 21; "lng" := -158 ]}
                1500000 "steep" ].

(** No front satisfies the test when the target distance is not finite. *)
Definition findWaveAtDistance (waveFronts : list WaveFront)
    (targetDistance : Number) : option WaveFront :=
  match targetDistance with
  | Finite d =>
      find (fun front =>
              bool_decide (Rabs (front_radius front - d)
                           < front_radius front * 0.1))
           waveFronts
  | _ => None
  end.

Definition calculateWaveRunUp (wave : WaveFront) (coastline : Coastline)
    : Number * Number :=
  let amplification :=
    if decide (topography coastline = "steep") then 1.5
    else if decide (topography coastline = "moderate") then 2.0
    else if decide (topography coastline = "flat") then 3.0
    else 2.0 in
  (mulN (front_height wave) amplification,
   sqrtN (mulN (mulN (front_height wave) (2 * gravity)) amplification)).

Definition calculateInundationDistance (runUpMaxHeight : Number)
    (topography : string) : Number :=
  let slopeFactor :=
    if decide (topography = "steep") then 20
    else if decide (topography = "moderate") then 100
    else if decide (topography = "flat") then 1000
    else 100 in
  mulN runUpMaxHeight slopeFactor.

Definition assessHazardLevel (waveHeight runUpHeight : Number) : string :=
  if gtN runUpHeight 10 then "extreme"
  else if gtN runUpHeight 5 then "high"
  else if gtN runUpHeight 2 then "moderate"
  else if gtN runUpHeight 0.5 then "low"
  else "minimal".

(** One iteration of [for (const coastline of majorCoastlines)]; [None] is
    the [continue]. *)
Definition coastalEffectAt (fronts : list WaveFront)
    (epicenter : gmap string R) (coastline : Coastline)
    : option CoastalEffect :=
  let distance := calculateDistance epicenter (coast_coordinates coastline) in
  match findWaveAtDistance fronts distance with
  | None => None
  | Some arrivalWave =>
      if ltN (front_height arrivalWave) 0.1 then None
      else
        let runUp := calculateWaveRunUp arrivalWave coastline in
        let inundation :=
          calculateInundationDistance (fst runUp) (topography coastline) in
        Some (mkCoastal (coast_name coastline)
                (coast_coordinates coastline !! "latitude")
                (coast_coordinates coastline !! "longitude")
                distance (front_time arrivalWave)
                (front_height arrivalWave) (fst runUp) inundation
                (snd runUp)
                (assessHazardLevel (front_height arrivalWave) (fst runUp))
                (population coastline))
  end.

(** The comparator [(a, b) => a.arrivalTime - b.arrivalTime]. *)
Definition earliestFirst (a b : CoastalEffect) : Prop :=
  arrivalTime a <= arrivalTime b.

#[global] Instance earliestFirst_decision a b : Decision (earliestFirst a b) :=
  Rle_dec (arrivalTime a) (arrivalTime b).

Definition calculateCoastalEffects (propagationData : PropagationData)
    (epicenter : gmap string R) : list CoastalEffect :=
  let majorCoastlines := getMajorCoastlines epicenter in
  let coastalEffects :=
    omap (coastalEffectAt (waveFronts propagationData) epicenter)
         majorCoastlines in
  merge_sort earliestFirst coastalEffects.

Definition generateTsunamiVisualization (propagationData : PropagationData)
    (coastalEffects : list CoastalEffect) : Visualization :=
  mkVisualization
    (map (fun front => (front_time front, front_radius front,
                        front_height front))
         (waveFronts propagationData))
    (map (fun effect => (arrivalTime effect, waveHeight effect,
                         hazardLevel effect))
         coastalEffects)
    (max_spread (map front_time (waveFronts propagationData))).

Definition calculateArrivalTimes (epicenter : gmap string R)
    (coastalEffects : list CoastalEffect) : list (string * R * Number) :=
  map (fun effect => (location effect, arrivalTime effect, distance effect))
      coastalEffects.

Definition estimateEventDuration (w : InitialWave) : R :=
  Rmax (period w * 10) (6 * 3600).

(** [Math.max(...coastalEffects.map(c => c.maxHeight))]: a coastal effect
    has no key [maxHeight], so every mapped value is [undefined]. *)
Definition maxHeightOf (coastalEffects : list CoastalEffect) : Number :=
  match coastalEffects with
  | [] => NegInfinity
  | _ => NaN
  end.

Definition calculateTsunami
    (energy : R) (location : gmap string R) (craterDiameter : R)
    : TsunamiResult :=
  match location !! "latitude", location !! "longitude" with
  | Some lat, Some lon =>
      let oceanImpact := determineOceanImpact lat lon in
      if negb (inOcean oceanImpact) then
        mkTsunami false (Some "Land impact - no tsunami generation")
                  (Some oceanImpact) (Finite 0) None None None [] None None
                  None
      else
        let initialWave :=
          calculateInitialWave energy (waterDepth oceanImpact)
                               craterDiameter in
        if ltN (height initialWave) 0.1 then
          mkTsunami false
                    (Some "Wave height too small for significant tsunami")
                    (Some oceanImpact) (height initialWave)
                    (Some initialWave) None None [] None None None
        else
          let propagationData := modelWavePropagation initialWave location in
          let coastalEffects :=
            calculateCoastalEffects propagationData location in
          let visualizationData :=
            generateTsunamiVisualization propagationData coastalEffects in
          mkTsunami true None (Some oceanImpact)
                    (maxHeightOf coastalEffects) None (Some initialWave)
                    (Some propagationData) coastalEffects
                    (Some visualizationData)
                    (Some (calculateArrivalTimes location coastalEffects))
                    (Some (estimateEventDuration initialWave))
  | _, _ =>
      mkTsunami false (Some "Invalid coordinates provided") None (Finite 0)
                None None None [] None None None
  end.

Record EnergyDistribution : Type := mkEnergyDistribution {
  initialEnergy : R;
  energyDecayRate : R;
  finalEnergy : R
}.

(** The field [energyDistribution] of the generated result. *)
Definition calculateEnergyDistribution (w : InitialWave)
    (propagationData : PropagationData) : EnergyDistribution :=
  let totalEnergy := energy w in
  let fronts := waveFronts propagationData in
  mkEnergyDistribution totalEnergy
    (totalEnergy
     / INR (match length fronts with O => 1 | n => n end))
    (match last fronts with
     | Some front => front_energy front
     | None => 0
     end).

(** The order of two heights, each finite or infinite. *)
Definition heightLe (a b : Number) : Prop :=
  match a, b with
  | Finite x, Finite y => x <= y
  | Finite _, PosInfinity | PosInfinity, PosInfinity => True
  | _, _ => False
  end.

(** The way the fronts of one propagation follow each other: a later
    front [b] lies at least as far out as an earlier front [a] and is
    neither higher nor more energetic. *)
Definition spreads (a b : WaveFront) : Prop :=
  front_radius a <= front_radius b
  /\ front_energy b <= front_energy a
  /\ heightLe (front_height b) (front_height a).

End TsunamiCalculator.

(** ** The orchestrator: ImpactCalculator *)

Module ImpactCalculator.

Inductive Composition : Type := rock | iron | ice | custom.

(** The input object.  [density] is read only for the composition
    [custom]; an absent field is [None]. *)
Record ImpactParameters : Type := mkParameters {
  diameter : R;
  velocity : R;
  angle : R;
  composition : Composition;
  density : option R;
  latitude : option R;
  longitude : option R
}.

(** The values stored under the keys of the aggregate result. *)
Inductive JsValue : Type :=
| VUndefined
| VNull
| VBool (b : bool)
| VNum (n : Number)
| VLocation (l : gmap string R)
| VRadii (l : list BlastWaveCalculator.OverpressureRadius)
| VFireball (f : ThermalCalculator.Fireball)
| VZones (l : list SeismicCalculator.IntensityZone)
| VGroundMotion (g : SeismicCalculator.GroundMotion)
| VDamage (d : SeismicCalculator.DamageAssessment)
| VOceanImpact (o : TsunamiCalculator.OceanImpact)
| VPropagation (p : TsunamiCalculator.PropagationData)
| VCoastalEffects (l : list TsunamiCalculator.CoastalEffect)
| VVisualization (v : TsunamiCalculator.Visualization)
| VArrivalTimes (l : list (string * R * Number)).

Definition num (x : R) : JsValue := VNum (Finite x).

(** Reading a field that the stage result does not carry gives
    [undefined]. *)
Definition orUndefined {A} (f : A -> JsValue) (o : option A) : JsValue :=
  match o with Some a => f a | None => VUndefined end.

(** [Object.assign(target, source)], and with it the spread
    [{...target, k: v}]: the properties of [source] are written to
    [target] in order. *)
Definition assign (target : gmap string JsValue)
    (source : list (string * JsValue)) : gmap string JsValue :=
  foldl (fun m kv => <[ fst kv := snd kv ]> m) target source.

(** An object literal. *)
Definition object (fields : list (string * JsValue)) : gmap string JsValue :=
  assign ∅ fields.

(** The literal [{ latitude, longitude }]; a coordinate that is not a
    number is not recorded. *)
Definition locationOf (latitude longitude : option R) : gmap string R :=
  let withLat :=
    match latitude with Some lat => {[ "latitude" := lat ]} | None => ∅ end in
  match longitude with
  | Some lon => <[ "longitude" := lon ]> withLat
  | None => withLat
  end.

Definition calculateMass (diameter density : R) : R :=
  let radius := diameter / 2 in
  let volume := (4 / 3) * PI * pow radius 3 in
  volume * density.

Definition calculateKineticEnergy (mass velocity : R) : R :=
  let velocityMs := velocity * 1000 in
  0.5 * mass * pow velocityMs 2.

Definition calculateMomentum (mass velocity : R) : R :=
  let velocityMs := velocity * 1000 in
  mass * velocityMs.

(** [customDensity || 2700] falls back when the custom density is absent
    or zero. *)
Definition getAsteroidDensity (composition : Composition)
    (customDensity : option R) : R :=
  match composition with
  | rock => 2700
  | iron => 7800
  | ice => 917
  | custom =>
      match customDensity with
      | Some d => if decide (d = 0) then 2700 else d
      | None => 2700
      end
  end.

Definition energyToTNT (energyJoules : R) : R :=
  let TNT_EQUIVALENT := 4.184e9 in
  energyJoules / TNT_EQUIVALENT.

Definition isPhase2Enabled : bool := true.

(** The fields of the object [results] before the survival test. *)
Definition basicFields (parameters : ImpactParameters)
    (asteroidDensity mass kineticEnergy momentum : R)
    (atmosphereResults : AtmosphereCalculator.EntryResult)
    : list (string * JsValue) :=
  [ ("diameter", num (diameter parameters));
    ("velocity", num (velocity parameters));
    ("angle", num (angle parameters));
    ("density", num asteroidDensity);
    ("mass", num mass);
    ("kineticEnergy", num kineticEnergy);
    ("momentum", num momentum);
    ("impactLocation",
     VLocation (locationOf (latitude parameters) (longitude parameters)));
    ("survivesAtmosphere",
     VBool (AtmosphereCalculator.survivesAtmosphere atmosphereResults));
    ("finalVelocity",
     num (AtmosphereCalculator.finalVelocity atmosphereResults));
    ("finalMass", num (AtmosphereCalculator.finalMass atmosphereResults));
    ("finalDiameter",
     num (AtmosphereCalculator.finalDiameter atmosphereResults)) ].

Definition airburstFields
    (atmosphereResults : AtmosphereCalculator.EntryResult)
    : list (string * JsValue) :=
  [ ("airburstAltitude",
     num (AtmosphereCalculator.airburstAltitude atmosphereResults));
    ("airburstEnergy",
     num (AtmosphereCalculator.airburstEnergy atmosphereResults)) ].

Definition phase1Fields
    (craterResults : CraterCalculator.CraterResult)
    (blastResults : BlastWaveCalculator.BlastResult)
    (thermalResults : ThermalCalculator.ThermalResult)
    : list (string * JsValue) :=
  [ ("craterDiameter", num (CraterCalculator.diameter craterResults));
    ("craterDepth", num (CraterCalculator.depth craterResults));
    ("craterVolume", num (CraterCalculator.volume craterResults));
    ("rimHeight", num (CraterCalculator.rimHeight craterResults));
    ("ejectaRange", num (CraterCalculator.ejectaRange craterResults));
    ("blastRadius1psi", num (BlastWaveCalculator.radius1psi blastResults));
    ("blastRadius5psi", num (BlastWaveCalculator.radius5psi blastResults));
    ("blastRadius10psi", num (BlastWaveCalculator.radius10psi blastResults));
    ("overpressureRadii",
     VRadii (BlastWaveCalculator.overpressureRadii blastResults));
    ("thermalRadius1deg", num (ThermalCalculator.radius1deg thermalResults));
    ("thermalRadius2deg", num (ThermalCalculator.radius2deg thermalResults));
    ("thermalRadius3deg", num (ThermalCalculator.radius3deg thermalResults));
    ("thermalDuration",
     num (ThermalCalculator.thermalDuration thermalResults));
    ("fireball", VFireball (ThermalCalculator.fireball thermalResults)) ].

(** The object [phase2Data]. *)
Definition phase2Fields
    (seismicResults : SeismicCalculator.SeismicResult)
    (tsunamiResults : TsunamiCalculator.TsunamiResult)
    : list (string * JsValue) :=
  [ ("seismicMagnitude", num (SeismicCalculator.magnitude seismicResults));
    ("seismicSignificant",
     VBool (SeismicCalculator.significant seismicResults));
    ("seismicRadius", VNum (SeismicCalculator.effectRadius seismicResults));
    ("seismicZones", VZones (SeismicCalculator.zones seismicResults));
    ("groundMotion",
     orUndefined VGroundMotion (SeismicCalculator.groundMotion seismicResults));
    ("buildingDamage",
     orUndefined VDamage (SeismicCalculator.damageAssessment seismicResults));
    ("seismicDuration",
     orUndefined num (SeismicCalculator.duration seismicResults));
    ("tsunamiGenerated", VBool (TsunamiCalculator.generated tsunamiResults));
    ("tsunamiMaxHeight", VNum (TsunamiCalculator.maxHeight tsunamiResults));
    ("tsunamiOceanImpact",
     match TsunamiCalculator.oceanImpact tsunamiResults with
     | Some o => VOceanImpact o
     | None => VNull
     end);
    ("tsunamiPropagation",
     orUndefined VPropagation (TsunamiCalculator.propagation tsunamiResults));
    ("tsunamiCoastalEffects",
     VCoastalEffects (TsunamiCalculator.coastalEffects tsunamiResults));
    ("tsunamiVisualization",
     orUndefined VVisualization
       (TsunamiCalculator.visualization tsunamiResults));
    ("tsunamiArrivalTimes",
     orUndefined VArrivalTimes
       (TsunamiCalculator.arrivalTimes tsunamiResults)) ].

(** [calculateImpact] is an [async] function whose only [await] is on the
    tsunami stage, itself free of real suspension; it is embedded as the
    function from the parameters to the object the promise resolves to. *)
Definition calculateImpact (parameters : ImpactParameters)
    : gmap string JsValue :=
  let asteroidDensity :=
    getAsteroidDensity (composition parameters) (density parameters) in
  let mass := calculateMass (diameter parameters) asteroidDensity in
  let kineticEnergy := calculateKineticEnergy mass (velocity parameters) in
  let momentum := calculateMomentum mass (velocity parameters) in
  let atmosphereResults :=
    AtmosphereCalculator.calculateAtmosphericEntry
      (diameter parameters) (velocity parameters) (angle parameters)
      asteroidDensity mass in
  let results :=
    object (basicFields parameters asteroidDensity mass kineticEnergy
                        momentum atmosphereResults) in
  if negb (AtmosphereCalculator.survivesAtmosphere atmosphereResults) then
    assign results (airburstFields atmosphereResults)
  else
    let finalEnergy :=
      calculateKineticEnergy
        (AtmosphereCalculator.finalMass atmosphereResults)
        (AtmosphereCalculator.finalVelocity atmosphereResults) in
    let craterResults :=
      CraterCalculator.calculateCrater
        (AtmosphereCalculator.finalDiameter atmosphereResults)
        (AtmosphereCalculator.finalVelocity atmosphereResults)
        (angle parameters) asteroidDensity finalEnergy in
    let blastResults :=
      BlastWaveCalculator.calculateBlastWave finalEnergy (angle parameters) in
    let thermalResults :=
      ThermalCalculator.calculateThermalRadiation
        finalEnergy (AtmosphereCalculator.finalDiameter atmosphereResults) in
    let results :=
      assign results (phase1Fields craterResults blastResults thermalResults) in
    if isPhase2Enabled then
      let location :=
        locationOf (latitude parameters) (longitude parameters) in
      let seismicResults :=
        SeismicCalculator.calculateSeismicEffects
          finalEnergy location (CraterCalculator.diameter craterResults) in
      let tsunamiResults :=
        TsunamiCalculator.calculateTsunami
          finalEnergy location (CraterCalculator.diameter craterResults) in
      assign results (phase2Fields seismicResults tsunamiResults)
    else results.

(** The local variables of [calculateImpact], as functions of its
    argument. *)
Definition asteroidDensityOf (p : ImpactParameters) : R :=
  getAsteroidDensity (composition p) (density p).

Definition massOf (p : ImpactParameters) : R :=
  calculateMass (diameter p) (asteroidDensityOf p).

Definition atmosphereResultsOf (p : ImpactParameters)
    : AtmosphereCalculator.EntryResult :=
  AtmosphereCalculator.calculateAtmosphericEntry
    (diameter p) (velocity p) (angle p) (asteroidDensityOf p) (massOf p).

Definition finalEnergyOf (p : ImpactParameters) : R :=
  calculateKineticEnergy
    (AtmosphereCalculator.finalMass (atmosphereResultsOf p))
    (AtmosphereCalculator.finalVelocity (atmosphereResultsOf p)).

Definition craterResultsOf (p : ImpactParameters)
    : CraterCalculator.CraterResult :=
  CraterCalculator.calculateCrater
    (AtmosphereCalculator.finalDiameter (atmosphereResultsOf p))
    (AtmosphereCalculator.finalVelocity (atmosphereResultsOf p))
    (angle p) (asteroidDensityOf p) (finalEnergyOf p).

Definition blastResultsOf (p : ImpactParameters)
    : BlastWaveCalculator.BlastResult :=
  BlastWaveCalculator.calculateBlastWave (finalEnergyOf p) (angle p).

Definition thermalResultsOf (p : ImpactParameters)
    : ThermalCalculator.ThermalResult :=
  ThermalCalculator.calculateThermalRadiation
    (finalEnergyOf p)
    (AtmosphereCalculator.finalDiameter (atmosphereResultsOf p)).

Definition seismicResultsOf (p : ImpactParameters)
    : SeismicCalculator.SeismicResult :=
  SeismicCalculator.calculateSeismicEffects
    (finalEnergyOf p) (locationOf (latitude p) (longitude p))
    (CraterCalculator.diameter (craterResultsOf p)).

Definition tsunamiResultsOf (p : ImpactParameters)
    : TsunamiCalculator.TsunamiResult :=
  TsunamiCalculator.calculateTsunami
    (finalEnergyOf p) (locationOf (latitude p) (longitude p))
    (CraterCalculator.diameter (craterResultsOf p)).

(** A location object that passes the validation of the seismic and
    tsunami stages and lies on the globe. *)
Definition validLocation (location : gmap string R) : Prop :=
  exists lat lon,
    location !! "latitude" = Some lat /\ location !! "longitude" = Some lon
    /\ -90 <= lat <= 90 /\ -180 <= lon <= 180.

(** The aggregate reports that the body reached the ground. *)
Definition survives (p : ImpactParameters) : Prop :=
  calculateImpact p !! "survivesAtmosphere" = Some (VBool true).

(** The input contract of the specification. *)
Definition validParameters (p : ImpactParameters) : Prop :=
  0 < diameter p /\ 0 < velocity p /\ 0 <= angle p <= 90
  /\ (composition p = custom -> exists d, density p = Some d /\ 0 < d)
  /\ (exists lat, latitude p = Some lat /\ -90 <= lat <= 90)
  /\ (exists lon, longitude p = Some lon /\ -180 <= lon <= 180).

End ImpactCalculator.

(** ** The callers: what is drawn on the map *)

Module VisualizationManager.
Import ImpactCalculator.

(** An entry of the local arrays [blastZones] and [thermalZones]. *)
Record EffectZone : Type := mkEffectZone {
  zone_radius : Number;
  zone_color : string;
  zone_opacity : R;
  zone_label : string
}.

(** The arguments of a call
    [layerManager.addRingLayer(id, center, radius, options)]. *)
Record RingLayer : Type := mkRingLayer {
  ring_id : string;
  ring_center : gmap string R;
  ring_radius : Number;
  fillColor : string;
  fillOpacity : R;
  strokeColor : string;
  innerRadius : Number
}.

(** The number read under a key of the result.  [calculateImpact] stores
    numbers under the keys read here; a key that is absent reads as
    [undefined], which the filter below rejects as it rejects [NaN]. *)
Definition radiusOf (results : gmap string JsValue) (key : string) : Number :=
  match results !! key with
  | Some (VNum n) => n
  | _ => NaN
  end.

(** [zones.filter(zone => zone.radius && zone.radius > 0)
          .sort((a, b) => b.radius - a.radius)]. *)
Definition sortedZonesOf (zones : list EffectZone) : list EffectZone :=
  JsArray.sort (fun a b => subN (zone_radius b) (zone_radius a))
    (filter (fun zone => truthy (zone_radius zone)
                         && gtN (zone_radius zone) 0) zones).

(** The calls to [addRingLayer] made by [sortedZones.forEach]: the inner
    radius of a ring is the radius of the next zone, and [0] for the last
    one. *)
Definition ringsOf (prefix : string) (center : gmap string R)
    (sortedZones : list EffectZone) : list RingLayer :=
  imap (fun index zone =>
          mkRingLayer (prefix +:+ pretty index) center (zone_radius zone)
            (zone_color zone) (zone_opacity zone) (zone_color zone)
            (match sortedZones !! S index with
             | Some next => zone_radius next
             | None => Finite 0
             end))
       sortedZones.

(** [visualizeBlastWave] and [visualizeThermalRadiation] are embedded as
    the sequence of their calls to [addRingLayer]; the labels they add
    and their console output are left out. *)
Definition visualizeBlastWave (center : gmap string R)
    (results : gmap string JsValue) : list RingLayer :=
  let blastZones :=
    [ mkEffectZone (radiusOf results "blastRadius10psi") "#cc0000" 0.7
                   "10 psi overpressure";
      mkEffectZone (radiusOf results "blastRadius5psi") "#ff6600" 0.6
                   "5 psi overpressure";
      mkEffectZone (radiusOf results "blastRadius1psi") "#ffcc00" 0.5
                   "1 psi overpressure" ] in
  ringsOf "blast-wave-layer-" center (sortedZonesOf blastZones).

Definition visualizeThermalRadiation (center : gmap string R)
    (results : gmap string JsValue) : list RingLayer :=
  let thermalZones :=
    [ mkEffectZone (radiusOf results "thermalRadius1deg") "#ffff00" 0.5
                   "1st degree burns";
      mkEffectZone (radiusOf results "thermalRadius2deg") "#ff8800" 0.6
                   "2nd degree burns";
      mkEffectZone (radiusOf results "thermalRadius3deg") "#cc3300" 0.7
                   "3rd degree burns" ] in
  ringsOf "thermal-layer-" center (sortedZonesOf thermalZones).

End VisualizationManager.

Module TsunamiLayerManager.
Import TsunamiCalculator.

(** The loop that keeps the front whose time is closest to the target;
    of several equally close fronts it keeps the first.  Reading
    [waveFronts[0].time] of an empty array throws, which is [None]
    here. *)
Definition findWaveAtTime (waveFronts : list WaveFront) (targetTime : R)
    : option WaveFront :=
  match waveFronts with
  | [] => None
  | first :: _ =>
      Some (fst (foldl (fun (state : WaveFront * R) wave =>
                          let diff := Rabs (front_time wave - targetTime) in
                          if decide (diff < snd state) then (wave, diff)
                          else state)
                       (first, Rabs (front_time first - targetTime))
                       waveFronts))
  end.

End TsunamiLayerManager.

(** ** The presets of [loadPreset] *)

Module Presets.
Import ImpactCalculator.

Definition tunguska : ImpactParameters :=
  mkParameters 60 27 30 rock None (Some 60.8858) (Some 101.8942).

Definition chelyabinsk : ImpactParameters :=
  mkParameters 20 19 18 rock None (Some 55.1540) (Some 61.4291).

Definition chicxulub : ImpactParameters :=
  mkParameters 10000 20 45 rock None (Some 21.4) (Some (-89.5167)).

(** A body of 100 m on the Tunguska trajectory. *)
Definition tunguskaLarger : ImpactParameters :=
  mkParameters 100 27 30 rock None (Some 60.8858) (Some 101.8942).

(** The Tunguska body on a grazing trajectory. *)
Definition grazing : ImpactParameters :=
  mkParameters 60 27 0 rock None (Some 60.8858) (Some 101.8942).

(** The same grazing trajectory for a body of 100 m. *)
Definition grazingLarger : ImpactParameters :=
  mkParameters 100 27 0 rock None (Some 60.8858) (Some 101.8942).

(** A rocky body 100 000 km across on a vertical trajectory; its
    parameters satisfy the input contract. *)
Definition planetoid : ImpactParameters :=
  mkParameters 1e8 20 90 rock None (Some 0) (Some 0).

(** The Tunguska body on a grazing trajectory over the equatorial
    Atlantic. *)
Definition grazingAtSea : ImpactParameters :=
  mkParameters 60 27 0 rock None (Some 0) (Some 0).

(** The Tunguska body with no impact location selected. *)
Definition unlocated : ImpactParameters :=
  mkParameters 60 27 30 rock None None None.


End Presets.

(** ** Keys of the aggregate result, by the stage that writes them *)

Definition basicKeys : list string :=
  [ "diameter"; "velocity"; "angle"; "density"; "mass"; "kineticEnergy";
    "momentum"; "impactLocation"; "survivesAtmosphere"; "finalVelocity";
    "finalMass"; "finalDiameter" ].

Definition airburstKeys : list string :=
  [ "airburstAltitude"; "airburstEnergy" ].

Definition craterKeys : list string :=
  [ "craterDiameter"; "craterDepth"; "craterVolume"; "rimHeight";
    "ejectaRange" ].

Definition blastKeys : list string :=
  [ "blastRadius1psi"; "blastRadius5psi"; "blastRadius10psi";
    "overpressureRadii" ].

Definition thermalKeys : list string :=
  [ "thermalRadius1deg"; "thermalRadius2deg"; "thermalRadius3deg";
    "thermalDuration"; "fireball" ].

Definition seismicKeys : list string :=
  [ "seismicMagnitude"; "seismicSignificant"; "seismicRadius";
    "seismicZones"; "groundMotion"; "buildingDamage"; "seismicDuration" ].

Definition tsunamiKeys : list string :=
  [ "tsunamiGenerated"; "tsunamiMaxHeight"; "tsunamiOceanImpact";
    "tsunamiPropagation"; "tsunamiCoastalEffects"; "tsunamiVisualization";
    "tsunamiArrivalTimes" ].

Definition phase1Keys : list string := craterKeys ++ blastKeys ++ thermalKeys.
Definition phase2Keys : list string := seismicKeys ++ tsunamiKeys.

(** * Properties *)

(** ** Facts about the [Math] model *)

Section JsMathFacts.

Lemma Math_pow_pos_base x y : 0 < x -> pow x y = Rpower x y.
Proof. intros H. unfold pow. by rewrite decide_True. Qed.

Lemma Math_pow_zero_base y : 0 < y -> pow 0 y = 0.
Proof.
  intros H. unfold pow.
  rewrite decide_False by lra. rewrite decide_True by reflexivity.
  by rewrite decide_True.
Qed.

Lemma Math_pow_positive x y : 0 < x -> 0 < pow x y.
Proof. intros H. rewrite Math_pow_pos_base by done. apply exp_pos. Qed.

Lemma Math_pow_nonneg x y : 0 <= x -> 0 <= pow x y.
Proof.
  intros [H| <-].
  - left. by apply Math_pow_positive.
  - unfold pow. rewrite decide_False by lra.
    rewrite decide_True by reflexivity. case_decide; lra.
Qed.

Lemma Int_part_IZR z : Int_part (IZR z) = z.
Proof. symmetry. apply Int_part_spec. lra. Qed.

Lemma Math_pow_2 x : pow x 2 = x * x.
Proof.
  unfold pow. repeat case_decide.
  - replace 2 with (INR 2) by (simpl; lra).
    rewrite Rpower_pow by done. simpl. lra.
  - subst. lra.
  - lra.
  - rewrite Int_part_IZR. simpl. lra.
Qed.

Lemma Math_pow_3 x : pow x 3 = x * x * x.
Proof.
  unfold pow. repeat case_decide.
  - replace 3 with (INR 3) by (simpl; lra).
    rewrite Rpower_pow by done. simpl. lra.
  - subst. lra.
  - lra.
  - rewrite Int_part_IZR. simpl. lra.
Qed.

Lemma Math_pow_half x : 0 < x -> pow x 0.5 = sqrt x.
Proof.
  intros H. rewrite Math_pow_pos_base by done.
  replace 0.5 with (/ 2) by lra. by apply Rpower_sqrt.
Qed.

Lemma Math_pow_lt a b c : 0 < c -> 0 <= a < b -> pow a c < pow b c.
Proof.
  intros Hc [[Ha| <-] Hab].
  - rewrite !Math_pow_pos_base by lra. apply Rlt_Rpower_l; lra.
  - rewrite Math_pow_zero_base by done. by apply Math_pow_positive.
Qed.

Lemma Math_pow_le a b c : 0 < c -> 0 <= a <= b -> pow a c <= pow b c.
Proof.
  intros Hc [Ha [Hab| ->]]; [|lra].
  left. apply Math_pow_lt; lra.
Qed.

Lemma Math_pow_cube_root x : 0 <= x -> pow (pow x (1 / 3)) 3 = x.
Proof.
  intros [H| <-].
  - rewrite (Math_pow_pos_base x) by done.
    rewrite Math_pow_pos_base by apply exp_pos.
    rewrite Rpower_mult. replace (1 / 3 * 3) with 1 by lra.
    by apply Rpower_1.
  - rewrite Math_pow_zero_base by lra. rewrite Math_pow_3. lra.
Qed.

Lemma sqrt_lower x c : 0 <= c -> c * c <= x -> c <= sqrt x.
Proof.
  intros Hc H. rewrite <- (sqrt_square c) by done. apply sqrt_le_1_alt, H.
Qed.

Lemma sqrt_upper x c : 0 <= c -> x <= c * c -> sqrt x <= c.
Proof.
  intros Hc H. rewrite <- (sqrt_square c) by done. apply sqrt_le_1_alt, H.
Qed.

Lemma div_le_upper a b c : 0 < c -> a <= b * c -> a / c <= b.
Proof.
  intros Hc H. apply (Rmult_le_reg_r c); [done|].
  unfold Rdiv. rewrite Rmult_assoc, Rinv_l by lra. lra.
Qed.

Lemma div_lt_upper a b c : 0 < c -> a < b * c -> a / c < b.
Proof.
  intros Hc H. apply (Rmult_lt_reg_r c); [done|].
  unfold Rdiv. rewrite Rmult_assoc, Rinv_l by lra. lra.
Qed.

Lemma div_le_lower a b c : 0 < c -> b * c <= a -> b <= a / c.
Proof.
  intros Hc H. apply (Rmult_le_reg_r c); [done|].
  unfold Rdiv. rewrite Rmult_assoc, Rinv_l by lra. lra.
Qed.

Lemma div_lt_lower a b c : 0 < c -> b * c < a -> b < a / c.
Proof.
  intros Hc H. apply (Rmult_lt_reg_r c); [done|].
  unfold Rdiv. rewrite Rmult_assoc, Rinv_l by lra. lra.
Qed.

End JsMathFacts.

(** ** Facts about [Object.assign] *)

Section AssignFacts.
Import ImpactCalculator.

Lemma lookup_assign_notin target source (k : string) :
  k ∉ source.*1 -> assign target source !! k = target !! k.
Proof.
  revert target. induction source as [|[k' v] source IH]; intros target Hk.
  - done.
  - cbn in Hk. apply not_elem_of_cons in Hk as [Hne Hk].
    unfold assign in *. cbn. rewrite IH by done.
    by apply lookup_insert_ne.
Qed.

Lemma lookup_assign_in target source (k : string) v :
  NoDup source.*1 -> (k, v) ∈ source -> assign target source !! k = Some v.
Proof.
  revert target. induction source as [|[k' v'] source IH]; intros target Hnd Hin.
  - by apply elem_of_nil in Hin.
  - cbn in Hnd. apply NoDup_cons in Hnd as [Hk' Hnd].
    apply elem_of_cons in Hin as [Heq|Hin].
    + injection Heq as -> ->.
      change (assign (<[k':=v']> target) source !! k' = Some v').
      rewrite lookup_assign_notin by done. apply lookup_insert_eq.
    + change (assign (<[k':=v']> target) source !! k = Some v). by apply IH.
Qed.

Lemma lookup_assign_is_Some target source (k : string) :
  k ∈ source.*1 -> is_Some (assign target source !! k).
Proof.
  revert target. induction source as [|[k' v'] source IH]; intros target Hin.
  - by apply elem_of_nil in Hin.
  - change (is_Some (assign (<[k':=v']> target) source !! k)).
    destruct (decide (k ∈ source.*1)) as [Hk|Hk]; [by apply IH|].
    rewrite lookup_assign_notin by done.
    cbn in Hin. apply elem_of_cons in Hin as [->|Hin]; [|done].
    rewrite lookup_insert_eq. by eexists.
Qed.

Lemma basicFields_keys p a m ke mo atm :
  (basicFields p a m ke mo atm).*1 = basicKeys.
Proof. reflexivity. Qed.

Lemma airburstFields_keys atm : (airburstFields atm).*1 = airburstKeys.
Proof. reflexivity. Qed.

Lemma phase1Fields_keys c b t : (phase1Fields c b t).*1 = phase1Keys.
Proof. reflexivity. Qed.

Lemma phase2Fields_keys s t : (phase2Fields s t).*1 = phase2Keys.
Proof. reflexivity. Qed.

End AssignFacts.

(** ** The atmospheric gate and the keys of the aggregate result *)

Section Orchestrator.
Import ImpactCalculator.

Ltac by_computation := refine (bool_decide_unpack _ _); vm_compute; exact I.

Lemma NoDup_basicKeys : NoDup basicKeys.
Proof. by_computation. Qed.

Lemma NoDup_airburstKeys : NoDup airburstKeys.
Proof. by_computation. Qed.

Lemma NoDup_phase1Keys : NoDup phase1Keys.
Proof. by_computation. Qed.

Lemma NoDup_phase2Keys : NoDup phase2Keys.
Proof. by_computation. Qed.


Lemma basic_keys_fresh :
  Forall (fun k => (k ∉ airburstKeys) /\ (k ∉ phase1Keys) /\ (k ∉ phase2Keys))
         basicKeys.
Proof. by_computation. Qed.

Lemma phase1_keys_fresh : Forall (fun k => k ∉ phase2Keys) phase1Keys.
Proof. by_computation. Qed.

Lemma calculateSurvivalDiameter_formula v rho :
  0 < v ->
  AtmosphereCalculator.calculateSurvivalDiameter v rho
  = 50 * sqrt (rho / 3000) / sqrt (v / 20).
Proof.
  intros Hv. unfold AtmosphereCalculator.calculateSurvivalDiameter.
  rewrite Math_pow_half by lra. reflexivity.
Qed.

Lemma calculateAtmosphericEntry_airburst d v a rho m :
  d < AtmosphereCalculator.calculateSurvivalDiameter v rho ->
  AtmosphereCalculator.calculateAtmosphericEntry d v a rho m
  = AtmosphereCalculator.mkEntry false
      (AtmosphereCalculator.calculateAirburstAltitude d v rho)
      (m * pow (v * 1000) 2 * 0.5) 0 0 0.
Proof.
  intros H. unfold AtmosphereCalculator.calculateAtmosphericEntry.
  rewrite bool_decide_eq_false_2 by lra. reflexivity.
Qed.

Lemma calculateAtmosphericEntry_survives d v a rho m :
  AtmosphereCalculator.calculateSurvivalDiameter v rho <= d ->
  AtmosphereCalculator.calculateAtmosphericEntry d v a rho m
  = AtmosphereCalculator.mkEntry true 0 0
      (AtmosphereCalculator.calculateFinalVelocity v d rho)
      (AtmosphereCalculator.calculateFinalMass m d v rho)
      (pow (AtmosphereCalculator.calculateFinalMass m d v rho / rho * 6 / PI)
           (1 / 3)).
Proof.
  intros H. unfold AtmosphereCalculator.calculateAtmosphericEntry.
  rewrite bool_decide_eq_true_2 by lra. reflexivity.
Qed.

(** The key [survivesAtmosphere] of the aggregate always holds the verdict
    of the atmospheric stage. *)
Lemma calculateImpact_survives_key p :
  calculateImpact p !! "survivesAtmosphere"
  = Some (VBool (AtmosphereCalculator.survivesAtmosphere
                   (AtmosphereCalculator.calculateAtmosphericEntry
                      (diameter p) (velocity p) (angle p)
                      (getAsteroidDensity (composition p) (density p))
                      (calculateMass (diameter p)
                         (getAsteroidDensity (composition p) (density p)))))).
Proof.
  unfold calculateImpact. cbv zeta.
  set (atm := AtmosphereCalculator.calculateAtmosphericEntry _ _ _ _ _).
  assert (Hbasic : forall b fields,
             fields.*1 = basicKeys ->
             ("survivesAtmosphere", VBool b) ∈ fields ->
             object fields !! "survivesAtmosphere" = Some (VBool b)).
  { intros b fields Hk Hin. apply lookup_assign_in; [|done].
    rewrite Hk. apply NoDup_basicKeys. }
  assert (Hin : ("survivesAtmosphere",
                 VBool (AtmosphereCalculator.survivesAtmosphere atm))
                ∈ basicFields p
                    (getAsteroidDensity (composition p) (density p))
                    (calculateMass (diameter p)
                       (getAsteroidDensity (composition p) (density p)))
                    (calculateKineticEnergy
                       (calculateMass (diameter p)
                          (getAsteroidDensity (composition p) (density p)))
                       (velocity p))
                    (calculateMomentum
                       (calculateMass (diameter p)
                          (getAsteroidDensity (composition p) (density p)))
                       (velocity p))
                    atm).
  { unfold basicFields.
    do 8 apply list_elem_of_further. apply list_elem_of_here. }
  destruct (AtmosphereCalculator.survivesAtmosphere atm) eqn:Hs; cbn [negb].
  - unfold isPhase2Enabled.
    rewrite !lookup_assign_notin
      by (rewrite ?phase1Fields_keys, ?phase2Fields_keys; by_computation).
    by apply Hbasic.
  - rewrite lookup_assign_notin
      by (rewrite airburstFields_keys; by_computation).
    by apply Hbasic.
Qed.




Lemma chelyabinsk_below_survival :
  diameter Presets.chelyabinsk
  < 50 * sqrt (getAsteroidDensity (composition Presets.chelyabinsk)
                 (density Presets.chelyabinsk) / 3000)
    / sqrt (velocity Presets.chelyabinsk / 20).
Proof.
  unfold Presets.chelyabinsk; cbn.
  assert (H1 : 0.9 <= sqrt (2700 / 3000)) by (apply sqrt_lower; lra).
  assert (H2 : sqrt (19 / 20) <= 1) by (apply sqrt_upper; lra).
  assert (H3 : 0 < sqrt (19 / 20)) by (apply sqrt_lt_R0; lra).
  apply div_lt_lower; [lra|]. nra.
Qed.








(** On doubles the threshold can also round up: at the velocity 16 and
    the density 2400 the formula is 50 in the reals and
    50.00000000000001 on doubles, so a body of exactly 50 m does not pass
    the test. *)
Lemma threshold_rounds_up :
  Binary64.calculateSurvivalDiameter 16 2400 = 0x1.9000000000001p+5%float
  /\ Binary64.survivesAtmosphere 50 16 2400 = false.
Proof. split; vm_compute; reflexivity. Qed.

(** Away from the threshold the two evaluations agree: the presets. *)
Lemma presets_on_doubles :
  Binary64.survivesAtmosphere 20 19 2700 = false
  /\ Binary64.survivesAtmosphere 60 27 2700 = true.
Proof. split; vm_compute; reflexivity. Qed.


Lemma tunguska_survival_diameter :
  AtmosphereCalculator.calculateSurvivalDiameter 27 2700 <= 60.
Proof.
  rewrite calculateSurvivalDiameter_formula by lra.
  assert (H1 : sqrt (2700 / 3000) <= 1) by (apply sqrt_upper; lra).
  assert (H2 : 1 <= sqrt (27 / 20)) by (apply sqrt_lower; lra).
  assert (H3 : 0 <= sqrt (2700 / 3000)) by apply sqrt_pos.
  apply div_le_upper; [lra|]. nra.
Qed.

Lemma tunguska_survives :
  calculateImpact Presets.tunguska !! "survivesAtmosphere"
  = Some (VBool true).
Proof.
  rewrite calculateImpact_survives_key.
  unfold Presets.tunguska; cbn [diameter velocity angle composition density
                                  getAsteroidDensity].
  by rewrite calculateAtmosphericEntry_survives
    by apply tunguska_survival_diameter.
Qed.

End Orchestrator.

(** ** The blast stage *)

Section Blast.
Import BlastWaveCalculator.

Lemma sin_degrees_nonneg angle :
  0 <= angle <= 90 -> 0 <= sin (angle * PI / 180).
Proof.
  intros [H0 H90]. pose proof PI_RGT_0 as Hpi.
  apply sin_ge_0; [|apply div_le_upper]; try lra; nra.
Qed.

Lemma sin_degrees_pos angle :
  0 < angle <= 90 -> 0 < sin (angle * PI / 180).
Proof.
  intros [H0 H90]. pose proof PI_RGT_0 as Hpi.
  apply sin_gt_0; [|apply div_lt_upper]; try lra; nra.
Qed.

Lemma calculateOverpressureRadius_antitone energy P1 P2 :
  0 <= energy -> 0 < P1 <= P2 ->
  calculateOverpressureRadius energy P2 <= calculateOverpressureRadius energy P1.
Proof.
  intros HE [HP1 HP12]. pose proof PI_RGT_0 as Hpi.
  unfold calculateOverpressureRadius. cbv zeta.
  apply Rle_max_compat_r. apply Math_pow_le; [lra|].
  assert (H1 : 0 < 4 * PI * P1) by nra.
  assert (H2 : 0 < 4 * PI * P2) by nra.
  split.
  - apply div_le_lower; [done|]. lra.
  - apply div_le_upper; [done|].
    unfold Rdiv. rewrite Rmult_assoc.
    rewrite <- (Rmult_1_r energy) at 1.
    apply Rmult_le_compat_l; [done|].
    apply (Rmult_le_reg_l (4 * PI * P1)); [done|].
    rewrite <- Rmult_assoc, Rinv_r by lra. nra.
Qed.

(** C7.  For an energy [E >= 0] and an angle in [[0, 90]] the blast stage
    returns, for each of the pressures 6895 Pa, 34475 Pa and 68950 Pa, the
    radius [(E * sin(angle * pi / 180) / (4 * pi * P)) ^ (1/3)] clamped to
    [>= 0], and the three radii decrease as the pressure increases. *)
Theorem C7_overpressure_radii (E angle : R) :
  0 <= E -> 0 <= angle <= 90 ->
  let b := calculateBlastWave E angle in
  let r := fun P =>
    Rmax (pow (E * sin (angle * PI / 180) / (4 * PI * P)) (1 / 3)) 0 in
  radius1psi b = r 6895
  /\ radius5psi b = r 34475
  /\ radius10psi b = r 68950
  /\ radius10psi b <= radius5psi b <= radius1psi b.
Proof.
  intros HE Hangle b r.
  assert (Heff : 0 <= calculateEffectiveEnergy E angle).
  { apply Rmult_le_pos; [done|by apply sin_degrees_nonneg]. }
  repeat split; try reflexivity; subst b;
    cbn [calculateBlastWave radius1psi radius5psi radius10psi];
    (apply calculateOverpressureRadius_antitone; [done|]);
    unfold DAMAGE_THRESHOLDS.OVERPRESSURE.LIGHT_DAMAGE,
      DAMAGE_THRESHOLDS.OVERPRESSURE.MODERATE_DAMAGE,
      DAMAGE_THRESHOLDS.OVERPRESSURE.HEAVY_DAMAGE; lra.
Qed.

Lemma C7_witness :
  let b := calculateBlastWave 1e15 45 in
  let r := fun P =>
    Rmax (pow (1e15 * sin (45 * PI / 180) / (4 * PI * P)) (1 / 3)) 0 in
  radius1psi b = r 6895
  /\ radius5psi b = r 34475
  /\ radius10psi b = r 68950
  /\ radius10psi b <= radius5psi b <= radius1psi b.
Proof.
  apply (C7_overpressure_radii 1e15 45); lra.
Defined.

End Blast.

(** ** Roots and rational powers *)

Section Roots.

Lemma PI_bounds : 3 < PI <= 4.
Proof. pose proof PI2_3_2. pose proof PI_4. lra. Qed.

Lemma Rpower_nat_root x (n : nat) :
  (0 < n)%nat -> 0 < x -> Rpower x (/ INR n) ^ n = x.
Proof.
  intros Hn Hx. rewrite <- Rpower_pow by apply exp_pos.
  rewrite Rpower_mult, Rinv_l; [by apply Rpower_1|].
  apply not_0_INR. lia.
Qed.

Lemma Rpower_ratio_pow x (p q : nat) :
  (0 < q)%nat -> 0 < x -> Rpower x (INR p / INR q) ^ q = x ^ p.
Proof.
  intros Hq Hx. rewrite <- Rpower_pow by apply exp_pos.
  rewrite Rpower_mult.
  replace (INR p / INR q * INR q) with (INR p).
  - by apply Rpower_pow.
  - field. apply not_0_INR. lia.
Qed.

Lemma pow_nat_le_inv a b (n : nat) :
  (0 < n)%nat -> 0 <= a -> 0 <= b -> a ^ n <= b ^ n -> a <= b.
Proof.
  intros Hn Ha Hb H. destruct (Rle_or_lt a b) as [|Hlt]; [done|].
  exfalso. assert (b ^ n < a ^ n); [|lra].
  destruct n as [|n]; [lia|].
  clear H Hn. induction n as [|n IH].
  - simpl. lra.
  - change (b * b ^ S n < a * a ^ S n).
    assert (0 <= b ^ S n) by (apply Rfunctions.pow_le; lra).
    nra.
Qed.

(** [x ^ (p/q) <= c] follows from [x ^ p <= c ^ q], a comparison of
    integer powers. *)
Lemma Rpower_ratio_le x c (p q : nat) :
  (0 < q)%nat -> 0 < x -> 0 <= c -> x ^ p <= c ^ q ->
  Rpower x (INR p / INR q) <= c.
Proof.
  intros Hq Hx Hc H. apply (pow_nat_le_inv _ _ q); [done| |done|].
  - left. apply exp_pos.
  - by rewrite Rpower_ratio_pow.
Qed.

Lemma Rpower_ratio_ge x c (p q : nat) :
  (0 < q)%nat -> 0 < x -> 0 <= c -> c ^ q <= x ^ p ->
  c <= Rpower x (INR p / INR q).
Proof.
  intros Hq Hx Hc H. apply (pow_nat_le_inv _ _ q); [done|done| |].
  - left. apply exp_pos.
  - by rewrite Rpower_ratio_pow.
Qed.

End Roots.

(** ** The thermal stage *)

Section Thermal.
Import ThermalCalculator.

Lemma fireball_radius_pos E : 0 < E -> 0 < radius (calculateFireball E).
Proof.
  intros HE. unfold calculateFireball. cbn [radius].
  apply Rmult_lt_0_compat; [|lra].
  apply Math_pow_positive. apply Rdiv_lt_0_compat; lra.
Qed.

Lemma calculateBurnRadius_ge_fireball fb t :
  radius fb <= calculateBurnRadius fb t.
Proof. unfold calculateBurnRadius. apply Rmax_r. Qed.

(** The burn radius is the fireball radius as soon as the fluence at the
    fireball surface does not exceed the threshold. *)
Lemma calculateBurnRadius_floor fb t :
  0 <= radius fb -> 0 < t ->
  totalRadiantEnergy fb / (4 * PI * pow (radius fb) 2) <= t * 10000 ->
  calculateBurnRadius fb t = radius fb.
Proof.
  intros Hr Ht H. unfold calculateBurnRadius. cbv zeta.
  apply Rmax_right.
  apply Rle_trans with (radius fb * 1); [|lra].
  apply Rmult_le_compat_l; [done|].
  apply sqrt_upper; [lra|]. apply div_le_upper; lra.
Qed.

(** The fluence at the surface of the fireball of an impact of at most
    [4.184e9 * 60^5] joules stays below the first-degree threshold. *)
Lemma fireball_fluence_low E :
  0 < E <= 4.184e9 * 60 ^ 5 ->
  totalRadiantEnergy (calculateFireball E)
  / (4 * PI * pow (radius (calculateFireball E)) 2)
  <= 25 * 10000.
Proof.
  intros [HE Hmax]. pose proof PI_bounds as [Hpi _].
  cbn [calculateFireball totalRadiantEnergy radius].
  set (x := E / 4.184e9).
  assert (Hx : 0 < x) by (unfold x; apply Rdiv_lt_0_compat; lra).
  assert (Hx5 : x <= 60 ^ 5) by (unfold x; apply div_le_upper; lra).
  set (y := Rpower x (INR 1 / INR 5)).
  assert (Hy : 0 < y) by apply exp_pos.
  assert (Hy5 : y ^ 5 = x).
  { unfold y. rewrite Rpower_ratio_pow by (done || lia). simpl. lra. }
  assert (Hy60 : y <= 60).
  { apply Rpower_ratio_le; [lia|done|lra|]. simpl. simpl in Hx5. lra. }
  assert (Hp : pow x 0.4 = y * y).
  { rewrite Math_pow_pos_base by done. unfold y. rewrite <- Rpower_plus.
    f_equal. simpl. lra. }
  rewrite Hp, Math_pow_2.
  replace (E * 0.35) with (4.184e9 * x * 0.35) by (unfold x; field; lra).
  rewrite <- Hy5.
  apply div_le_upper.
  - assert (0 < y * y * 180 * (y * y * 180)) by nra. nra.
  - simpl.
    assert (H4 : 0 < y * y * (y * y)) by nra.
    replace (4.184e9 * (y * (y * (y * (y * (y * 1))))) * 0.35)
      with ((y * y * (y * y)) * (4.184e9 * 0.35 * y)) by ring.
    replace (25 * 10000 * (4 * PI * (y * y * 180 * (y * y * 180))))
      with ((y * y * (y * y)) * (25 * 10000 * 4 * 180 * 180 * PI)) by ring.
    apply Rmult_le_compat_l; [lra|]. nra.
Qed.

(** Below that energy the three burn radii collapse onto the fireball
    radius, and the validation of the ordering raises its warning. *)
Lemma thermal_radii_collapse E diameter :
  0 < E <= 4.184e9 * 60 ^ 5 ->
  let t := calculateThermalRadiation E diameter in
  radius1deg t = radius (fireball t)
  /\ radius2deg t = radius (fireball t)
  /\ radius3deg t = radius (fireball t)
  /\ orderingWarning t = true.
Proof.
  intros HE t. pose proof (fireball_fluence_low E HE) as Hfl.
  assert (Hr : 0 <= radius (calculateFireball E))
    by (left; apply fireball_radius_pos; lra).
  assert (H1 : radius1deg t = radius (calculateFireball E)).
  { apply calculateBurnRadius_floor; [done| |];
      unfold DAMAGE_THRESHOLDS.THERMAL.FIRST_DEGREE_BURN; lra. }
  assert (H2 : radius2deg t = radius (calculateFireball E)).
  { apply calculateBurnRadius_floor; [done| |];
      unfold DAMAGE_THRESHOLDS.THERMAL.SECOND_DEGREE_BURN; lra. }
  assert (H3 : radius3deg t = radius (calculateFireball E)).
  { apply calculateBurnRadius_floor; [done| |];
      unfold DAMAGE_THRESHOLDS.THERMAL.THIRD_DEGREE_BURN; lra. }
  repeat split; try done.
  cbn [t calculateThermalRadiation orderingWarning].
  cbn [t calculateThermalRadiation radius1deg radius2deg] in H1, H2.
  apply orb_true_intro. left. apply bool_decide_eq_true_2. lra.
Qed.

End Thermal.

(** ** The surviving branch of the pipeline *)

Section Pipeline.
Import ImpactCalculator.

Lemma survives_entry p :
  survives p ->
  AtmosphereCalculator.survivesAtmosphere (atmosphereResultsOf p) = true.
Proof.
  unfold survives. rewrite calculateImpact_survives_key.
  intros H. by injection H.
Qed.

Lemma survives_diameter p :
  survives p ->
  AtmosphereCalculator.calculateSurvivalDiameter
    (velocity p) (asteroidDensityOf p) <= diameter p.
Proof.
  intros H%survives_entry. unfold atmosphereResultsOf in H.
  destruct (Rle_or_lt (AtmosphereCalculator.calculateSurvivalDiameter
                         (velocity p) (asteroidDensityOf p)) (diameter p))
    as [|Hlt]; [done|].
  by rewrite calculateAtmosphericEntry_airburst in H.
Qed.

Lemma survives_of_diameter p :
  AtmosphereCalculator.calculateSurvivalDiameter
    (velocity p) (asteroidDensityOf p) <= diameter p ->
  survives p.
Proof.
  intros H. unfold survives. rewrite calculateImpact_survives_key.
  fold (asteroidDensityOf p).
  by rewrite calculateAtmosphericEntry_survives.
Qed.

Lemma atmosphereResultsOf_survives p :
  survives p ->
  atmosphereResultsOf p
  = AtmosphereCalculator.mkEntry true 0 0
      (AtmosphereCalculator.calculateFinalVelocity
         (velocity p) (diameter p) (asteroidDensityOf p))
      (AtmosphereCalculator.calculateFinalMass
         (massOf p) (diameter p) (velocity p) (asteroidDensityOf p))
      (pow (AtmosphereCalculator.calculateFinalMass
              (massOf p) (diameter p) (velocity p) (asteroidDensityOf p)
            / asteroidDensityOf p * 6 / PI) (1 / 3)).
Proof.
  intros H%survives_diameter.
  by apply calculateAtmosphericEntry_survives.
Qed.

(** The aggregate on the surviving branch: the basic fields, then the
    phase-1 fields, then the phase-2 fields. *)
Lemma calculateImpact_surviving p :
  survives p ->
  calculateImpact p
  = assign
      (assign
         (object (basicFields p (asteroidDensityOf p) (massOf p)
                    (calculateKineticEnergy (massOf p) (velocity p))
                    (calculateMomentum (massOf p) (velocity p))
                    (atmosphereResultsOf p)))
         (phase1Fields (craterResultsOf p) (blastResultsOf p)
                       (thermalResultsOf p)))
      (phase2Fields (seismicResultsOf p) (tsunamiResultsOf p)).
Proof.
  intros H%survives_entry. unfold calculateImpact. cbv zeta.
  fold (asteroidDensityOf p). fold (massOf p). fold (atmosphereResultsOf p).
  by rewrite H.
Qed.

Lemma lookup_phase1 p k v :
  survives p ->
  (k, v) ∈ phase1Fields (craterResultsOf p) (blastResultsOf p)
                        (thermalResultsOf p) ->
  calculateImpact p !! k = Some v.
Proof.
  intros Hs Hin. rewrite calculateImpact_surviving by done.
  assert (Hk : k ∈ phase1Keys).
  { rewrite <- (phase1Fields_keys (craterResultsOf p) (blastResultsOf p)
                                  (thermalResultsOf p)).
    apply list_elem_of_fmap. by exists (k, v). }
  rewrite lookup_assign_notin.
  - apply lookup_assign_in; [|done].
    rewrite phase1Fields_keys. apply NoDup_phase1Keys.
  - rewrite phase2Fields_keys.
    pose proof phase1_keys_fresh as Hf. rewrite Forall_forall in Hf.
    by apply Hf.
Qed.

Lemma lookup_phase2 p k v :
  survives p ->
  (k, v) ∈ phase2Fields (seismicResultsOf p) (tsunamiResultsOf p) ->
  calculateImpact p !! k = Some v.
Proof.
  intros Hs Hin. rewrite calculateImpact_surviving by done.
  apply lookup_assign_in; [|done].
  rewrite phase2Fields_keys. apply NoDup_phase2Keys.
Qed.

Lemma asteroidDensityOf_pos p : validParameters p -> 0 < asteroidDensityOf p.
Proof.
  intros (_ & _ & _ & Hc & _). unfold asteroidDensityOf, getAsteroidDensity.
  destruct (composition p); try lra.
  destruct Hc as (d & -> & Hd); [done|].
  rewrite decide_False by lra. done.
Qed.

Lemma calculateMass_pos d rho : 0 < d -> 0 < rho -> 0 < calculateMass d rho.
Proof.
  intros Hd Hrho. pose proof PI_bounds. unfold calculateMass. cbv zeta.
  rewrite Math_pow_3.
  assert (0 < d / 2 * (d / 2)) by nra.
  assert (0 < d / 2 * (d / 2) * (d / 2)) by nra.
  assert (0 < 4 / 3 * PI * (d / 2 * (d / 2) * (d / 2))) by nra.
  nra.
Qed.

Lemma calculateMassLossRatio_bounds d v rho :
  0 < d -> 0 < v -> 0 < rho ->
  0 < AtmosphereCalculator.calculateMassLossRatio d v rho <= 0.9.
Proof.
  intros Hd Hv Hrho. unfold AtmosphereCalculator.calculateMassLossRatio.
  cbv zeta. split; [|apply Rmin_r].
  apply Rmin_glb_lt; [|lra].
  rewrite Math_pow_2.
  assert (0 < 6 / d) by (apply Rdiv_lt_0_compat; lra).
  assert (0 < 3000 / rho) by (apply Rdiv_lt_0_compat; lra).
  assert (0 < v / 20 * (v / 20)) by nra.
  assert (0 < 0.1 * (6 / d) * (v / 20 * (v / 20))) by nra.
  nra.
Qed.

Lemma calculateFinalMass_bounds m d v rho :
  0 < m -> 0 < d -> 0 < v -> 0 < rho ->
  0 < AtmosphereCalculator.calculateFinalMass m d v rho <= m.
Proof.
  intros Hm Hd Hv Hrho.
  pose proof (calculateMassLossRatio_bounds d v rho Hd Hv Hrho).
  unfold AtmosphereCalculator.calculateFinalMass. cbv zeta. split; nra.
Qed.

Lemma calculateFinalVelocity_bounds d v rho :
  0 < d -> 0 < v -> 0 < rho ->
  0 < AtmosphereCalculator.calculateFinalVelocity v d rho <= v.
Proof.
  intros Hd Hv Hrho.
  pose proof (calculateMassLossRatio_bounds d v rho Hd Hv Hrho).
  unfold AtmosphereCalculator.calculateFinalVelocity. cbv zeta.
  rewrite Rmax_left by lra. split; nra.
Qed.

Lemma finalEnergyOf_bounds p :
  validParameters p -> survives p ->
  0 < finalEnergyOf p <= calculateKineticEnergy (massOf p) (velocity p).
Proof.
  intros Hvalid Hs.
  pose proof (asteroidDensityOf_pos p Hvalid) as Hrho.
  destruct Hvalid as (Hd & Hv & _).
  pose proof (calculateMass_pos _ _ Hd Hrho) as Hm. fold (massOf p) in Hm.
  unfold finalEnergyOf. rewrite atmosphereResultsOf_survives by done.
  cbn [AtmosphereCalculator.finalMass AtmosphereCalculator.finalVelocity].
  pose proof (calculateFinalMass_bounds _ _ _ _ Hm Hd Hv Hrho) as Hfm.
  pose proof (calculateFinalVelocity_bounds _ _ _ Hd Hv Hrho) as Hfv.
  unfold calculateKineticEnergy. cbv zeta. rewrite !Math_pow_2.
  set (fm := AtmosphereCalculator.calculateFinalMass _ _ _ _) in *.
  set (fv := AtmosphereCalculator.calculateFinalVelocity _ _ _) in *.
  assert (0 < fv * 1000 * (fv * 1000)) by nra.
  assert (fv * 1000 * (fv * 1000) <= velocity p * 1000 * (velocity p * 1000))
    by nra.
  split; [nra|].
  apply Rle_trans with (0.5 * massOf p * (fv * 1000 * (fv * 1000))); nra.
Qed.

End Pipeline.

(** ** The phase-2 stages in the aggregate result *)

Section PhaseTwo.
Import ImpactCalculator.

(** C8.  The phase-2 check is the constant [true], so whenever
    [calculateImpact] reports [survivesAtmosphere = true] the seismic and
    the tsunami stage have run, on the final energy, the impact location
    and the crater diameter, and each of the fourteen phase-2 keys holds
    the field of the stage result that the source assigns to it. *)
Theorem C8_phase2_always_present (p : ImpactParameters) :
  calculateImpact p !! "survivesAtmosphere" = Some (VBool true) ->
  let res := calculateImpact p in
  let location := locationOf (latitude p) (longitude p) in
  let craterDiameter := CraterCalculator.diameter (craterResultsOf p) in
  let seismicResults :=
    SeismicCalculator.calculateSeismicEffects
      (finalEnergyOf p) location craterDiameter in
  let tsunamiResults :=
    TsunamiCalculator.calculateTsunami
      (finalEnergyOf p) location craterDiameter in
  isPhase2Enabled = true
  /\ res !! "seismicMagnitude"
     = Some (num (SeismicCalculator.magnitude seismicResults))
  /\ res !! "seismicSignificant"
     = Some (VBool (SeismicCalculator.significant seismicResults))
  /\ res !! "seismicRadius"
     = Some (VNum (SeismicCalculator.effectRadius seismicResults))
  /\ res !! "seismicZones"
     = Some (VZones (SeismicCalculator.zones seismicResults))
  /\ res !! "groundMotion"
     = Some (orUndefined VGroundMotion
               (SeismicCalculator.groundMotion seismicResults))
  /\ res !! "buildingDamage"
     = Some (orUndefined VDamage
               (SeismicCalculator.damageAssessment seismicResults))
  /\ res !! "seismicDuration"
     = Some (orUndefined num (SeismicCalculator.duration seismicResults))
  /\ res !! "tsunamiGenerated"
     = Some (VBool (TsunamiCalculator.generated tsunamiResults))
  /\ res !! "tsunamiMaxHeight"
     = Some (VNum (TsunamiCalculator.maxHeight tsunamiResults))
  /\ res !! "tsunamiOceanImpact"
     = Some (match TsunamiCalculator.oceanImpact tsunamiResults with
             | Some o => VOceanImpact o
             | None => VNull
             end)
  /\ res !! "tsunamiPropagation"
     = Some (orUndefined VPropagation
               (TsunamiCalculator.propagation tsunamiResults))
  /\ res !! "tsunamiCoastalEffects"
     = Some (VCoastalEffects
               (TsunamiCalculator.coastalEffects tsunamiResults))
  /\ res !! "tsunamiVisualization"
     = Some (orUndefined VVisualization
               (TsunamiCalculator.visualization tsunamiResults))
  /\ res !! "tsunamiArrivalTimes"
     = Some (orUndefined VArrivalTimes
               (TsunamiCalculator.arrivalTimes tsunamiResults)).
Proof.
  intros Hs res location craterDiameter seismicResults tsunamiResults.
  split; [reflexivity|].
  assert (Hfield : forall k v,
             (k, v) ∈ phase2Fields seismicResults tsunamiResults ->
             res !! k = Some v).
  { intros k v. exact (lookup_phase2 p k v Hs). }
  unfold phase2Fields in Hfield.
  repeat (split;
          [apply Hfield;
           repeat (first [apply list_elem_of_here
                         |apply list_elem_of_further])|]).
  apply Hfield.
  repeat (first [apply list_elem_of_here|apply list_elem_of_further]).
Qed.

Lemma C8_witness :
  let p := Presets.tunguska in
  let res := calculateImpact p in
  let location := locationOf (latitude p) (longitude p) in
  let craterDiameter := CraterCalculator.diameter (craterResultsOf p) in
  let seismicResults :=
    SeismicCalculator.calculateSeismicEffects
      (finalEnergyOf p) location craterDiameter in
  let tsunamiResults :=
    TsunamiCalculator.calculateTsunami
      (finalEnergyOf p) location craterDiameter in
  isPhase2Enabled = true
  /\ res !! "seismicMagnitude"
     = Some (num (SeismicCalculator.magnitude seismicResults))
  /\ res !! "seismicSignificant"
     = Some (VBool (SeismicCalculator.significant seismicResults))
  /\ res !! "seismicRadius"
     = Some (VNum (SeismicCalculator.effectRadius seismicResults))
  /\ res !! "seismicZones"
     = Some (VZones (SeismicCalculator.zones seismicResults))
  /\ res !! "groundMotion"
     = Some (orUndefined VGroundMotion
               (SeismicCalculator.groundMotion seismicResults))
  /\ res !! "buildingDamage"
     = Some (orUndefined VDamage
               (SeismicCalculator.damageAssessment seismicResults))
  /\ res !! "seismicDuration"
     = Some (orUndefined num (SeismicCalculator.duration seismicResults))
  /\ res !! "tsunamiGenerated"
     = Some (VBool (TsunamiCalculator.generated tsunamiResults))
  /\ res !! "tsunamiMaxHeight"
     = Some (VNum (TsunamiCalculator.maxHeight tsunamiResults))
  /\ res !! "tsunamiOceanImpact"
     = Some (match TsunamiCalculator.oceanImpact tsunamiResults with
             | Some o => VOceanImpact o
             | None => VNull
             end)
  /\ res !! "tsunamiPropagation"
     = Some (orUndefined VPropagation
               (TsunamiCalculator.propagation tsunamiResults))
  /\ res !! "tsunamiCoastalEffects"
     = Some (VCoastalEffects
               (TsunamiCalculator.coastalEffects tsunamiResults))
  /\ res !! "tsunamiVisualization"
     = Some (orUndefined VVisualization
               (TsunamiCalculator.visualization tsunamiResults))
  /\ res !! "tsunamiArrivalTimes"
     = Some (orUndefined VArrivalTimes
               (TsunamiCalculator.arrivalTimes tsunamiResults)).
Proof.
  exact (C8_phase2_always_present Presets.tunguska tunguska_survives).
Defined.

End PhaseTwo.

(** ** Grazing impacts and the thermal ordering *)

Section AngleAndThermal.
Import ImpactCalculator.

Ltac solve_elem :=
  repeat first [apply list_elem_of_here | apply list_elem_of_further].

Lemma sin_zero_degrees : sin (0 * PI / 180) = 0.
Proof. replace (0 * PI / 180) with 0 by lra. apply sin_0. Qed.

Lemma calculateOverpressureRadius_zero P :
  BlastWaveCalculator.calculateOverpressureRadius 0 P = 0.
Proof.
  unfold BlastWaveCalculator.calculateOverpressureRadius. cbv zeta.
  replace (0 / (4 * PI * P)) with 0 by (unfold Rdiv; lra).
  rewrite Math_pow_zero_base by lra. apply Rmax_left. lra.
Qed.

Lemma calculateCraterDiameter_zero v m :
  CraterCalculator.calculateCraterDiameter 0 v m = 0.
Proof.
  unfold CraterCalculator.calculateCraterDiameter. cbv zeta.
  replace (0 / (CraterCalculator.targetDensity * CraterCalculator.gravity))
    with 0 by (unfold Rdiv; lra).
  rewrite Math_pow_zero_base by lra. lra.
Qed.

Lemma calculateCraterDepth_zero : CraterCalculator.calculateCraterDepth 0 = 0.
Proof.
  unfold CraterCalculator.calculateCraterDepth. cbv zeta.
  rewrite decide_True by lra. lra.
Qed.

(** At an angle of 0 degrees the crater and every overpressure radius
    vanish. *)
Lemma grazing_crater_and_blast (p : ImpactParameters) :
  angle p = 0 -> survives p ->
  let res := calculateImpact p in
  res !! "craterDiameter" = Some (num 0)
  /\ res !! "craterDepth" = Some (num 0)
  /\ res !! "blastRadius1psi" = Some (num 0)
  /\ res !! "blastRadius5psi" = Some (num 0)
  /\ res !! "blastRadius10psi" = Some (num 0)
  /\ (exists radii,
        res !! "overpressureRadii" = Some (VRadii radii)
        /\ length radii = 5%nat
        /\ Forall (fun e => BlastWaveCalculator.radius e = 0) radii).
Proof.
  intros Hangle Hs res. subst res.
  assert (Hcrater : CraterCalculator.diameter (craterResultsOf p) = 0).
  { unfold craterResultsOf, CraterCalculator.calculateCrater. cbv zeta.
    cbn [CraterCalculator.diameter].
    rewrite Hangle, sin_zero_degrees, Rmult_0_r.
    apply calculateCraterDiameter_zero. }
  assert (Hdepth : CraterCalculator.depth (craterResultsOf p) = 0).
  { unfold craterResultsOf, CraterCalculator.calculateCrater in *.
    cbv zeta in *. cbn [CraterCalculator.diameter CraterCalculator.depth] in *.
    rewrite Hcrater. apply calculateCraterDepth_zero. }
  assert (Heff : BlastWaveCalculator.calculateEffectiveEnergy
                   (finalEnergyOf p) (angle p) = 0).
  { unfold BlastWaveCalculator.calculateEffectiveEnergy. cbv zeta.
    rewrite Hangle, sin_zero_degrees. lra. }
  split; [|split; [|split; [|split; [|split]]]].
  - rewrite <- Hcrater. apply lookup_phase1; [done|solve_elem].
  - rewrite <- Hdepth. apply lookup_phase1; [done|solve_elem].
  - rewrite <- (calculateOverpressureRadius_zero
                  DAMAGE_THRESHOLDS.OVERPRESSURE.LIGHT_DAMAGE), <- Heff.
    apply lookup_phase1; [done|solve_elem].
  - rewrite <- (calculateOverpressureRadius_zero
                  DAMAGE_THRESHOLDS.OVERPRESSURE.MODERATE_DAMAGE), <- Heff.
    apply lookup_phase1; [done|solve_elem].
  - rewrite <- (calculateOverpressureRadius_zero
                  DAMAGE_THRESHOLDS.OVERPRESSURE.HEAVY_DAMAGE), <- Heff.
    apply lookup_phase1; [done|solve_elem].
  - eexists. split; [apply lookup_phase1; [done|solve_elem]|].
    unfold blastResultsOf, BlastWaveCalculator.calculateBlastWave.
    cbv zeta. cbn [BlastWaveCalculator.overpressureRadii].
    rewrite Heff. unfold BlastWaveCalculator.calculateMultipleRadii.
    cbv zeta. cbn [map BlastWaveCalculator.radius].
    split; [reflexivity|].
    repeat constructor; cbn [BlastWaveCalculator.radius];
      apply calculateOverpressureRadius_zero.
Qed.

(** The fireball and the burn radii of a surviving impact are positive
    whatever the angle. *)
Lemma thermal_radii_positive (p : ImpactParameters) :
  validParameters p -> survives p ->
  let res := calculateImpact p in
  exists fb r1 r2 r3,
    res !! "fireball" = Some (VFireball fb)
    /\ res !! "thermalRadius1deg" = Some (num r1)
    /\ res !! "thermalRadius2deg" = Some (num r2)
    /\ res !! "thermalRadius3deg" = Some (num r3)
    /\ 0 < ThermalCalculator.radius fb
    /\ 0 < r1 /\ 0 < r2 /\ 0 < r3.
Proof.
  intros Hvalid Hs res. subst res.
  pose proof (finalEnergyOf_bounds p Hvalid Hs) as [HE _].
  pose proof (fireball_radius_pos _ HE) as Hfb.
  exists (ThermalCalculator.fireball (thermalResultsOf p)),
    (ThermalCalculator.radius1deg (thermalResultsOf p)),
    (ThermalCalculator.radius2deg (thermalResultsOf p)),
    (ThermalCalculator.radius3deg (thermalResultsOf p)).
  split; [apply lookup_phase1; [done|solve_elem]|].
  split; [apply lookup_phase1; [done|solve_elem]|].
  split; [apply lookup_phase1; [done|solve_elem]|].
  split; [apply lookup_phase1; [done|solve_elem]|].
  split; [done|].
  repeat split; (eapply Rlt_le_trans; [exact Hfb|]);
    apply calculateBurnRadius_ge_fireball.
Qed.

(** C10.  A surviving impactor that arrives at an angle of exactly 0
    degrees digs no crater and raises no blast wave: the crater diameter,
    the crater depth and every overpressure radius are 0.  The thermal
    stage does not read the angle, and the fireball radius and the three
    burn radii are strictly positive. *)
Theorem C10_grazing_impact (p : ImpactParameters) :
  validParameters p -> angle p = 0 -> survives p ->
  let res := calculateImpact p in
  res !! "craterDiameter" = Some (num 0)
  /\ res !! "craterDepth" = Some (num 0)
  /\ res !! "blastRadius1psi" = Some (num 0)
  /\ res !! "blastRadius5psi" = Some (num 0)
  /\ res !! "blastRadius10psi" = Some (num 0)
  /\ (exists radii,
        res !! "overpressureRadii" = Some (VRadii radii)
        /\ length radii = 5%nat
        /\ Forall (fun e => BlastWaveCalculator.radius e = 0) radii)
  /\ (exists fb r1 r2 r3,
        res !! "fireball" = Some (VFireball fb)
        /\ res !! "thermalRadius1deg" = Some (num r1)
        /\ res !! "thermalRadius2deg" = Some (num r2)
        /\ res !! "thermalRadius3deg" = Some (num r3)
        /\ 0 < ThermalCalculator.radius fb
        /\ 0 < r1 /\ 0 < r2 /\ 0 < r3).
Proof.
  intros Hvalid Hangle Hs res. subst res.
  destruct (grazing_crater_and_blast p Hangle Hs)
    as (H1 & H2 & H3 & H4 & H5 & H6).
  pose proof (thermal_radii_positive p Hvalid Hs) as H7.
  by repeat (split; [done|]).
Qed.

Lemma grazing_valid : validParameters Presets.grazing.
Proof.
  unfold validParameters, Presets.grazing; cbn.
  repeat split; try lra; try discriminate.
  - eexists; split; [reflexivity|lra].
  - eexists; split; [reflexivity|lra].
Qed.

Lemma grazing_survives : survives Presets.grazing.
Proof. apply survives_of_diameter, tunguska_survival_diameter. Qed.

Lemma C10_witness :
  let res := calculateImpact Presets.grazing in
  res !! "craterDiameter" = Some (num 0)
  /\ res !! "craterDepth" = Some (num 0)
  /\ res !! "blastRadius1psi" = Some (num 0)
  /\ res !! "blastRadius5psi" = Some (num 0)
  /\ res !! "blastRadius10psi" = Some (num 0)
  /\ (exists radii,
        res !! "overpressureRadii" = Some (VRadii radii)
        /\ length radii = 5%nat
        /\ Forall (fun e => BlastWaveCalculator.radius e = 0) radii)
  /\ (exists fb r1 r2 r3,
        res !! "fireball" = Some (VFireball fb)
        /\ res !! "thermalRadius1deg" = Some (num r1)
        /\ res !! "thermalRadius2deg" = Some (num r2)
        /\ res !! "thermalRadius3deg" = Some (num r3)
        /\ 0 < ThermalCalculator.radius fb
        /\ 0 < r1 /\ 0 < r2 /\ 0 < r3).
Proof.
  exact (C10_grazing_impact Presets.grazing grazing_valid eq_refl
           grazing_survives).
Defined.

Lemma tunguska_valid : validParameters Presets.tunguska.
Proof.
  unfold validParameters, Presets.tunguska; cbn.
  repeat split; try lra; try discriminate.
  - eexists; split; [reflexivity|lra].
  - eexists; split; [reflexivity|lra].
Qed.

Lemma tunguska_energy_bounds :
  0 < finalEnergyOf Presets.tunguska <= 4.184e9 * 60 ^ 5.
Proof.
  pose proof (finalEnergyOf_bounds _ tunguska_valid tunguska_survives)
    as [H0 Hle].
  split; [done|]. eapply Rle_trans; [exact Hle|].
  unfold massOf, asteroidDensityOf, calculateKineticEnergy, calculateMass,
    Presets.tunguska.
  cbn [diameter velocity composition density getAsteroidDensity].
  rewrite Math_pow_2, Math_pow_3. pose proof PI_bounds. simpl. nra.
Qed.

(** C3, at the Tunguska preset.  The body reaches the ground, and the
    first-, second- and third-degree burn radii of the result are one and
    the same number, the fireball radius; the ordering that the thermal
    stage itself validates, 1st > 2nd > 3rd, does not hold, and the stage
    raises its warning. *)
Theorem C3_tunguska_burn_radii_coincide :
  let res := calculateImpact Presets.tunguska in
  survives Presets.tunguska
  /\ exists r,
       res !! "thermalRadius1deg" = Some (num r)
       /\ res !! "thermalRadius2deg" = Some (num r)
       /\ res !! "thermalRadius3deg" = Some (num r)
       /\ 0 < r
       /\ ThermalCalculator.orderingWarning (thermalResultsOf Presets.tunguska)
          = true.
Proof.
  intros res. subst res. split; [apply tunguska_survives|].
  pose proof tunguska_energy_bounds as HE.
  destruct (thermal_radii_collapse
              (finalEnergyOf Presets.tunguska)
              (AtmosphereCalculator.finalDiameter
                 (atmosphereResultsOf Presets.tunguska)) HE)
    as (H1 & H2 & H3 & Hw).
  fold (thermalResultsOf Presets.tunguska) in H1, H2, H3, Hw.
  exists (ThermalCalculator.radius
            (ThermalCalculator.fireball (thermalResultsOf Presets.tunguska))).
  repeat split.
  - rewrite <- H1. apply lookup_phase1; [apply tunguska_survives|solve_elem].
  - rewrite <- H2. apply lookup_phase1; [apply tunguska_survives|solve_elem].
  - rewrite <- H3. apply lookup_phase1; [apply tunguska_survives|solve_elem].
  - apply fireball_radius_pos. apply HE.
  - exact Hw.
Qed.

End AngleAndThermal.

(** ** The seismic stage *)

Section Seismic.
Import SeismicCalculator.

Lemma locationOf_valid lat lon :
  -90 <= lat <= 90 -> -180 <= lon <= 180 ->
  ImpactCalculator.validLocation
    (ImpactCalculator.locationOf (Some lat) (Some lon)).
Proof.
  intros Hlat Hlon. exists lat, lon. unfold ImpactCalculator.locationOf.
  split; [|split; [|done]].
  - rewrite lookup_insert_ne by done. apply lookup_singleton_eq.
  - apply lookup_insert_eq.
Qed.

Lemma calculateSeismicEffects_valid E loc cd lat lon :
  loc !! "latitude" = Some lat -> loc !! "longitude" = Some lon ->
  calculateSeismicEffects E loc cd
  = if decide (calculateMagnitude E < 3.0) then
      mkSeismic (calculateMagnitude E) false (Finite 0) [] (Some 0)
                None None None
    else
      let zs := calculateIntensityZones (calculateMagnitude E) loc lat lon cd in
      mkSeismic (calculateMagnitude E) true (max_spread (map radius zs)) zs
                None
                (Some (calculateGroundMotionParameters (calculateMagnitude E) zs))
                (Some (assessBuildingDamage zs))
                (Some (calculateShakingDuration (calculateMagnitude E))).
Proof.
  intros Hlat Hlon. unfold calculateSeismicEffects. by rewrite Hlat, Hlon.
Qed.

Lemma calculateMagnitude_range E : 0 <= calculateMagnitude E <= 10.
Proof.
  unfold calculateMagnitude. cbv zeta. split; [apply Rmax_l|].
  apply Rmax_lub; [lra|apply Rmin_r].
Qed.

(** C5.  For an energy [E > 0] and a valid location the seismic stage
    computes the magnitude [(log10(0.01 * E) - 9.1) / 1.5] clamped to
    [[0, 10]]; when that magnitude is strictly below 3.0 the result is the
    no-effect one, [significant = false] with no zone. *)
Theorem C5_magnitude_and_significance_floor (E : R) (loc : gmap string R)
    (craterDiameter : R) :
  0 < E -> ImpactCalculator.validLocation loc ->
  let res := calculateSeismicEffects E loc craterDiameter in
  magnitude res = Rmax 0 (Rmin ((log10 (0.01 * E) - 9.1) / 1.5) 10)
  /\ (magnitude res < 3.0 -> significant res = false /\ zones res = [])
  /\ (3.0 <= magnitude res -> significant res = true).
Proof.
  intros HE (lat & lon & Hlat & Hlon & _) res. subst res.
  rewrite (calculateSeismicEffects_valid _ _ _ _ _ Hlat Hlon).
  assert (Hm : calculateMagnitude E
               = Rmax 0 (Rmin ((log10 (0.01 * E) - 9.1) / 1.5) 10)).
  { unfold calculateMagnitude. cbv zeta. by rewrite (Rmult_comm E). }
  case_decide as Hlow; cbv zeta; cbn [magnitude significant zones].
  - split; [done|]. split; [done|intros; lra].
  - split; [done|]. split; [intros; lra|done].
Qed.

Lemma C5_witness :
  let res :=
    calculateSeismicEffects 1
      (ImpactCalculator.locationOf (Some 0) (Some 0)) 0 in
  magnitude res = Rmax 0 (Rmin ((log10 (0.01 * 1) - 9.1) / 1.5) 10)
  /\ (magnitude res < 3.0 -> significant res = false /\ zones res = [])
  /\ (3.0 <= magnitude res -> significant res = true).
Proof.
  apply (C5_magnitude_and_significance_floor 1); [lra|].
  apply locationOf_valid; lra.
Defined.

(** *** The loop that lists the intensity levels *)

(** More fuel than [Z.to_nat i] is never consumed. *)
Lemma levelsLoop_fuel_irrelevant fuel1 fuel2 base i cd :
  (Z.to_nat i <= fuel1)%nat -> (Z.to_nat i <= fuel2)%nat ->
  levelsLoop fuel1 base i cd = levelsLoop fuel2 base i cd.
Proof.
  revert fuel2 i. induction fuel1 as [|fuel1 IH]; intros fuel2 i H1 H2.
  - destruct fuel2 as [|fuel2]; [done|]. cbn.
    rewrite decide_False by lia. done.
  - destruct fuel2 as [|fuel2]; cbn.
    + rewrite decide_False by lia. done.
    + case_decide; [|done]. f_equal. apply IH; lia.
Qed.

(** The loop is the recursion [i, i - 2, ...] down to 3. *)
Lemma intensityLevelsOf_unfold base cd :
  intensityLevelsOf base cd
  = if decide (3 <= base)%Z then
      mkLevel base (getIntensityDescription base) (IZR base / 12)
              (cd * pow 2 (IZR (base - base) / 2))
      :: levelsLoop (Z.to_nat base) base (base - 2) cd
    else [].
Proof.
  unfold intensityLevelsOf.
  rewrite (levelsLoop_fuel_irrelevant
             (Z.to_nat base) (S (Z.to_nat base)) base base cd) by lia.
  cbn [levelsLoop]. by case_decide.
Qed.

Lemma levelsLoop_bound fuel base i cd :
  Forall (fun l => (3 <= level_intensity l <= i)%Z
                   /\ level_baseRadius l
                      = cd * pow 2 (IZR (base - level_intensity l) / 2))
         (levelsLoop fuel base i cd).
Proof.
  revert i. induction fuel as [|fuel IH]; intros i; cbn; [constructor|].
  case_decide; [|constructor].
  constructor; [cbn; split; [lia|done]|].
  eapply Forall_impl; [apply IH|]. cbn. intros l [Hl ?]. split; [lia|done].
Qed.

Lemma levelsLoop_decreasing fuel base i cd :
  StronglySorted (fun a b => (level_intensity b < level_intensity a)%Z)
                 (levelsLoop fuel base i cd).
Proof.
  revert i. induction fuel as [|fuel IH]; intros i; cbn; [constructor|].
  case_decide; [|constructor].
  constructor; [apply IH|].
  eapply Forall_impl; [apply levelsLoop_bound|]. cbn. intros l [Hl _]. lia.
Qed.

(** *** The zones before the sort *)

Lemma zonesLoop_from_levels M loc lat lon levels index :
  Forall (fun z => exists l, l ∈ levels
                    /\ intensity z = level_intensity l
                    /\ radius z = calculateIntensityRadius M (intensity z) loc
                    /\ Rmax (level_baseRadius l) 500 < radius z)
         (zonesLoop M loc lat lon levels index).
Proof.
  revert index. induction levels as [|l levels IH]; intros index; cbn;
    [constructor|].
  assert (Hrest : Forall (fun z => exists l0, l0 ∈ l :: levels
                    /\ intensity z = level_intensity l0
                    /\ radius z = calculateIntensityRadius M (intensity z) loc
                    /\ Rmax (level_baseRadius l0) 500 < radius z)
                   (zonesLoop M loc lat lon levels (S index))).
  { eapply Forall_impl; [apply IH|]. cbn. intros z (l0 & ? & ?).
    exists l0. split; [by apply list_elem_of_further|done]. }
  case_decide; [|done].
  constructor; [|done]. exists l. cbn.
  split; [apply list_elem_of_here|done].
Qed.

Lemma zonesLoop_decreasing M loc lat lon levels index :
  StronglySorted (fun a b => (level_intensity b < level_intensity a)%Z) levels ->
  StronglySorted (fun a b => (intensity b < intensity a)%Z)
                 (zonesLoop M loc lat lon levels index).
Proof.
  revert index. induction levels as [|l levels IH]; intros index Hs; cbn;
    [constructor|].
  apply StronglySorted_inv in Hs as [Hs Hl].
  case_decide; [|by apply IH].
  constructor; [by apply IH|].
  eapply Forall_impl; [apply zonesLoop_from_levels|].
  cbn. intros z (l0 & Hin & -> & _).
  rewrite Forall_forall in Hl. by apply Hl.
Qed.

Lemma zonesLoop_complete M loc lat lon levels index l :
  l ∈ levels ->
  Rmax (level_baseRadius l) 500
  < calculateIntensityRadius M (level_intensity l) loc ->
  exists z, z ∈ zonesLoop M loc lat lon levels index
            /\ intensity z = level_intensity l
            /\ radius z = calculateIntensityRadius M (level_intensity l) loc.
Proof.
  revert index. induction levels as [|l0 levels IH]; intros index Hin Hr.
  - by apply elem_of_nil in Hin.
  - cbn. apply elem_of_cons in Hin as [->|Hin].
    + rewrite decide_True by done. eexists. split; [apply list_elem_of_here|].
      done.
    + destruct (IH (S index) Hin Hr) as (z & Hz & ?).
      exists z. split; [|done].
      case_decide; [by apply list_elem_of_further|done].
Qed.

(** *** The attenuation radius *)

Lemma calculateIntensityRadius_eq M i loc :
  calculateIntensityRadius M i loc
  = Rpower 10 ((2.0 + 1.5 * M + 0.0 - IZR i) / 3.5) * 1000.
Proof.
  unfold calculateIntensityRadius, getSiteAmplification. cbv zeta.
  rewrite Math_pow_pos_base by lra. apply Rmax_left.
  pose proof (exp_pos ((2.0 + 1.5 * M + 0.0 - IZR i) / 3.5 * ln 10)).
  unfold Rpower. lra.
Qed.

(** The radius strictly shrinks as the intensity grows. *)
Lemma calculateIntensityRadius_decreasing M i j loc :
  (i < j)%Z ->
  calculateIntensityRadius M j loc < calculateIntensityRadius M i loc.
Proof.
  intros Hij. rewrite !calculateIntensityRadius_eq.
  apply Rmult_lt_compat_r; [lra|].
  apply Rpower_lt; [lra|]. apply IZR_lt in Hij. lra.
Qed.

#[local] Instance largestFirst_transitive : Transitive largestFirst.
Proof. intros a b c. unfold largestFirst. lra. Qed.

#[local] Instance largestFirst_total : Total largestFirst.
Proof. intros a b. unfold largestFirst. lra. Qed.

Lemma StronglySorted_strict_NoDup (l : list IntensityZone) :
  StronglySorted (fun a b => (intensity b < intensity a)%Z) l ->
  NoDup (intensity <$> l).
Proof.
  induction 1 as [|a l Hs IH Ha]; cbn; constructor; [|done].
  intros (b & Heq & Hb)%list_elem_of_fmap.
  rewrite Forall_forall in Ha. specialize (Ha b Hb). lia.
Qed.

Lemma calculateIntensityZones_order M loc lat lon cd :
  StronglySorted outward (calculateIntensityZones M loc lat lon cd).
Proof.
  unfold calculateIntensityZones. cbv zeta.
  set (pre := zonesLoop M loc lat lon _ 0).
  assert (Hradius : Forall (fun z => radius z
                              = calculateIntensityRadius M (intensity z) loc)
                           (merge_sort largestFirst pre)).
  { rewrite merge_sort_Permutation. eapply Forall_impl;
      [apply zonesLoop_from_levels|]. cbn. by intros z (l & _ & _ & ? & _). }
  assert (Hnodup : NoDup (intensity <$> merge_sort largestFirst pre)).
  { rewrite merge_sort_Permutation. apply StronglySorted_strict_NoDup.
    apply zonesLoop_decreasing. apply levelsLoop_decreasing. }
  pose proof (StronglySorted_merge_sort largestFirst pre) as Hsorted.
  induction Hsorted as [|a l Hs IH Ha]; [constructor|].
  apply Forall_cons in Hradius as [Hra Hrl].
  cbn in Hnodup. apply NoDup_cons in Hnodup as [Hnotin Hnodup].
  constructor; [by apply IH|].
  rewrite Forall_forall in Ha, Hrl. apply Forall_forall. intros b Hb.
  specialize (Ha b Hb). specialize (Hrl b Hb). unfold largestFirst in Ha.
  assert (Hne : intensity a <> intensity b).
  { intros Heq. apply Hnotin. apply list_elem_of_fmap. by exists b. }
  destruct (Z.lt_total (intensity a) (intensity b)) as [Hlt|[Heq|Hgt]];
    [|done|].
  - split; [|done]. rewrite Hra, Hrl.
    by apply calculateIntensityRadius_decreasing.
  - pose proof (calculateIntensityRadius_decreasing M _ _ loc Hgt).
    lra.
Qed.

End Seismic.

(** ** The order of the intensity zones *)

Section ZoneOrder.
Import SeismicCalculator.

(** C2, amended.  The zones of every seismic result are ordered by
    strictly descending radius, and along that order the intensity
    strictly increases: of two zones of one event, the one with the lower
    intensity has the strictly larger radius. *)
Theorem C2_zones_outward_order (E : R) (loc : gmap string R)
    (craterDiameter : R) :
  StronglySorted outward (zones (calculateSeismicEffects E loc craterDiameter)).
Proof.
  unfold calculateSeismicEffects.
  destruct (loc !! "latitude") as [lat|]; [|constructor].
  destruct (loc !! "longitude") as [lon|]; [|constructor].
  cbv zeta. case_decide; cbn [zones]; [constructor|].
  apply calculateIntensityZones_order.
Qed.

Lemma ln_10_pos : 0 < ln 10.
Proof. rewrite <- ln_1. apply ln_increasing; lra. Qed.

Lemma log10_pow10 (n : nat) : log10 (10 ^ n) = INR n.
Proof.
  unfold log10. rewrite ln_pow by lra. pose proof ln_10_pos. field. lra.
Qed.

Lemma calculateMagnitude_1e19 : calculateMagnitude 1e19 = 79 / 15.
Proof.
  unfold calculateMagnitude. cbv zeta.
  replace (1e19 * 0.01) with (10 ^ 17) by lra.
  rewrite log10_pow10.
  replace ((INR 17 - 9.1) / 1.5) with (79 / 15) by (simpl; lra).
  rewrite Rmin_left by lra. apply Rmax_right. lra.
Qed.

Lemma baseIntensityOf_79_15 : baseIntensityOf (79 / 15) = 9%Z.
Proof.
  unfold baseIntensityOf, floor.
  replace (Int_part (79 / 15 * 1.5 + 2)) with 9%Z; [reflexivity|].
  apply Int_part_spec. lra.
Qed.

Lemma two_members_length {A} (l : list A) x y :
  x ∈ l -> y ∈ l -> x <> y -> (2 <= length l)%nat.
Proof.
  intros Hx Hy Hne. destruct l as [|a [|b l]]; cbn; [| |lia].
  - by apply elem_of_nil in Hx.
  - apply list_elem_of_singleton in Hx, Hy. congruence.
Qed.

Lemma Rpower_10_ge_1 e : 0 <= e -> 1 <= Rpower 10 e.
Proof.
  intros He. rewrite <- (Rpower_O 10) by lra. apply Rle_Rpower; lra.
Qed.

(** C2 as stated fails.  An event of 1e19 J with a 100 m crater has at
    least two zones, and its zone of intensity 7 has a strictly larger
    radius than its zone of intensity 9: the zone with the lower intensity
    is not the smaller one. *)
Lemma C2_counterexample :
  let zs := zones (calculateSeismicEffects 1e19
                     (ImpactCalculator.locationOf (Some 0) (Some 0)) 100) in
  (2 <= length zs)%nat
  /\ ~ (forall za zb, za ∈ zs -> zb ∈ zs ->
          (intensity za < intensity zb)%Z -> radius za < radius zb).
Proof.
  intros zs.
  set (loc := ImpactCalculator.locationOf (Some 0) (Some 0)) in *.
  assert (Hzs : zs = calculateIntensityZones (79 / 15) loc 0 0 100).
  { unfold zs. rewrite (calculateSeismicEffects_valid _ _ _ 0 0).
    - rewrite calculateMagnitude_1e19. rewrite decide_False by lra. done.
    - unfold loc, ImpactCalculator.locationOf.
      rewrite lookup_insert_ne by done. apply lookup_singleton_eq.
    - apply lookup_insert_eq. }
  assert (Hfind : forall i : Z, (i = 9 \/ i = 7)%Z ->
            exists z, z ∈ zs /\ intensity z = i
                      /\ radius z = calculateIntensityRadius (79 / 15) i loc).
  { intros i Hi. rewrite Hzs. unfold calculateIntensityZones. cbv zeta.
    rewrite baseIntensityOf_79_15.
    set (l := mkLevel i (getIntensityDescription i) (IZR i / 12)
                      (100 * pow 2 (IZR (9 - i) / 2))).
    destruct (zonesLoop_complete (79 / 15) loc 0 0
                (intensityLevelsOf 9 100) 0 l) as (z & Hz & Hzi & Hzr).
    - destruct Hi as [-> | ->]; unfold l;
        [apply list_elem_of_here
        |apply list_elem_of_further, list_elem_of_here].
    - cbn [level_baseRadius level_intensity l].
      rewrite calculateIntensityRadius_eq.
      assert (1 <= Rpower 10 ((2.0 + 1.5 * (79 / 15) + 0.0 - IZR i) / 3.5)).
      { apply Rpower_10_ge_1. destruct Hi as [-> | ->]; lra. }
      assert (pow 2 (IZR (9 - i) / 2) <= 2).
      { rewrite Math_pow_pos_base by lra.
        apply Rle_trans with (Rpower 2 1); [|rewrite Rpower_1; lra].
        apply Rle_Rpower; [lra|]. rewrite minus_IZR.
        destruct Hi as [-> | ->]; lra. }
      assert (0 < pow 2 (IZR (9 - i) / 2)) by (apply Math_pow_positive; lra).
      apply Rmax_lub_lt; lra.
    - exists z. split; [|done].
      by rewrite merge_sort_Permutation. }
  destruct (Hfind 9%Z) as (zb & Hb & Hbi & Hbr); [by left|].
  destruct (Hfind 7%Z) as (za & Ha & Hai & Har); [by right|].
  assert (Hlt : radius zb < radius za).
  { rewrite Hbr, Har. by apply calculateIntensityRadius_decreasing. }
  split.
  - apply (two_members_length zs za zb); [done|done|].
    intros ->. lra.
  - intros Hclaim. specialize (Hclaim za zb Ha Hb). rewrite Hai, Hbi in Hclaim.
    assert (radius za < radius zb) by (apply Hclaim; lia). lra.
Qed.

End ZoneOrder.

(** ** The crater diameter in closed form *)

Section CraterClosedForm.
Import ImpactCalculator.

(** The projectile mass that the crater stage recomputes from the final
    diameter is the final mass. *)
Lemma projectileMass_is_finalMass fm rho :
  0 < fm -> 0 < rho ->
  4 / 3 * PI * pow (pow (fm / rho * 6 / PI) (1 / 3) / 2) 3 * rho = fm.
Proof.
  intros Hfm Hrho. pose proof PI_bounds as [Hpi _].
  assert (Hx : 0 < fm / rho * 6 / PI).
  { apply Rdiv_lt_0_compat; [|lra].
    apply Rmult_lt_0_compat; [|lra]. apply Rdiv_lt_0_compat; lra. }
  pose proof (Math_pow_cube_root (fm / rho * 6 / PI) (Rlt_le _ _ Hx)) as Hc.
  rewrite Math_pow_3 in Hc. rewrite Math_pow_3.
  set (c := pow (fm / rho * 6 / PI) (1 / 3)) in *.
  replace (c / 2 * (c / 2) * (c / 2)) with (c * c * c / 8) by field.
  rewrite Hc. field. lra.
Qed.

(** For a positive effective energy [e] and projectile mass [m] the
    scaling law is [1.161 * (e / (rho_t * g)) ^ (1/4) * (m / rho_t) ^ (-1/12)]. *)
Lemma calculateCraterDiameter_closed e v m :
  0 < e -> 0 < m ->
  CraterCalculator.calculateCraterDiameter e v m
  = 1.161 * Rpower (e / (2700 * 9.81)) (INR 1 / INR 4)
    / Rpower (m / 2700) (INR 1 / INR 12).
Proof.
  intros He Hm. unfold CraterCalculator.calculateCraterDiameter. cbv zeta.
  unfold CraterCalculator.targetDensity, CraterCalculator.gravity,
    PHYSICS_CONSTANTS.EARTH_CRUST_DENSITY, PHYSICS_CONSTANTS.EARTH_GRAVITY.
  assert (0 < e / (2700 * 9.81)) by (apply Rdiv_lt_0_compat; lra).
  assert (0 < m / 2700) by (apply Rdiv_lt_0_compat; lra).
  rewrite (Math_pow_pos_base (m / 2700)) by done.
  rewrite !Math_pow_pos_base by (done || apply exp_pos).
  rewrite Rpower_mult.
  replace (1 / 3 * - 0.25) with (- (INR 1 / INR 12)) by (simpl; lra).
  rewrite Rpower_Ropp.
  replace 0.25 with (INR 1 / INR 4) by (simpl; lra).
  reflexivity.
Qed.

Lemma craterResultsOf_diameter p :
  validParameters p -> survives p -> 0 < angle p ->
  CraterCalculator.diameter (craterResultsOf p)
  = 1.161
    * Rpower (finalEnergyOf p * sin (angle p * PI / 180) / (2700 * 9.81))
             (INR 1 / INR 4)
    / Rpower (AtmosphereCalculator.finalMass (atmosphereResultsOf p) / 2700)
             (INR 1 / INR 12).
Proof.
  intros Hvalid Hs Hangle.
  pose proof (asteroidDensityOf_pos p Hvalid) as Hrho.
  pose proof (finalEnergyOf_bounds p Hvalid Hs) as [HE _].
  destruct Hvalid as (Hd & Hv & [_ H90] & _).
  pose proof (calculateMass_pos _ _ Hd Hrho) as Hm. fold (massOf p) in Hm.
  pose proof (calculateFinalMass_bounds _ _ _ _ Hm Hd Hv Hrho) as [Hfm _].
  pose proof (sin_degrees_pos (angle p) (conj Hangle H90)) as Hsin.
  unfold craterResultsOf, CraterCalculator.calculateCrater. cbv zeta.
  cbn [CraterCalculator.diameter].
  rewrite (atmosphereResultsOf_survives p Hs) at 1 2.
  cbn [AtmosphereCalculator.finalDiameter AtmosphereCalculator.finalVelocity].
  rewrite projectileMass_is_finalMass by done.
  rewrite calculateCraterDiameter_closed; [|by apply Rmult_lt_0_compat|done].
  by rewrite (atmosphereResultsOf_survives p Hs).
Qed.

End CraterClosedForm.

(** ** Significant events without a zone *)

Section EmptyZones.
Import SeismicCalculator.

Lemma zonesLoop_empty M loc lat lon levels index :
  Forall (fun l => calculateIntensityRadius M (level_intensity l) loc
                   <= Rmax (level_baseRadius l) 500) levels ->
  zonesLoop M loc lat lon levels index = [].
Proof.
  revert index. induction levels as [|l levels IH]; intros index Hall; [done|].
  apply Forall_cons in Hall as [Hl Hall]. cbn.
  rewrite decide_False by lra. by apply IH.
Qed.

Lemma baseIntensityOf_10 : baseIntensityOf 10 = 12%Z.
Proof.
  unfold baseIntensityOf, floor.
  replace (Int_part (10 * 1.5 + 2)) with 17%Z; [reflexivity|].
  apply Int_part_spec. lra.
Qed.

Lemma intensityLevelsOf_12 cd :
  intensityLevelsOf 12 cd
  = [ mkLevel 12 "Extreme Destruction" (12 / 12)
              (cd * pow 2 (IZR (12 - 12) / 2));
      mkLevel 10 "Disastrous" (10 / 12) (cd * pow 2 (IZR (12 - 10) / 2));
      mkLevel 8 "Severe" (8 / 12) (cd * pow 2 (IZR (12 - 8) / 2));
      mkLevel 6 "Strong" (6 / 12) (cd * pow 2 (IZR (12 - 6) / 2));
      mkLevel 4 "Light" (4 / 12) (cd * pow 2 (IZR (12 - 4) / 2)) ].
Proof. reflexivity. Qed.

Lemma pow_2_half (k : nat) (z : Z) :
  z = (2 * Z.of_nat k)%Z -> pow 2 (IZR z / 2) = 2 ^ k.
Proof.
  intros ->. rewrite Math_pow_pos_base by lra.
  rewrite mult_IZR, <- INR_IZR_INZ.
  replace (2 * INR k / 2) with (INR k) by lra.
  apply Rpower_pow. lra.
Qed.

Lemma radius_at_magnitude_10 (i : Z) (p q : nat) c loc :
  (0 < q)%nat -> (17 - IZR i) / 3.5 = INR p / INR q ->
  0 <= c -> 10 ^ p <= c ^ q ->
  calculateIntensityRadius 10 i loc <= c * 1000.
Proof.
  intros Hq He Hc Hpow. rewrite calculateIntensityRadius_eq.
  replace ((2.0 + 1.5 * 10 + 0.0 - IZR i) / 3.5) with (INR p / INR q)
    by (rewrite <- He; lra).
  apply Rmult_le_compat_r; [lra|].
  apply Rpower_ratio_le; [done|lra|done|done].
Qed.

(** At magnitude 10 a crater of 325 km or more leaves no zone: the floor
    of every level exceeds the radius at which its intensity is felt. *)
Lemma calculateIntensityZones_none loc lat lon cd :
  325000 <= cd -> calculateIntensityZones 10 loc lat lon cd = [].
Proof.
  intros Hcd. unfold calculateIntensityZones. cbv zeta.
  rewrite baseIntensityOf_10, intensityLevelsOf_12.
  rewrite zonesLoop_empty; [reflexivity|].
  repeat apply Forall_cons_2; [| | | | |apply Forall_nil_2];
    cbn [level_intensity level_baseRadius];
    (eapply Rle_trans; [|apply Rmax_l]).
  - rewrite (pow_2_half 0) by done.
    eapply Rle_trans;
      [apply (radius_at_magnitude_10 12 10 7 27); [lia|simpl; lra|lra|lra]|].
    simpl. lra.
  - rewrite (pow_2_half 1) by done.
    eapply Rle_trans;
      [apply (radius_at_magnitude_10 10 2 1 100); [lia|simpl; lra|lra|lra]|].
    simpl. lra.
  - rewrite (pow_2_half 2) by done.
    eapply Rle_trans;
      [apply (radius_at_magnitude_10 8 18 7 400); [lia|simpl; lra|lra|lra]|].
    simpl. lra.
  - rewrite (pow_2_half 3) by done.
    eapply Rle_trans;
      [apply (radius_at_magnitude_10 6 22 7 1400); [lia|simpl; lra|lra|lra]|].
    simpl. lra.
  - rewrite (pow_2_half 4) by done.
    eapply Rle_trans;
      [apply (radius_at_magnitude_10 4 26 7 5200); [lia|simpl; lra|lra|lra]|].
    simpl. lra.
Qed.

End EmptyZones.

(** ** The planetoid: a significant earthquake without a zone *)

Section Planetoid.
Import ImpactCalculator.

Lemma planetoid_valid : validParameters Presets.planetoid.
Proof.
  unfold validParameters, Presets.planetoid.
  cbn [diameter velocity angle composition density latitude longitude].
  split; [lra|]. split; [lra|]. split; [lra|]. split; [discriminate|].
  split; eexists; (split; [reflexivity|lra]).
Qed.

Lemma planetoid_survives : survives Presets.planetoid.
Proof.
  apply survives_of_diameter.
  unfold Presets.planetoid, asteroidDensityOf.
  cbn [diameter velocity composition density getAsteroidDensity].
  rewrite calculateSurvivalDiameter_formula by lra.
  assert (H1 : sqrt (2700 / 3000) <= 1) by (apply sqrt_upper; lra).
  assert (H2 : 1 <= sqrt (20 / 20)) by (apply sqrt_lower; lra).
  assert (H3 : 0 <= sqrt (2700 / 3000)) by apply sqrt_pos.
  apply div_le_upper; [lra|]. nra.
Qed.

Lemma planetoid_mass : 1.35e27 <= massOf Presets.planetoid <= 1.8e27.
Proof.
  unfold massOf, asteroidDensityOf, calculateMass, Presets.planetoid.
  cbn [diameter velocity composition density getAsteroidDensity].
  rewrite Math_pow_3. pose proof PI_bounds. split; lra.
Qed.

Lemma planetoid_massLoss :
  0 < AtmosphereCalculator.calculateMassLossRatio 1e8 20 2700 <= 1e-8.
Proof.
  split; [apply calculateMassLossRatio_bounds; lra|].
  unfold AtmosphereCalculator.calculateMassLossRatio. cbv zeta.
  eapply Rle_trans; [apply Rmin_l|]. rewrite Math_pow_2. lra.
Qed.

Lemma planetoid_finalMass :
  1.3e27 <= AtmosphereCalculator.finalMass
              (atmosphereResultsOf Presets.planetoid) <= 1.8e27.
Proof.
  rewrite (atmosphereResultsOf_survives _ planetoid_survives).
  cbn [AtmosphereCalculator.finalMass].
  unfold AtmosphereCalculator.calculateFinalMass. cbv zeta.
  pose proof planetoid_mass as [Hm1 Hm2].
  pose proof planetoid_massLoss as [Hr1 Hr2].
  change (AtmosphereCalculator.calculateMassLossRatio _ _ _)
    with (AtmosphereCalculator.calculateMassLossRatio 1e8 20 2700).
  set (m := massOf _) in *.
  set (r := AtmosphereCalculator.calculateMassLossRatio _ _ _) in *.
  assert (0 <= m * r <= 1.8e27 * 1e-8) by (split; nra).
  split; lra.
Qed.

Lemma planetoid_finalVelocity :
  19 <= AtmosphereCalculator.finalVelocity
          (atmosphereResultsOf Presets.planetoid) <= 20.
Proof.
  rewrite (atmosphereResultsOf_survives _ planetoid_survives).
  cbn [AtmosphereCalculator.finalVelocity].
  unfold AtmosphereCalculator.calculateFinalVelocity. cbv zeta.
  pose proof planetoid_massLoss as [Hr1 Hr2].
  change (AtmosphereCalculator.calculateMassLossRatio _ _ _)
    with (AtmosphereCalculator.calculateMassLossRatio 1e8 20 2700).
  change (velocity Presets.planetoid) with 20.
  set (r := AtmosphereCalculator.calculateMassLossRatio _ _ _) in *.
  rewrite Rmax_left by lra. split; lra.
Qed.

Lemma planetoid_energy : 2.3e35 <= finalEnergyOf Presets.planetoid.
Proof.
  unfold finalEnergyOf, calculateKineticEnergy. cbv zeta.
  rewrite Math_pow_2.
  pose proof planetoid_finalMass as [Hm _].
  pose proof planetoid_finalVelocity as [Hv _].
  set (fm := AtmosphereCalculator.finalMass _) in *.
  set (fv := AtmosphereCalculator.finalVelocity _) in *.
  assert (19000 * 19000 <= fv * 1000 * (fv * 1000)) by nra.
  nra.
Qed.

(** The clamp holds the magnitude at 10 from 1e27 J upwards. *)
Lemma calculateMagnitude_saturates E :
  1e27 <= E -> SeismicCalculator.calculateMagnitude E = 10.
Proof.
  intros HE. unfold SeismicCalculator.calculateMagnitude. cbv zeta.
  assert (Hlog : 25 <= log10 (E * 0.01)).
  { replace 25 with (INR 25) by (simpl; lra).
    rewrite <- log10_pow10. unfold log10. pose proof ln_10_pos.
    apply Rmult_le_compat_r; [left; by apply Rinv_0_lt_compat|].
    destruct (Req_dec (10 ^ 25) (E * 0.01)) as [->|Hne]; [lra|].
    left. apply ln_increasing; lra. }
  rewrite Rmin_right by lra. apply Rmax_right. lra.
Qed.

Lemma planetoid_crater :
  325000 <= CraterCalculator.diameter (craterResultsOf Presets.planetoid).
Proof.
  rewrite craterResultsOf_diameter
    by (apply planetoid_valid || apply planetoid_survives
        || (unfold Presets.planetoid; cbn [angle]; lra)).
  unfold Presets.planetoid at 2. cbn [angle].
  replace (90 * PI / 180) with (PI / 2) by lra. rewrite sin_PI2.
  pose proof planetoid_energy as HE.
  pose proof planetoid_finalMass as [Hm1 Hm2].
  set (E := finalEnergyOf _) in *.
  set (fm := AtmosphereCalculator.finalMass _) in *.
  assert (HA : 5e7 <= Rpower (E * 1 / (2700 * 9.81)) (INR 1 / INR 4)).
  { apply Rpower_ratio_ge; [lia| |lra|].
    - apply Rdiv_lt_0_compat; lra.
    - rewrite pow_1. apply div_le_lower; lra. }
  assert (HB : Rpower (fm / 2700) (INR 1 / INR 12) <= 100).
  { apply Rpower_ratio_le; [lia| |lra|].
    - apply Rdiv_lt_0_compat; lra.
    - rewrite pow_1. apply div_le_upper; lra. }
  assert (HB0 : 0 < Rpower (fm / 2700) (INR 1 / INR 12)) by apply exp_pos.
  apply div_le_lower; [done|]. lra.
Qed.

Lemma planetoid_seismic :
  seismicResultsOf Presets.planetoid
  = SeismicCalculator.mkSeismic 10 true NegInfinity [] None
      (Some (SeismicCalculator.calculateGroundMotionParameters 10 []))
      (Some (SeismicCalculator.assessBuildingDamage []))
      (Some (SeismicCalculator.calculateShakingDuration 10)).
Proof.
  unfold seismicResultsOf.
  rewrite (calculateSeismicEffects_valid _ _ _ 0 0).
  - rewrite calculateMagnitude_saturates
      by (pose proof planetoid_energy; lra).
    rewrite decide_False by lra. cbv zeta.
    rewrite calculateIntensityZones_none by apply planetoid_crater.
    reflexivity.
  - unfold Presets.planetoid, locationOf. cbn [latitude longitude].
    rewrite lookup_insert_ne by done. apply lookup_singleton_eq.
  - unfold Presets.planetoid, locationOf. cbn [latitude longitude].
    apply lookup_insert_eq.
Qed.

Ltac solve_elem :=
  repeat first [apply list_elem_of_here | apply list_elem_of_further].

(** C9, at the planetoid.  The parameters are valid and the body reaches
    the ground; the magnitude is 10, so the result is significant, yet no
    level passes its floor: the zone list is empty and the effect radius,
    the maximum over that empty list, is [-Infinity]. *)
Theorem C9_planetoid_significant_without_zone :
  let res := calculateImpact Presets.planetoid in
  validParameters Presets.planetoid
  /\ survives Presets.planetoid
  /\ res !! "seismicMagnitude" = Some (num 10)
  /\ res !! "seismicSignificant" = Some (VBool true)
  /\ res !! "seismicZones" = Some (VZones [])
  /\ res !! "seismicRadius" = Some (VNum NegInfinity).
Proof.
  intros res. subst res.
  split; [apply planetoid_valid|]. split; [apply planetoid_survives|].
  pose proof planetoid_seismic as Hseis.
  pose proof (lookup_phase2 Presets.planetoid "seismicMagnitude" _
                planetoid_survives ltac:(solve_elem)) as H1.
  pose proof (lookup_phase2 Presets.planetoid "seismicSignificant" _
                planetoid_survives ltac:(solve_elem)) as H2.
  pose proof (lookup_phase2 Presets.planetoid "seismicZones" _
                planetoid_survives ltac:(solve_elem)) as H3.
  pose proof (lookup_phase2 Presets.planetoid "seismicRadius" _
                planetoid_survives ltac:(solve_elem)) as H4.
  rewrite Hseis in H1, H2, H3, H4.
  by rewrite H1, H2, H3, H4.
Qed.

End Planetoid.

(** ** The tsunami stage *)

Section Tsunami.
Import TsunamiCalculator.

(** A wave height the stage can compute from a positive energy: a
    finite number or [Infinity], never [NaN]. *)
Lemma ltN_false_geN n c : isHeight n -> ltN n c = false -> geN n c = true.
Proof.
  destruct n as [x| | |]; cbn; try done.
  intros _ H. apply bool_decide_eq_false in H.
  apply bool_decide_eq_true. lra.
Qed.

Lemma mulN_isHeight n r : isHeight n -> 0 < r -> isHeight (mulN n r).
Proof.
  destruct n as [x| | |]; cbn; try done.
  intros _ Hr. by rewrite decide_True.
Qed.

Lemma calculateInitialWaveHeight_isHeight e v depth :
  0 < e -> isHeight (calculateInitialWaveHeight e v depth).
Proof.
  intros He. unfold calculateInitialWaveHeight, div. cbv zeta.
  case_decide as Hz.
  - rewrite decide_True by lra. done.
  - cbn. case_decide as Hneg; [|done].
    pose proof (Rmax_r (2 * e / (waterDensity * gravity
                                 * (PI * pow (sqrt (v / PI)) 2))) 0). lra.
Qed.

Lemma calculateEnergyTransferEfficiency_pos depth cd :
  0 <= depth -> 0 <= cd -> 0 < calculateEnergyTransferEfficiency depth cd.
Proof.
  intros Hd Hcd. unfold calculateEnergyTransferEfficiency. cbv zeta.
  assert (0 <= Rmin (depth / 1000) 1) by (apply Rmin_glb; lra).
  assert (0 <= Rmin (cd / 1000) 1) by (apply Rmin_glb; lra).
  assert (0 < 0.001 * (1 + Rmin (depth / 1000) 1)) by lra.
  nra.
Qed.

Lemma calculateWaveHeightDecay_isHeight h distance wavelength :
  isHeight h -> isHeight (calculateWaveHeightDecay h distance wavelength).
Proof.
  intros Hh. unfold calculateWaveHeightDecay. cbv zeta.
  apply mulN_isHeight; [apply mulN_isHeight; [done|]|apply exp_pos].
  assert (1 <= sqrt (Rmax (distance / 1000) 1)).
  { apply sqrt_lower; [lra|]. pose proof (Rmax_r (distance / 1000) 1). lra. }
  apply Rdiv_lt_0_compat; lra.
Qed.

(** *** The propagation loop *)

Lemma propagationLoop_length w remaining step :
  (length (propagationLoop w remaining step) <= remaining)%nat.
Proof.
  revert step. induction remaining as [|n IH]; intros step; cbn; [lia|].
  case_decide; cbn; [lia|].
  destruct (ltN _ _); cbn; [lia|]. specialize (IH (S step)). lia.
Qed.

Lemma propagationLoop_fronts w remaining step k f :
  propagationLoop w remaining step !! k = Some f ->
  front_time f = INR (step + k) * 3600
  /\ front_radius f = speed w * front_time f
  /\ front_radius f <= 20000 * 1000
  /\ front_height f
     = calculateWaveHeightDecay (height w) (front_radius f) (wavelength w)
  /\ ltN (front_height f) 0.01 = false.
Proof.
  revert step k. induction remaining as [|n IH]; intros step k; cbn; [done|].
  unfold maxPropagationDistance, timeInterval.
  case_decide as Hfar; [by rewrite lookup_nil|].
  destruct (ltN (calculateWaveHeightDecay _ _ _) _) eqn:Hsmall;
    [by rewrite lookup_nil|].
  destruct k as [|k]; cbn.
  - intros [= <-]. cbn. rewrite Nat.add_0_r.
    repeat split; try done. lra.
  - intros Hk. apply IH in Hk.
    replace (step + S k)%nat with (S step + k)%nat by lia. exact Hk.
Qed.

(** The first step always passes both tests. *)
Lemma propagationLoop_first w remaining :
  isHeight (height w) -> ltN (height w) 0.1 = false ->
  exists rest,
    propagationLoop w (S remaining) 0
    = mkFront 0 0 (height w) (speed w) (energy w) :: rest.
Proof.
  intros Hh Hbig. cbn [propagationLoop].
  unfold timeInterval, maxPropagationDistance. cbn [INR].
  replace (speed w * (0 * 3600)) with 0 by lra.
  replace (0 * 3600) with 0 by lra.
  rewrite decide_False by lra.
  assert (Hdecay : calculateWaveHeightDecay (height w) 0 (wavelength w)
                   = height w).
  { unfold calculateWaveHeightDecay. cbv zeta.
    replace (0 / 1000) with 0 by lra. rewrite Rmax_right by lra.
    rewrite sqrt_1. replace (- 0 / (wavelength w * 1000)) with 0 by lra.
    rewrite exp_0. replace (1 / 1) with 1 by lra.
    destruct (height w) as [x| | |]; cbn [mulN]; try done.
    - f_equal. lra.
    - rewrite decide_True by lra. cbn [mulN]. by rewrite decide_True by lra. }
  rewrite Hdecay.
  assert (Hnot : ltN (height w) 0.01 = false).
  { destruct (height w) as [x| | |]; cbn [ltN] in *; try done.
    apply bool_decide_eq_false in Hbig. apply bool_decide_eq_false. lra. }
  rewrite Hnot. eexists. f_equal.
  unfold calculateWaveSpeedAtDistance, calculateEnergyAtDistance.
  replace (0 / 1000) with 0 by lra. rewrite Rmax_right by lra.
  f_equal. lra.
Qed.

(** The loop leaves early only at a step that fails one of its two
    tests. *)
Lemma propagationLoop_stops w remaining step :
  (length (propagationLoop w remaining step) < remaining)%nat ->
  let next := (step + length (propagationLoop w remaining step))%nat in
  let radius := speed w * (INR next * 3600) in
  20000 * 1000 < radius
  \/ ltN (calculateWaveHeightDecay (height w) radius (wavelength w)) 0.01
     = true.
Proof.
  revert step. induction remaining as [|n IH]; intros step; cbn; [lia|].
  unfold maxPropagationDistance, timeInterval.
  case_decide as Hfar.
  { intros _. cbn [length]. rewrite Nat.add_0_r. by left. }
  destruct (ltN (calculateWaveHeightDecay _ _ _) _) eqn:Hsmall.
  { intros _. cbn [length]. rewrite Nat.add_0_r. by right. }
  cbn [length]. intros Hlen.
  replace (step + S (length (propagationLoop w n (S step))))%nat
    with (S step + length (propagationLoop w n (S step)))%nat by lia.
  apply IH. lia.
Qed.

Lemma ltN_weaken n c c' : c <= c' -> ltN n c = true -> ltN n c' = true.
Proof.
  intros Hc. destruct n as [x| | |]; cbn; try done.
  intros H%bool_decide_eq_true. apply bool_decide_eq_true. lra.
Qed.

(** *** The coastal effects *)

Lemma calculateDistance_coastline epicenter coastline :
  coastline ∈ getMajorCoastlines epicenter ->
  calculateDistance epicenter (coast_coordinates coastline) = NaN.
Proof.
  intros Hin. unfold calculateDistance.
  assert (Hlat : coast_coordinates coastline !! "latitude" = None).
  { unfold getMajorCoastlines in Hin.
    repeat (apply elem_of_cons in Hin as [->|Hin]);
      try (by inversion Hin); cbn [coast_coordinates];
      rewrite lookup_insert_ne by done; by rewrite lookup_singleton_ne. }
  rewrite Hlat.
  destruct (epicenter !! "latitude"); [|done].
  by destruct (epicenter !! "longitude").
Qed.

(** No coastline point carries the keys the distance reads, so no wave
    front is ever matched and the list of coastal effects is empty. *)
Lemma calculateCoastalEffects_empty propagationData epicenter :
  calculateCoastalEffects propagationData epicenter = [].
Proof.
  unfold calculateCoastalEffects. cbv zeta.
  assert (H : omap (coastalEffectAt (waveFronts propagationData) epicenter)
                   (getMajorCoastlines epicenter) = []).
  { assert (Hall : Forall (fun c => coastalEffectAt (waveFronts propagationData)
                                      epicenter c = None)
                          (getMajorCoastlines epicenter)).
    { apply Forall_forall. intros c Hc. unfold coastalEffectAt. cbv zeta.
      by rewrite calculateDistance_coastline. }
    induction Hall as [|c l Hc Hl IH]; [done|]. cbn. by rewrite Hc. }
  by rewrite H.
Qed.

#[local] Instance earliestFirst_transitive : Transitive earliestFirst.
Proof. intros a b c. unfold earliestFirst. lra. Qed.

#[local] Instance earliestFirst_total : Total earliestFirst.
Proof. intros a b. unfold earliestFirst. lra. Qed.

Lemma calculateCoastalEffects_sorted propagationData epicenter :
  StronglySorted earliestFirst
                 (calculateCoastalEffects propagationData epicenter).
Proof. apply StronglySorted_merge_sort; apply _. Qed.

Lemma estimateWaterDepth_pos lat lng : 0 < estimateWaterDepth lat lng.
Proof. unfold estimateWaterDepth. cbv zeta. repeat case_decide; lra. Qed.

(** The fronts and the coastal effects of a generated tsunami. *)
Lemma calculateTsunami_fronts (E : R) (loc : gmap string R)
    (craterDiameter : R) :
  0 < E -> 0 <= craterDiameter ->
  let res := calculateTsunami E loc craterDiameter in
  generated res = true ->
  exists w prop,
    initialWave res = Some w
    /\ propagation res = Some prop
    /\ (1 <= length (waveFronts prop) <= 24)%nat
    /\ (forall k f, waveFronts prop !! k = Some f ->
          front_time f = INR k * 3600
          /\ front_radius f = speed w * front_time f
          /\ front_height f
             = calculateWaveHeightDecay (height w) (front_radius f)
                                        (wavelength w)
          /\ geN (front_height f) 0.01 = true
          /\ front_radius f <= 20000 * 1000)
    /\ ((length (waveFronts prop) < 24)%nat ->
          let radius := speed w * (INR (length (waveFronts prop)) * 3600) in
          20000 * 1000 < radius
          \/ ltN (calculateWaveHeightDecay (height w) radius (wavelength w))
                 (0.01 * (1 + 1e-9)) = true)
    /\ coastalEffects res = []
    /\ StronglySorted earliestFirst (coastalEffects res).
Proof.
  intros HE Hcd res Hgen. subst res. unfold calculateTsunami in *.
  destruct (loc !! "latitude") as [lat|]; [|done].
  destruct (loc !! "longitude") as [lon|]; [|done].
  cbv zeta in *.
  destruct (negb (inOcean (determineOceanImpact lat lon))) eqn:Hocean;
    [done|].
  set (w := calculateInitialWave E _ craterDiameter) in *.
  destruct (ltN (height w) 0.1) eqn:Hh; [done|].
  cbn [initialWave propagation coastalEffects].
  exists w. eexists. split; [reflexivity|]. split; [reflexivity|].
  cbn [modelWavePropagation waveFronts].
  assert (Hdepth : 0 < waterDepth (determineOceanImpact lat lon)).
  { unfold determineOceanImpact in *. cbv zeta in *.
    destruct (negb (isOceanCoordinate lat lon)); [done|].
    apply estimateWaterDepth_pos. }
  assert (Hw : isHeight (height w)).
  { apply calculateInitialWaveHeight_isHeight.
    apply Rmult_lt_0_compat; [done|].
    apply calculateEnergyTransferEfficiency_pos; lra. }
  split; [|split; [|split; [|split]]].
  - split; [|apply propagationLoop_length].
    unfold timeSteps.
    destruct (propagationLoop_first w 23 Hw Hh) as [rest ->]. cbn. lia.
  - intros k f Hk. apply propagationLoop_fronts in Hk
      as (Ht & Hrad & Hr & Hhf & Hsmall).
    split; [done|]. split; [done|]. split; [done|]. split; [|done].
    apply ltN_false_geN; [|done].
    rewrite Hhf. by apply calculateWaveHeightDecay_isHeight.
  - intros Hlen.
    destruct (propagationLoop_stops w timeSteps 0 Hlen) as [Hfar|Hsmall].
    + by left.
    + right. eapply ltN_weaken; [|exact Hsmall]. lra.
  - apply calculateCoastalEffects_empty.
  - apply calculateCoastalEffects_sorted.
Qed.


Lemma craterResultsOf_diameter_nonneg p :
  ImpactCalculator.validParameters p -> ImpactCalculator.survives p ->
  0 <= CraterCalculator.diameter (ImpactCalculator.craterResultsOf p).
Proof.
  intros Hvalid Hs.
  pose proof (finalEnergyOf_bounds p Hvalid Hs) as [HE _].
  pose proof (asteroidDensityOf_pos p Hvalid) as Hrho.
  pose proof Hvalid as (Hd & Hv & Hangle & _).
  pose proof (calculateMass_pos _ _ Hd Hrho) as Hm.
  fold (ImpactCalculator.massOf p) in Hm.
  pose proof (calculateFinalMass_bounds _ _ _ _ Hm Hd Hv Hrho) as [Hfm _].
  pose proof (sin_degrees_nonneg _ Hangle) as Hsin.
  unfold ImpactCalculator.craterResultsOf, CraterCalculator.calculateCrater.
  cbv zeta. cbn [CraterCalculator.diameter].
  rewrite (atmosphereResultsOf_survives p Hs) at 1 2.
  cbn [AtmosphereCalculator.finalDiameter AtmosphereCalculator.finalVelocity].
  rewrite projectileMass_is_finalMass by done.
  unfold CraterCalculator.calculateCraterDiameter,
    CraterCalculator.targetDensity, CraterCalculator.gravity,
    PHYSICS_CONSTANTS.EARTH_CRUST_DENSITY, PHYSICS_CONSTANTS.EARTH_GRAVITY.
  cbv zeta.
  apply Rmult_le_pos; [apply Rmult_le_pos; [lra|]|];
    apply Math_pow_nonneg.
  - apply Rle_mult_inv_pos; [|lra]. apply Rmult_le_pos; lra.
  - apply Math_pow_nonneg. apply Rle_mult_inv_pos; lra.
Qed.

(** The tsunami stage of every valid surviving impact is within the
    hypotheses of [calculateTsunami_fronts]. *)
Lemma tsunamiResultsOf_generated p :
  ImpactCalculator.validParameters p -> ImpactCalculator.survives p ->
  let res := ImpactCalculator.tsunamiResultsOf p in
  generated res = true ->
  exists w prop,
    initialWave res = Some w
    /\ propagation res = Some prop
    /\ (1 <= length (waveFronts prop) <= 24)%nat
    /\ (forall k f, waveFronts prop !! k = Some f ->
          front_time f = INR k * 3600
          /\ front_radius f = speed w * front_time f
          /\ front_height f
             = calculateWaveHeightDecay (height w) (front_radius f)
                                        (wavelength w)
          /\ geN (front_height f) 0.01 = true
          /\ front_radius f <= 20000 * 1000)
    /\ ((length (waveFronts prop) < 24)%nat ->
          let radius := speed w * (INR (length (waveFronts prop)) * 3600) in
          20000 * 1000 < radius
          \/ ltN (calculateWaveHeightDecay (height w) radius (wavelength w))
                 (0.01 * (1 + 1e-9)) = true)
    /\ coastalEffects res = []
    /\ StronglySorted earliestFirst (coastalEffects res).
Proof.
  intros Hvalid Hs. apply calculateTsunami_fronts.
  - by apply finalEnergyOf_bounds.
  - by apply craterResultsOf_diameter_nonneg.
Qed.

End Tsunami.

(** ** An ocean impact that raises a tsunami *)

Section OceanImpact.
Import TsunamiCalculator.

Lemma waveArea_is_volume v : 0 <= v -> PI * pow (sqrt (v / PI)) 2 = v.
Proof.
  intros Hv. pose proof PI_bounds as [Hpi _].
  rewrite Math_pow_2, sqrt_sqrt; [field; lra|].
  apply Rle_mult_inv_pos; lra.
Qed.

Lemma calculateInitialWaveHeight_large e v depth :
  0 < e -> 0 <= v -> 0.01 * (waterDensity * gravity * v) <= 2 * e ->
  ltN (calculateInitialWaveHeight e v depth) 0.1 = false.
Proof.
  intros He Hv Hle. unfold calculateInitialWaveHeight, div. cbv zeta.
  rewrite waveArea_is_volume by done.
  case_decide as Hz.
  - rewrite decide_True by lra. done.
  - cbn. rewrite decide_False; cbn.
    + apply bool_decide_eq_false. apply Rle_not_lt.
      apply sqrt_lower; [lra|].
      eapply Rle_trans; [|apply Rmax_l].
      assert (0 < waterDensity * gravity * v).
      { unfold waterDensity, gravity, PHYSICS_CONSTANTS.WATER_DENSITY,
          PHYSICS_CONSTANTS.EARTH_GRAVITY in *.
        destruct Hv as [Hv|<-]; [lra|]. exfalso. apply Hz. lra. }
      apply div_le_lower; lra.
    + pose proof (Rmax_r (2 * e / (waterDensity * gravity * v)) 0). lra.
Qed.

Lemma mid_atlantic_ocean : determineOceanImpact 0 0
  = mkOcean true 4000 (Some (identifyOceanBasin 0 0))
            (Some (findNearestCoastline 0 0)).
Proof.
  unfold determineOceanImpact, isOceanCoordinate, estimateWaterDepth.
  cbv zeta. rewrite Rabs_R0.
  rewrite !bool_decide_eq_true_2 by lra. cbn [andb negb].
  rewrite decide_False by lra. rewrite decide_True by lra. reflexivity.
Qed.

Lemma mid_atlantic_generated :
  generated (calculateTsunami 1e18
               (ImpactCalculator.locationOf (Some 0) (Some 0)) 1000) = true.
Proof.
  unfold calculateTsunami, ImpactCalculator.locationOf.
  rewrite lookup_insert_ne by done. rewrite lookup_singleton_eq.
  rewrite lookup_insert_eq. cbv zeta.
  rewrite mid_atlantic_ocean. cbn [inOcean waterDepth negb].
  unfold calculateInitialWave at 1. cbv zeta. cbn [height].
  rewrite calculateInitialWaveHeight_large; [reflexivity| | |].
  - apply Rmult_lt_0_compat; [lra|].
    apply calculateEnergyTransferEfficiency_pos; lra.
  - unfold calculateWaterDisplacement. cbv zeta. rewrite Math_pow_2.
    pose proof PI_bounds. rewrite Rmin_left by lra. nra.
  - unfold calculateWaterDisplacement, calculateEnergyTransferEfficiency.
    cbv zeta. rewrite Math_pow_2. rewrite !Rmin_left by lra.
    rewrite Rmin_right by lra. rewrite Rmin_left by lra.
    unfold waterDensity, gravity, PHYSICS_CONSTANTS.WATER_DENSITY,
      PHYSICS_CONSTANTS.EARTH_GRAVITY.
    pose proof PI_bounds. lra.
Qed.



End OceanImpact.

(** ** Monotonicity in the diameter *)

Section Monotonicity.
Import ImpactCalculator.

Lemma cube_increasing a b : 0 < a < b -> a * a * a < b * b * b.
Proof.
  intros [Ha Hab]. assert (a * a < b * b) by nra.
  assert (0 < a * a) by nra. nra.
Qed.

Lemma calculateMass_increasing d1 d2 rho :
  0 < d1 < d2 -> 0 < rho -> calculateMass d1 rho < calculateMass d2 rho.
Proof.
  intros [Hd1 Hd] Hrho. pose proof PI_bounds as [Hpi _].
  unfold calculateMass. cbv zeta. rewrite !Math_pow_3.
  assert (Hc : d1 / 2 * (d1 / 2) * (d1 / 2) < d2 / 2 * (d2 / 2) * (d2 / 2))
    by (apply cube_increasing; lra).
  apply Rmult_lt_compat_r; [done|].
  apply Rmult_lt_compat_l; [lra|done].
Qed.

Lemma calculateMassLossRatio_antitone d1 d2 v rho :
  0 < d1 < d2 -> 0 < v -> 0 < rho ->
  AtmosphereCalculator.calculateMassLossRatio d2 v rho
  <= AtmosphereCalculator.calculateMassLossRatio d1 v rho.
Proof.
  intros [Hd1 Hd] Hv Hrho.
  unfold AtmosphereCalculator.calculateMassLossRatio. cbv zeta.
  apply Rle_min_compat_r. rewrite Math_pow_2.
  assert (0 < v / 20 * (v / 20)) by nra.
  assert (0 < 3000 / rho) by (apply Rdiv_lt_0_compat; lra).
  assert (6 / d2 <= 6 / d1).
  { apply Rmult_le_compat_l; [lra|]. apply Rinv_le_contravar; lra. }
  apply Rmult_le_compat_r; [lra|].
  apply Rmult_le_compat_r; [lra|]. lra.
Qed.

Lemma calculateFinalMass_increasing d1 d2 v rho :
  0 < d1 < d2 -> 0 < v -> 0 < rho ->
  AtmosphereCalculator.calculateFinalMass (calculateMass d1 rho) d1 v rho
  < AtmosphereCalculator.calculateFinalMass (calculateMass d2 rho) d2 v rho.
Proof.
  intros Hd Hv Hrho.
  pose proof (calculateMass_increasing _ _ _ Hd Hrho) as Hm.
  pose proof (calculateMass_pos d1 rho ltac:(lra) Hrho) as Hm1.
  pose proof (calculateMassLossRatio_antitone _ _ _ _ Hd Hv Hrho) as Hr.
  pose proof (calculateMassLossRatio_bounds d1 v rho ltac:(lra) Hv Hrho).
  pose proof (calculateMassLossRatio_bounds d2 v rho ltac:(lra) Hv Hrho).
  unfold AtmosphereCalculator.calculateFinalMass. cbv zeta. nra.
Qed.

Lemma calculateFinalVelocity_monotone d1 d2 v rho :
  0 < d1 < d2 -> 0 < v -> 0 < rho ->
  AtmosphereCalculator.calculateFinalVelocity v d1 rho
  <= AtmosphereCalculator.calculateFinalVelocity v d2 rho.
Proof.
  intros Hd Hv Hrho.
  pose proof (calculateMassLossRatio_antitone _ _ _ _ Hd Hv Hrho) as Hr.
  pose proof (calculateMassLossRatio_bounds d1 v rho ltac:(lra) Hv Hrho).
  pose proof (calculateMassLossRatio_bounds d2 v rho ltac:(lra) Hv Hrho).
  unfold AtmosphereCalculator.calculateFinalVelocity. cbv zeta.
  rewrite !Rmax_left by lra. nra.
Qed.

Lemma calculateOverpressureRadius_increasing e1 e2 P :
  0 <= e1 < e2 -> 0 < P ->
  BlastWaveCalculator.calculateOverpressureRadius e1 P
  < BlastWaveCalculator.calculateOverpressureRadius e2 P.
Proof.
  intros [He1 He] HP. pose proof PI_bounds as [Hpi _].
  unfold BlastWaveCalculator.calculateOverpressureRadius. cbv zeta.
  assert (0 < 4 * PI * P) by nra.
  assert (H1 : 0 <= e1 / (4 * PI * P)) by (apply div_le_lower; lra).
  assert (H2 : e1 / (4 * PI * P) < e2 / (4 * PI * P)).
  { apply Rmult_lt_compat_r; [by apply Rinv_0_lt_compat|done]. }
  pose proof (Math_pow_nonneg _ (1 / 3) H1).
  pose proof (Math_pow_lt _ _ (1 / 3) ltac:(lra) (conj H1 H2)).
  rewrite !Rmax_left by lra. done.
Qed.

Lemma burn_radius_closed r e T :
  0 < r -> 0 <= e -> 0 < T ->
  r * sqrt (e / (4 * PI * pow r 2) / T) = sqrt (e / (4 * PI * T)).
Proof.
  intros Hr He HT. pose proof PI_bounds as [Hpi _].
  rewrite Math_pow_2.
  assert (0 < r * r) by nra.
  assert (0 < 4 * PI * (r * r)) by nra.
  assert (0 <= e / (4 * PI * (r * r)) / T).
  { apply Rle_mult_inv_pos; [|done]. apply Rle_mult_inv_pos; lra. }
  rewrite <- (sqrt_square r) at 1 by lra.
  rewrite <- sqrt_mult by lra. f_equal. field. lra.
Qed.

Lemma Rmax_lt_compat a1 b1 a2 b2 :
  a1 < a2 -> b1 < b2 -> Rmax a1 b1 < Rmax a2 b2.
Proof.
  intros Ha Hb. apply Rmax_lub_lt.
  - eapply Rlt_le_trans; [exact Ha|apply Rmax_l].
  - eapply Rlt_le_trans; [exact Hb|apply Rmax_r].
Qed.

Lemma calculateBurnRadius_increasing E1 E2 t :
  0 < E1 < E2 -> 0 < t ->
  ThermalCalculator.calculateBurnRadius (ThermalCalculator.calculateFireball E1) t
  < ThermalCalculator.calculateBurnRadius
      (ThermalCalculator.calculateFireball E2) t.
Proof.
  intros [HE1 HE] Ht. pose proof PI_bounds as [Hpi _].
  pose proof (fireball_radius_pos E1 HE1) as Hr1.
  pose proof (fireball_radius_pos E2 ltac:(lra)) as Hr2.
  unfold ThermalCalculator.calculateBurnRadius. cbv zeta.
  rewrite !burn_radius_closed
    by (done || (cbn [ThermalCalculator.calculateFireball
                        ThermalCalculator.totalRadiantEnergy]; lra) || lra).
  apply Rmax_lt_compat.
  - cbn [ThermalCalculator.calculateFireball
           ThermalCalculator.totalRadiantEnergy].
    assert (0 < 4 * PI * (t * 10000)) by nra.
    apply sqrt_lt_1_alt. split.
    + apply Rle_mult_inv_pos; lra.
    + apply Rmult_lt_compat_r; [by apply Rinv_0_lt_compat|lra].
  - unfold ThermalCalculator.calculateFireball.
    cbn [ThermalCalculator.radius].
    apply Rmult_lt_compat_r; [lra|].
    apply Math_pow_lt; [lra|]. split.
    + apply Rle_mult_inv_pos; lra.
    + apply Rmult_lt_compat_r; [|done]. apply Rinv_0_lt_compat. lra.
Qed.

(** The crater scaling law, with the energy written as the final mass
    times a factor [K] that carries the velocity and the angle. *)
Lemma crater_scaling_increasing fm1 fm2 K1 K2 :
  0 < fm1 < fm2 -> 0 < K1 <= K2 ->
  1.161 * Rpower (fm1 * K1) (INR 1 / INR 4)
  / Rpower (fm1 / 2700) (INR 1 / INR 12)
  < 1.161 * Rpower (fm2 * K2) (INR 1 / INR 4)
    / Rpower (fm2 / 2700) (INR 1 / INR 12).
Proof.
  intros [Hfm1 Hfm] [HK1 HK]. unfold Rpower, Rdiv.
  rewrite <- !exp_Ropp, !Rmult_assoc, <- !exp_plus.
  apply Rmult_lt_compat_l; [lra|]. apply exp_increasing.
  rewrite !ln_mult by (lra || (apply Rinv_0_lt_compat; lra)).
  assert (ln fm1 < ln fm2) by (apply ln_increasing; lra).
  assert (ln K1 <= ln K2).
  { destruct HK as [HK| ->]; [|lra]. left. apply ln_increasing; lra. }
  simpl. lra.
Qed.

End Monotonicity.

(** ** Larger bodies: crater, blast and burn radius *)

Section LargerBodies.
Import ImpactCalculator.

Ltac solve_elem :=
  repeat first [apply list_elem_of_here | apply list_elem_of_further].

Lemma surviving_final_state p :
  survives p ->
  AtmosphereCalculator.finalMass (atmosphereResultsOf p)
  = AtmosphereCalculator.calculateFinalMass
      (calculateMass (diameter p) (asteroidDensityOf p))
      (diameter p) (velocity p) (asteroidDensityOf p)
  /\ AtmosphereCalculator.finalVelocity (atmosphereResultsOf p)
     = AtmosphereCalculator.calculateFinalVelocity
         (velocity p) (diameter p) (asteroidDensityOf p).
Proof.
  intros Hs. by rewrite (atmosphereResultsOf_survives p Hs).
Qed.

(** C4, amended.  With the velocity, the angle and the density held fixed
    and both bodies reaching the ground, a strictly larger diameter gives
    a strictly larger first-degree burn radius, and, when the angle is not
    0, a strictly larger crater diameter and a strictly larger 1 psi
    blast radius. *)
Theorem C4_larger_body_larger_effects (p1 p2 : ImpactParameters) :
  validParameters p1 -> validParameters p2 ->
  velocity p1 = velocity p2 -> angle p1 = angle p2 ->
  composition p1 = composition p2 -> density p1 = density p2 ->
  survives p1 -> survives p2 ->
  diameter p1 < diameter p2 ->
  exists c1 c2 b1 b2 t1 t2,
    calculateImpact p1 !! "craterDiameter" = Some (num c1)
    /\ calculateImpact p2 !! "craterDiameter" = Some (num c2)
    /\ calculateImpact p1 !! "blastRadius1psi" = Some (num b1)
    /\ calculateImpact p2 !! "blastRadius1psi" = Some (num b2)
    /\ calculateImpact p1 !! "thermalRadius1deg" = Some (num t1)
    /\ calculateImpact p2 !! "thermalRadius1deg" = Some (num t2)
    /\ t1 < t2
    /\ (0 < angle p1 -> c1 < c2 /\ b1 < b2).
Proof.
  intros Hvalid1 Hvalid2 Hv Ha Hc Hdens Hs1 Hs2 Hd.
  exists (CraterCalculator.diameter (craterResultsOf p1)),
    (CraterCalculator.diameter (craterResultsOf p2)),
    (BlastWaveCalculator.radius1psi (blastResultsOf p1)),
    (BlastWaveCalculator.radius1psi (blastResultsOf p2)),
    (ThermalCalculator.radius1deg (thermalResultsOf p1)),
    (ThermalCalculator.radius1deg (thermalResultsOf p2)).
  do 6 (split; [apply lookup_phase1; [done|solve_elem]|]).
  pose proof (asteroidDensityOf_pos p1 Hvalid1) as Hrho.
  assert (Hrho2 : asteroidDensityOf p2 = asteroidDensityOf p1).
  { unfold asteroidDensityOf. by rewrite Hc, Hdens. }
  pose proof (finalEnergyOf_bounds p1 Hvalid1 Hs1) as [HE1 _].
  pose proof (finalEnergyOf_bounds p2 Hvalid2 Hs2) as [HE2 _].
  pose proof (surviving_final_state p1 Hs1) as [Hfm1 Hfv1].
  pose proof (surviving_final_state p2 Hs2) as [Hfm2 Hfv2].
  rewrite Hrho2, <- Hv in Hfm2, Hfv2.
  pose proof Hvalid1 as (Hd1 & Hv1 & [_ H90] & _).
  set (rho := asteroidDensityOf p1) in *.
  set (v := velocity p1) in *.
  set (d1 := diameter p1) in *. set (d2 := diameter p2) in *.
  pose proof (calculateMass_pos d1 rho Hd1 Hrho) as Hm1.
  pose proof (calculateFinalMass_bounds _ d1 v rho Hm1 Hd1 Hv1 Hrho)
    as [Hfm1pos _].
  pose proof (calculateFinalVelocity_bounds d1 v rho Hd1 Hv1 Hrho)
    as [Hfv1pos _].
  pose proof (calculateFinalMass_increasing d1 d2 v rho (conj Hd1 Hd)
                Hv1 Hrho) as Hfm.
  pose proof (calculateFinalVelocity_monotone d1 d2 v rho (conj Hd1 Hd)
                Hv1 Hrho) as Hfv.
  rewrite <- Hfm1, <- Hfm2 in Hfm. rewrite <- Hfm1 in Hfm1pos.
  rewrite <- Hfv1, <- Hfv2 in Hfv. rewrite <- Hfv1 in Hfv1pos.
  assert (HEeq : forall p, finalEnergyOf p
            = 0.5 * AtmosphereCalculator.finalMass (atmosphereResultsOf p)
              * (AtmosphereCalculator.finalVelocity (atmosphereResultsOf p)
                 * 1000
                 * (AtmosphereCalculator.finalVelocity (atmosphereResultsOf p)
                    * 1000))).
  { intros p. unfold finalEnergyOf, calculateKineticEnergy. cbv zeta.
    by rewrite Math_pow_2. }
  set (fm1 := AtmosphereCalculator.finalMass (atmosphereResultsOf p1)) in *.
  set (fm2 := AtmosphereCalculator.finalMass (atmosphereResultsOf p2)) in *.
  set (fv1 := AtmosphereCalculator.finalVelocity (atmosphereResultsOf p1))
    in *.
  set (fv2 := AtmosphereCalculator.finalVelocity (atmosphereResultsOf p2))
    in *.
  assert (Hsq : 0 < fv1 * 1000 * (fv1 * 1000)
                <= fv2 * 1000 * (fv2 * 1000)) by (split; nra).
  assert (HE : finalEnergyOf p1 < finalEnergyOf p2).
  { rewrite (HEeq p1), (HEeq p2). fold fm1 fm2 fv1 fv2.
    apply Rle_lt_trans with (0.5 * fm1 * (fv2 * 1000 * (fv2 * 1000))).
    - apply Rmult_le_compat_l; [lra|]. apply Hsq.
    - apply Rmult_lt_compat_r; [lra|]. lra. }
  split.
  - unfold thermalResultsOf, ThermalCalculator.calculateThermalRadiation.
    cbv zeta. cbn [ThermalCalculator.radius1deg].
    apply calculateBurnRadius_increasing; [done|].
    unfold DAMAGE_THRESHOLDS.THERMAL.FIRST_DEGREE_BURN. lra.
  - intros Hangle.
    pose proof (sin_degrees_pos (angle p1) (conj Hangle H90)) as Hsin.
    split.
    + rewrite (craterResultsOf_diameter p1) by done.
      rewrite (craterResultsOf_diameter p2) by (done || by rewrite <- Ha).
      fold fm1 fm2. rewrite <- Ha.
      set (s := sin (angle p1 * PI / 180)) in *.
      replace (finalEnergyOf p1 * s / (2700 * 9.81))
        with (fm1 * (0.5 * (fv1 * 1000 * (fv1 * 1000)) * s / (2700 * 9.81)))
        by (rewrite (HEeq p1); fold fm1 fv1; field; lra).
      replace (finalEnergyOf p2 * s / (2700 * 9.81))
        with (fm2 * (0.5 * (fv2 * 1000 * (fv2 * 1000)) * s / (2700 * 9.81)))
        by (rewrite (HEeq p2); fold fm2 fv2; field; lra).
      apply crater_scaling_increasing; [lra|]. split.
      * apply Rdiv_lt_0_compat; [|lra].
        apply Rmult_lt_0_compat; [lra|done].
      * apply Rmult_le_compat_r; [lra|].
        apply Rmult_le_compat_r; [lra|]. lra.
    + unfold blastResultsOf, BlastWaveCalculator.calculateBlastWave,
        BlastWaveCalculator.calculateEffectiveEnergy.
      cbv zeta. cbn [BlastWaveCalculator.radius1psi]. rewrite <- Ha.
      apply calculateOverpressureRadius_increasing.
      * split; [by apply Rmult_le_pos; lra|].
        by apply Rmult_lt_compat_r.
      * unfold DAMAGE_THRESHOLDS.OVERPRESSURE.LIGHT_DAMAGE. lra.
Qed.

Lemma tunguskaLarger_valid : validParameters Presets.tunguskaLarger.
Proof.
  unfold validParameters, Presets.tunguskaLarger.
  cbn [diameter velocity angle composition density latitude longitude].
  split; [lra|]. split; [lra|]. split; [lra|]. split; [discriminate|].
  split; eexists; (split; [reflexivity|lra]).
Qed.

Lemma grazingLarger_valid : validParameters Presets.grazingLarger.
Proof.
  unfold validParameters, Presets.grazingLarger.
  cbn [diameter velocity angle composition density latitude longitude].
  split; [lra|]. split; [lra|]. split; [lra|]. split; [discriminate|].
  split; eexists; (split; [reflexivity|lra]).
Qed.

Lemma survives_100m_at_27 p :
  diameter p = 100 -> velocity p = 27 -> asteroidDensityOf p = 2700 ->
  survives p.
Proof.
  intros Hd Hv Hrho. apply survives_of_diameter. rewrite Hd, Hv, Hrho.
  pose proof tunguska_survival_diameter. lra.
Qed.

Lemma C4_witness :
  exists c1 c2 b1 b2 t1 t2,
    calculateImpact Presets.tunguska !! "craterDiameter" = Some (num c1)
    /\ calculateImpact Presets.tunguskaLarger !! "craterDiameter"
       = Some (num c2)
    /\ calculateImpact Presets.tunguska !! "blastRadius1psi" = Some (num b1)
    /\ calculateImpact Presets.tunguskaLarger !! "blastRadius1psi"
       = Some (num b2)
    /\ calculateImpact Presets.tunguska !! "thermalRadius1deg"
       = Some (num t1)
    /\ calculateImpact Presets.tunguskaLarger !! "thermalRadius1deg"
       = Some (num t2)
    /\ t1 < t2
    /\ (0 < angle Presets.tunguska -> c1 < c2 /\ b1 < b2).
Proof.
  apply (C4_larger_body_larger_effects Presets.tunguska
           Presets.tunguskaLarger);
    try reflexivity.
  - apply tunguska_valid.
  - apply tunguskaLarger_valid.
  - apply tunguska_survives.
  - by apply survives_100m_at_27.
  - unfold Presets.tunguska, Presets.tunguskaLarger. cbn [diameter]. lra.
Defined.

(** C4 as stated fails.  On a trajectory of 0 degrees a body of 100 m
    digs the same crater as a body of 60 m with the same velocity, angle
    and density, and raises the same 1 psi blast radius: both are 0 for
    both bodies. *)
Lemma C4_counterexample :
  let p1 := Presets.grazing in
  let p2 := Presets.grazingLarger in
  validParameters p1 /\ validParameters p2
  /\ velocity p1 = velocity p2 /\ angle p1 = angle p2
  /\ composition p1 = composition p2 /\ density p1 = density p2
  /\ survives p1 /\ survives p2
  /\ diameter p1 < diameter p2
  /\ exists c1 c2 b1 b2,
       calculateImpact p1 !! "craterDiameter" = Some (num c1)
       /\ calculateImpact p2 !! "craterDiameter" = Some (num c2)
       /\ calculateImpact p1 !! "blastRadius1psi" = Some (num b1)
       /\ calculateImpact p2 !! "blastRadius1psi" = Some (num b2)
       /\ ~ c1 < c2 /\ ~ b1 < b2.
Proof.
  intros p1 p2.
  assert (Hs2 : survives p2) by (by apply survives_100m_at_27).
  split; [apply grazing_valid|]. split; [apply grazingLarger_valid|].
  do 4 (split; [reflexivity|]).
  split; [apply grazing_survives|]. split; [done|].
  split; [unfold p1, p2, Presets.grazing, Presets.grazingLarger;
          cbn [diameter]; lra|].
  destruct (grazing_crater_and_blast p1 eq_refl grazing_survives)
    as (Hc1 & _ & Hb1 & _).
  destruct (grazing_crater_and_blast p2 eq_refl Hs2) as (Hc2 & _ & Hb2 & _).
  exists 0, 0, 0, 0. repeat (split; [done|]). split; lra.
Qed.

End LargerBodies.

(** ** What does hold of the burn radii and of the effect radius *)

Section Nearby.

Lemma calculateBurnRadius_antitone E t1 t2 :
  0 < E -> 0 < t1 <= t2 ->
  ThermalCalculator.calculateBurnRadius (ThermalCalculator.calculateFireball E) t2
  <= ThermalCalculator.calculateBurnRadius
       (ThermalCalculator.calculateFireball E) t1.
Proof.
  intros HE [Ht1 Ht]. pose proof PI_bounds as [Hpi _].
  pose proof (fireball_radius_pos E HE) as Hr.
  unfold ThermalCalculator.calculateBurnRadius. cbv zeta.
  rewrite !burn_radius_closed
    by (done || (cbn [ThermalCalculator.calculateFireball
                        ThermalCalculator.totalRadiantEnergy]; lra) || lra).
  apply Rle_max_compat_r.
  cbn [ThermalCalculator.calculateFireball
         ThermalCalculator.totalRadiantEnergy].
  assert (0 < 4 * PI * (t1 * 10000)) by nra.
  assert (0 < 4 * PI * (t2 * 10000)) by nra.
  apply sqrt_le_1_alt. apply Rmult_le_compat_l; [lra|].
  apply Rinv_le_contravar; [done|]. nra.
Qed.

(** The three burn radii are always in the weak order 3rd <= 2nd <= 1st,
    and none is below the fireball radius. *)
Lemma thermal_radii_weak_order E diameter :
  0 < E ->
  let t := ThermalCalculator.calculateThermalRadiation E diameter in
  ThermalCalculator.radius (ThermalCalculator.fireball t)
  <= ThermalCalculator.radius3deg t
  /\ ThermalCalculator.radius3deg t <= ThermalCalculator.radius2deg t
  /\ ThermalCalculator.radius2deg t <= ThermalCalculator.radius1deg t.
Proof.
  intros HE t. subst t.
  unfold ThermalCalculator.calculateThermalRadiation. cbv zeta.
  cbn [ThermalCalculator.radius1deg ThermalCalculator.radius2deg
         ThermalCalculator.radius3deg ThermalCalculator.fireball].
  split; [apply calculateBurnRadius_ge_fireball|].
  split; apply calculateBurnRadius_antitone; try done;
    unfold DAMAGE_THRESHOLDS.THERMAL.FIRST_DEGREE_BURN,
      DAMAGE_THRESHOLDS.THERMAL.SECOND_DEGREE_BURN,
      DAMAGE_THRESHOLDS.THERMAL.THIRD_DEGREE_BURN; lra.
Qed.

Lemma max_spread_cases xs :
  match max_spread xs with
  | Finite m => xs <> [] /\ Forall (fun x => x <= m) xs
  | NegInfinity => xs = []
  | _ => False
  end.
Proof.
  induction xs as [|x xs IH]; [done|].
  unfold max_spread in *. cbn [foldr].
  destruct (foldr _ NegInfinity xs) as [m| | |]; try done.
  - destruct IH as [_ IH]. split; [done|]. constructor; [apply Rmax_l|].
    eapply Forall_impl; [exact IH|]. cbn. intros y Hy.
    eapply Rle_trans; [exact Hy|apply Rmax_r].
  - subst xs. split; [done|]. constructor; [lra|constructor].
Qed.

Lemma max_spread_nonempty x xs :
  exists m, max_spread (x :: xs) = Finite m /\ x <= m.
Proof.
  pose proof (max_spread_cases (x :: xs)) as H.
  destruct (max_spread (x :: xs)) as [m| | |]; try done.
  destruct H as [_ H]. apply Forall_cons in H as [Hx _]. by exists m.
Qed.

(** When at least one zone passes its floor the effect radius of a
    significant result is a number above 500 m. *)
Lemma effectRadius_of_zones E loc craterDiameter :
  let res := SeismicCalculator.calculateSeismicEffects E loc craterDiameter in
  SeismicCalculator.significant res = true ->
  SeismicCalculator.zones res <> [] ->
  exists r, SeismicCalculator.effectRadius res = Finite r /\ 500 < r.
Proof.
  intros res. subst res. unfold SeismicCalculator.calculateSeismicEffects.
  destruct (loc !! "latitude") as [lat|]; [|done].
  destruct (loc !! "longitude") as [lon|]; [|done].
  cbv zeta. case_decide; [done|].
  cbn [SeismicCalculator.significant SeismicCalculator.zones
         SeismicCalculator.effectRadius].
  intros _ Hne.
  set (zs := SeismicCalculator.calculateIntensityZones _ _ _ _ _) in *.
  assert (Hall : Forall (fun z => 500 < SeismicCalculator.radius z) zs).
  { unfold zs, SeismicCalculator.calculateIntensityZones. cbv zeta.
    rewrite merge_sort_Permutation.
    eapply Forall_impl; [apply zonesLoop_from_levels|].
    cbn. intros z (l & _ & _ & _ & Hr).
    eapply Rle_lt_trans; [apply Rmax_r|exact Hr]. }
  destruct zs as [|z zs']; [done|].
  apply Forall_cons in Hall as [Hz _].
  destruct (max_spread_nonempty (SeismicCalculator.radius z)
              (map SeismicCalculator.radius zs')) as (m & Hm & Hle).
  exists m. split; [exact Hm|lra].
Qed.

(** The ground-motion summary guards its two maxima against the empty
    zone list; the effect radius does not. *)
Lemma calculateGroundMotionParameters_no_zone M :
  SeismicCalculator.peakGroundAcceleration
    (SeismicCalculator.calculateGroundMotionParameters M []) = Finite 0
  /\ SeismicCalculator.maxIntensity
       (SeismicCalculator.calculateGroundMotionParameters M []) = Finite 0
  /\ max_spread (map SeismicCalculator.radius []) = NegInfinity.
Proof. by repeat split. Qed.

End Nearby.

(** * Further properties of the code *)

(** ** Atmospheric entry: what reaches the ground *)

Section AtmosphericEntry.
Import AtmosphereCalculator.

Lemma calculateSurvivalDiameter_monotone v1 v2 rho1 rho2 :
  0 < v1 <= v2 -> 0 < rho2 <= rho1 ->
  calculateSurvivalDiameter v2 rho2 <= calculateSurvivalDiameter v1 rho1.
Proof.
  intros Hv Hrho.
  rewrite !calculateSurvivalDiameter_formula by lra.
  assert (H1 : 0 < sqrt (v1 / 20)) by (apply sqrt_lt_R0; lra).
  assert (H2 : sqrt (v1 / 20) <= sqrt (v2 / 20)) by (apply sqrt_le_1_alt; lra).
  assert (H3 : 0 <= sqrt (rho2 / 3000)) by apply sqrt_pos.
  assert (H4 : sqrt (rho2 / 3000) <= sqrt (rho1 / 3000))
    by (apply sqrt_le_1_alt; lra).
  apply div_le_upper; [lra|].
  unfold Rdiv. rewrite Rmult_assoc, (Rmult_comm (/ _)), <- Rmult_assoc.
  apply div_le_lower; [lra|]. nra.
Qed.

Lemma survivesAtmosphere_iff d v a rho m :
  survivesAtmosphere (calculateAtmosphericEntry d v a rho m) = true
  <-> calculateSurvivalDiameter v rho <= d.
Proof.
  unfold calculateAtmosphericEntry. cbv zeta.
  destruct (bool_decide_reflect (calculateSurvivalDiameter v rho <= d));
    cbn [negb survivesAtmosphere]; split; (done || intros; done).
Qed.

(** X1.  The survival test of the atmosphere stage is monotone in its
    three inputs: when a body reaches the ground, so does every body that
    is at least as large, at least as fast and at most as dense.  (The
    threshold [50 * sqrt(density/3000) / sqrt(velocity/20)] grows with the
    density and shrinks with the velocity.) *)
Theorem X1_survival_monotone d1 d2 v1 v2 a1 a2 rho1 rho2 m1 m2 :
  0 < v1 <= v2 -> 0 < rho2 <= rho1 -> d1 <= d2 ->
  survivesAtmosphere (calculateAtmosphericEntry d1 v1 a1 rho1 m1) = true ->
  survivesAtmosphere (calculateAtmosphericEntry d2 v2 a2 rho2 m2) = true.
Proof.
  intros Hv Hrho Hd. rewrite !survivesAtmosphere_iff. intros H1.
  pose proof (calculateSurvivalDiameter_monotone v1 v2 rho1 rho2 Hv Hrho).
  lra.
Qed.

Lemma X1_witness :
  survivesAtmosphere (calculateAtmosphericEntry 100 30 45 2700 1) = true.
Proof.
  apply (X1_survival_monotone 60 100 27 30 30 45 2700 2700 1 1);
    [lra | lra | lra |].
  apply survivesAtmosphere_iff, tunguska_survival_diameter.
Defined.

Lemma surviving_entry_mass d v a rho m :
  0 < d -> 0 < v -> 0 < rho -> 0 < m ->
  let r := calculateAtmosphericEntry d v a rho m in
  survivesAtmosphere r = true ->
  finalMass r = calculateFinalMass m d v rho
  /\ 0.1 * m <= finalMass r < m.
Proof.
  intros Hd Hv Hrho Hm r Hs. subst r.
  apply survivesAtmosphere_iff in Hs.
  rewrite (calculateAtmosphericEntry_survives _ _ _ _ _ Hs).
  cbn [finalMass]. split; [done|].
  pose proof (calculateMassLossRatio_bounds d v rho Hd Hv Hrho) as Hl.
  unfold calculateFinalMass. cbv zeta. split; nra.
Qed.

(** X2.  A body that reaches the ground has lost mass and speed, within
    fixed bounds: it keeps at least 10 % and less than all of its mass,
    and at least 73 % and less than all of its velocity.  The floor of
    50 % that [calculateFinalVelocity] puts under the velocity retention
    is never reached. *)
Theorem X2_entry_losses_bounded d v a rho m :
  0 < d -> 0 < v -> 0 < rho -> 0 < m ->
  let r := calculateAtmosphericEntry d v a rho m in
  survivesAtmosphere r = true ->
  0.1 * m <= finalMass r < m
  /\ 0.73 * v <= finalVelocity r < v
  /\ finalVelocity r = v * (1 - calculateMassLossRatio d v rho * 0.3).
Proof.
  intros Hd Hv Hrho Hm r Hs. subst r.
  apply survivesAtmosphere_iff in Hs.
  rewrite (calculateAtmosphericEntry_survives _ _ _ _ _ Hs).
  cbn [finalMass finalVelocity].
  pose proof (calculateMassLossRatio_bounds d v rho Hd Hv Hrho) as Hl.
  unfold calculateFinalMass, calculateFinalVelocity. cbv zeta.
  rewrite Rmax_left by lra.
  split; [split; nra|]. split; [split; nra|]. reflexivity.
Qed.

Lemma X2_witness :
  let r := calculateAtmosphericEntry 60 27 30 2700 1 in
  0.1 * 1 <= finalMass r < 1
  /\ 0.73 * 27 <= finalVelocity r < 27
  /\ finalVelocity r = 27 * (1 - calculateMassLossRatio 60 27 2700 * 0.3).
Proof.
  apply (X2_entry_losses_bounded 60 27 30 2700 1); [lra | lra | lra | lra |].
  apply survivesAtmosphere_iff, tunguska_survival_diameter.
Defined.

(** X3.  The diameter reported for the surviving body is consistent with
    its mass: [calculateMass] of the final diameter gives the final mass
    back.  The final diameter is smaller than the initial one and larger
    than 46 % of it. *)
Theorem X3_final_diameter_round_trip d v a rho :
  0 < d -> 0 < v -> 0 < rho ->
  let r :=
    calculateAtmosphericEntry d v a rho
      (ImpactCalculator.calculateMass d rho) in
  survivesAtmosphere r = true ->
  ImpactCalculator.calculateMass (finalDiameter r) rho = finalMass r
  /\ 0.46 * d < finalDiameter r < d.
Proof.
  intros Hd Hv Hrho r Hs.
  pose proof (calculateMass_pos d rho Hd Hrho) as Hm.
  destruct (surviving_entry_mass d v a rho _ Hd Hv Hrho Hm Hs)
    as (_ & Hfm).
  fold r in Hfm.
  assert (Hfd : finalDiameter r = pow (finalMass r / rho * 6 / PI) (1 / 3)).
  { subst r. apply survivesAtmosphere_iff in Hs.
    by rewrite (calculateAtmosphericEntry_survives _ _ _ _ _ Hs). }
  assert (Hround :
            ImpactCalculator.calculateMass (finalDiameter r) rho = finalMass r).
  { rewrite Hfd. unfold ImpactCalculator.calculateMass. cbv zeta.
    apply projectileMass_is_finalMass; lra. }
  assert (Hpos : 0 < finalDiameter r).
  { rewrite Hfd. apply Math_pow_positive. pose proof PI_bounds.
    apply Rdiv_lt_0_compat; [|lra].
    apply Rmult_lt_0_compat; [|lra]. apply Rdiv_lt_0_compat; lra. }
  split; [done|]. split.
  - apply Rnot_le_lt. intros Hle.
    assert (ImpactCalculator.calculateMass (finalDiameter r) rho
            <= ImpactCalculator.calculateMass (0.46 * d) rho).
    { destruct Hle as [Hlt | Heq]; [|rewrite Heq; lra].
      apply Rlt_le, calculateMass_increasing; lra. }
    assert (ImpactCalculator.calculateMass (0.46 * d) rho
            = 0.097336 * ImpactCalculator.calculateMass d rho).
    { unfold ImpactCalculator.calculateMass. cbv zeta.
      rewrite !Math_pow_3. lra. }
    lra.
  - apply Rnot_le_lt. intros Hle.
    assert (ImpactCalculator.calculateMass d rho
            <= ImpactCalculator.calculateMass (finalDiameter r) rho).
    { destruct Hle as [Hlt | Heq]; [|rewrite Heq; lra].
      apply Rlt_le, calculateMass_increasing; lra. }
    lra.
Qed.

Lemma X3_witness :
  let r :=
    calculateAtmosphericEntry 60 27 30 2700
      (ImpactCalculator.calculateMass 60 2700) in
  ImpactCalculator.calculateMass (finalDiameter r) 2700 = finalMass r
  /\ 0.46 * 60 < finalDiameter r < 60.
Proof.
  apply (X3_final_diameter_round_trip 60 27 30 2700); [lra | lra | lra |].
  apply survivesAtmosphere_iff, tunguska_survival_diameter.
Defined.

End AtmosphericEntry.

(** ** The shape of the aggregate result *)

Section ResultShape.
Import ImpactCalculator.

Ltac by_computation :=
  refine (bool_decide_unpack _ _); vm_compute; exact I.

Ltac solve_elem :=
  repeat first [apply list_elem_of_here | apply list_elem_of_further].

Lemma dom_assign target source :
  dom (assign target source) = dom target ∪ list_to_set source.*1.
Proof.
  unfold assign. revert target.
  induction source as [|[k v] source IH]; intros target; cbn [foldl].
  - cbn. by rewrite (right_id_L ∅ (∪)).
  - rewrite IH. cbn [fst snd fmap list_fmap list_to_set].
    rewrite dom_insert_L, (comm_L (∪) {[k]}). by rewrite (assoc_L (∪)).
Qed.

Lemma calculateImpact_airburst p :
  AtmosphereCalculator.survivesAtmosphere (atmosphereResultsOf p) = false ->
  calculateImpact p
  = assign
      (object (basicFields p (asteroidDensityOf p) (massOf p)
                 (calculateKineticEnergy (massOf p) (velocity p))
                 (calculateMomentum (massOf p) (velocity p))
                 (atmosphereResultsOf p)))
      (airburstFields (atmosphereResultsOf p)).
Proof.
  intros H. unfold calculateImpact. cbv zeta.
  fold (asteroidDensityOf p). fold (massOf p). fold (atmosphereResultsOf p).
  by rewrite H.
Qed.

Lemma airburst_entry p :
  calculateImpact p !! "survivesAtmosphere" = Some (VBool false) ->
  AtmosphereCalculator.survivesAtmosphere (atmosphereResultsOf p) = false.
Proof.
  rewrite calculateImpact_survives_key. intros H. by injection H.
Qed.

Lemma lookup_basic p k v :
  (k, v) ∈ basicFields p (asteroidDensityOf p) (massOf p)
             (calculateKineticEnergy (massOf p) (velocity p))
             (calculateMomentum (massOf p) (velocity p))
             (atmosphereResultsOf p) ->
  calculateImpact p !! k = Some v.
Proof.
  intros Hin.
  assert (Hk : k ∈ basicKeys).
  { rewrite <- (basicFields_keys p (asteroidDensityOf p) (massOf p)
                  (calculateKineticEnergy (massOf p) (velocity p))
                  (calculateMomentum (massOf p) (velocity p))
                  (atmosphereResultsOf p)).
    apply list_elem_of_fmap. by exists (k, v). }
  pose proof basic_keys_fresh as Hf. rewrite Forall_forall in Hf.
  destruct (Hf k Hk) as (Ha & H1 & H2).
  assert (Hobj : object (basicFields p (asteroidDensityOf p) (massOf p)
                 (calculateKineticEnergy (massOf p) (velocity p))
                 (calculateMomentum (massOf p) (velocity p))
                 (atmosphereResultsOf p)) !! k = Some v).
  { apply lookup_assign_in; [|done].
    rewrite basicFields_keys. apply NoDup_basicKeys. }
  destruct (AtmosphereCalculator.survivesAtmosphere (atmosphereResultsOf p))
    eqn:Hs.
  - rewrite calculateImpact_surviving
      by (unfold survives; rewrite calculateImpact_survives_key;
          fold (asteroidDensityOf p); fold (massOf p);
          fold (atmosphereResultsOf p); by rewrite Hs).
    rewrite !lookup_assign_notin
      by (by rewrite ?phase1Fields_keys, ?phase2Fields_keys).
    done.
  - rewrite calculateImpact_airburst by done.
    rewrite lookup_assign_notin by (by rewrite airburstFields_keys).
    done.
Qed.

Lemma lookup_airburst p k v :
  calculateImpact p !! "survivesAtmosphere" = Some (VBool false) ->
  (k, v) ∈ airburstFields (atmosphereResultsOf p) ->
  calculateImpact p !! k = Some v.
Proof.
  intros Hs%airburst_entry Hin. rewrite calculateImpact_airburst by done.
  apply lookup_assign_in; [|done].
  rewrite airburstFields_keys. apply NoDup_airburstKeys.
Qed.

Lemma airburst_entry_result p :
  AtmosphereCalculator.survivesAtmosphere (atmosphereResultsOf p) = false ->
  atmosphereResultsOf p
  = AtmosphereCalculator.mkEntry false
      (AtmosphereCalculator.calculateAirburstAltitude
         (diameter p) (velocity p) (asteroidDensityOf p))
      (massOf p * pow (velocity p * 1000) 2 * 0.5) 0 0 0.
Proof.
  unfold atmosphereResultsOf,
    AtmosphereCalculator.calculateAtmosphericEntry. cbv zeta.
  destruct (bool_decide _); cbn [negb]; [done|]. done.
Qed.

(** X4.  When the body does not reach the ground, the airburst energy of
    the result is its kinetic energy at entry (the two are computed in
    different places), the airburst altitude is at least 10 km, and the
    final velocity, mass and diameter are reported as zero. *)
Theorem X4_airburst_report (p : ImpactParameters) :
  calculateImpact p !! "survivesAtmosphere" = Some (VBool false) ->
  let res := calculateImpact p in
  exists e alt,
    res !! "kineticEnergy" = Some (num e)
    /\ res !! "airburstEnergy" = Some (num e)
    /\ res !! "airburstAltitude" = Some (num alt)
    /\ 10000 <= alt
    /\ res !! "finalVelocity" = Some (num 0)
    /\ res !! "finalMass" = Some (num 0)
    /\ res !! "finalDiameter" = Some (num 0).
Proof.
  intros Hs res. subst res.
  pose proof (airburst_entry_result p (airburst_entry p Hs)) as Hatm.
  exists (calculateKineticEnergy (massOf p) (velocity p)),
         (AtmosphereCalculator.calculateAirburstAltitude
            (diameter p) (velocity p) (asteroidDensityOf p)).
  assert (Hbasic : forall k f,
             (k, num (f (atmosphereResultsOf p)))
             ∈ basicFields p (asteroidDensityOf p) (massOf p)
                 (calculateKineticEnergy (massOf p) (velocity p))
                 (calculateMomentum (massOf p) (velocity p))
                 (atmosphereResultsOf p) ->
             f (AtmosphereCalculator.mkEntry false
                  (AtmosphereCalculator.calculateAirburstAltitude
                     (diameter p) (velocity p) (asteroidDensityOf p))
                  (massOf p * pow (velocity p * 1000) 2 * 0.5) 0 0 0) = 0 ->
             calculateImpact p !! k = Some (num 0)).
  { intros k f Hin Hf. rewrite <- Hf, <- Hatm. by apply lookup_basic. }
  assert (Hair : forall k f,
             (k, num (f (atmosphereResultsOf p)))
             ∈ airburstFields (atmosphereResultsOf p) ->
             calculateImpact p !! k
             = Some (num (f (AtmosphereCalculator.mkEntry false
                  (AtmosphereCalculator.calculateAirburstAltitude
                     (diameter p) (velocity p) (asteroidDensityOf p))
                  (massOf p * pow (velocity p * 1000) 2 * 0.5) 0 0 0)))).
  { intros k f Hin. rewrite <- Hatm. by apply lookup_airburst. }
  split; [apply lookup_basic; unfold basicFields; solve_elem|].
  split.
  { replace (calculateKineticEnergy (massOf p) (velocity p))
      with (massOf p * pow (velocity p * 1000) 2 * 0.5)
      by (unfold calculateKineticEnergy; cbv zeta; lra).
    apply (Hair _ AtmosphereCalculator.airburstEnergy).
    unfold airburstFields. solve_elem. }
  split.
  { apply (Hair _ AtmosphereCalculator.airburstAltitude).
    unfold airburstFields. solve_elem. }
  split; [apply Rmax_r|].
  split; [|split].
  - apply (Hbasic _ AtmosphereCalculator.finalVelocity); [|done].
    unfold basicFields. solve_elem.
  - apply (Hbasic _ AtmosphereCalculator.finalMass); [|done].
    unfold basicFields. solve_elem.
  - apply (Hbasic _ AtmosphereCalculator.finalDiameter); [|done].
    unfold basicFields. solve_elem.
Qed.

Lemma chelyabinsk_airburst :
  calculateImpact Presets.chelyabinsk !! "survivesAtmosphere"
  = Some (VBool false).
Proof.
  rewrite calculateImpact_survives_key.
  pose proof chelyabinsk_below_survival as H.
  rewrite <- calculateSurvivalDiameter_formula in H
    by (unfold Presets.chelyabinsk; cbn [velocity]; lra).
  by rewrite (calculateAtmosphericEntry_airburst _ _ _ _ _ H).
Qed.

Lemma X4_witness :
  let res := calculateImpact Presets.chelyabinsk in
  exists e alt,
    res !! "kineticEnergy" = Some (num e)
    /\ res !! "airburstEnergy" = Some (num e)
    /\ res !! "airburstAltitude" = Some (num alt)
    /\ 10000 <= alt
    /\ res !! "finalVelocity" = Some (num 0)
    /\ res !! "finalMass" = Some (num 0)
    /\ res !! "finalDiameter" = Some (num 0).
Proof.
  apply (X4_airburst_report Presets.chelyabinsk), chelyabinsk_airburst.
Defined.

Lemma dom_object fields : dom (object fields) = list_to_set fields.*1.
Proof.
  unfold object. rewrite dom_assign, dom_empty_L. by rewrite (left_id_L ∅ (∪)).
Qed.

Lemma NoDup_airburst_result : NoDup (basicKeys ++ airburstKeys).
Proof. by_computation. Qed.

Lemma NoDup_surviving_result : NoDup (basicKeys ++ phase1Keys ++ phase2Keys).
Proof. by_computation. Qed.

(** X5.  The result object has one of two exact shapes.  On the airburst
    return it holds the 12 basic keys and the 2 airburst keys and nothing
    else; when the body reaches the ground it holds the 12 basic keys, the
    14 keys of the crater, blast and thermal stages and the 14 keys of the
    seismic and tsunami stages, and neither airburst key. *)
Theorem X5_result_keys (p : ImpactParameters) :
  let res := calculateImpact p in
  (res !! "survivesAtmosphere" = Some (VBool false)
   /\ dom res =@{gset string} list_to_set (basicKeys ++ airburstKeys)
   /\ size res = 14%nat)
  \/ (res !! "survivesAtmosphere" = Some (VBool true)
      /\ dom res
         =@{gset string} list_to_set (basicKeys ++ phase1Keys ++ phase2Keys)
      /\ size res = 40%nat).
Proof.
  intros res. subst res.
  pose proof (calculateImpact_survives_key p) as Hkey.
  fold (asteroidDensityOf p) in Hkey. fold (massOf p) in Hkey.
  fold (atmosphereResultsOf p) in Hkey.
  destruct (AtmosphereCalculator.survivesAtmosphere (atmosphereResultsOf p))
    eqn:Hs.
  - right. split; [done|].
    assert (Hdom : dom (calculateImpact p)
              =@{gset string}
              list_to_set (basicKeys ++ phase1Keys ++ phase2Keys)).
    { rewrite calculateImpact_surviving by done.
      rewrite !dom_assign, dom_object.
      rewrite basicFields_keys, phase1Fields_keys, phase2Fields_keys.
      rewrite !list_to_set_app_L. by rewrite (assoc_L (∪)). }
    split; [done|].
    rewrite <- size_dom, Hdom, size_list_to_set
      by apply NoDup_surviving_result.
    reflexivity.
  - left. split; [done|].
    assert (Hdom : dom (calculateImpact p)
              =@{gset string} list_to_set (basicKeys ++ airburstKeys)).
    { rewrite calculateImpact_airburst by done.
      rewrite dom_assign, dom_object.
      rewrite basicFields_keys, airburstFields_keys.
      by rewrite list_to_set_app_L. }
    split; [done|].
    rewrite <- size_dom, Hdom, size_list_to_set
      by apply NoDup_airburst_result.
    reflexivity.
Qed.

End ResultShape.

(** ** Crater geometry *)

Section CraterGeometry.
Import CraterCalculator.

Lemma calculateCraterDiameter_pos e v m :
  0 < e -> 0 < m -> 0 < calculateCraterDiameter e v m.
Proof.
  intros He Hm. unfold calculateCraterDiameter. cbv zeta.
  assert (0 < targetDensity)
    by (unfold targetDensity, PHYSICS_CONSTANTS.EARTH_CRUST_DENSITY; lra).
  assert (0 < gravity)
    by (unfold gravity, PHYSICS_CONSTANTS.EARTH_GRAVITY; lra).
  assert (0 < pow (e / (targetDensity * gravity)) 0.25).
  { apply Math_pow_positive, Rdiv_lt_0_compat; [lra|].
    by apply Rmult_lt_0_compat. }
  assert (0 < pow (pow (m / targetDensity) (1 / 3)) (- 0.25)).
  { apply Math_pow_positive, Math_pow_positive, Rdiv_lt_0_compat; lra. }
  assert (0 < 1.161 * pow (e / (targetDensity * gravity)) 0.25) by lra.
  by apply Rmult_lt_0_compat.
Qed.

Lemma calculateCrater_diameter_pos d v a rho e :
  0 < d -> 0 < a <= 90 -> 0 < rho -> 0 < e ->
  0 < diameter (calculateCrater d v a rho e).
Proof.
  intros Hd Ha Hrho He. unfold calculateCrater. cbv zeta. cbn [diameter].
  apply calculateCraterDiameter_pos.
  - apply Rmult_lt_0_compat; [done|]. by apply sin_degrees_pos.
  - rewrite Math_pow_3. pose proof PI_bounds.
    assert (0 < d / 2 * (d / 2) * (d / 2))
      by (repeat apply Rmult_lt_0_compat; lra).
    assert (0 < 4 / 3 * PI) by lra.
    assert (0 < 4 / 3 * PI * (d / 2 * (d / 2) * (d / 2)))
      by (by apply Rmult_lt_0_compat).
    by apply Rmult_lt_0_compat.
Qed.

(** X6.  The dimensions of a crater follow from its diameter [D] alone and
    stay in fixed proportions to it: whenever the impact is not grazing,
    [D] is positive, the depth lies between [D/10] and [D/5], the rim
    height between [3 %] and [7 %] of [D], the volume is positive, and
    the ejecta reach at most [5 * D]. *)
Theorem X6_crater_proportions d v a rho e :
  0 < d -> 0 < v -> 0 < a <= 90 -> 0 < rho -> 0 < e ->
  let c := calculateCrater d v a rho e in
  0 < diameter c
  /\ 0.1 * diameter c <= depth c <= 0.2 * diameter c
  /\ 0.03 * diameter c <= rimHeight c <= 0.07 * diameter c
  /\ 0 < volume c
  /\ 0 < ejectaRange c <= 5 * diameter c.
Proof.
  intros Hd Hv Ha Hrho He c.
  pose proof (calculateCrater_diameter_pos d v a rho e Hd Ha Hrho He) as HD.
  fold c in HD. subst c. unfold calculateCrater in *. cbv zeta in *.
  cbn [diameter depth rimHeight volume ejectaRange] in *.
  set (D := calculateCraterDiameter _ _ _) in *.
  assert (Hdepth : 0.1 * D <= calculateCraterDepth D <= 0.2 * D).
  { unfold calculateCraterDepth. cbv zeta. case_decide; lra. }
  split; [done|]. split; [done|]. split.
  { unfold calculateRimHeight. cbv zeta. case_decide; lra. }
  split.
  { unfold calculateCraterVolume. cbv zeta. rewrite Math_pow_2.
    set (h := calculateCraterDepth D) in *. pose proof PI_bounds.
    assert (0 < h * h) by nra.
    assert (0 < 3 * (D / 2) - h) by lra.
    assert (0 < PI * (h * h)) by nra.
    assert (0 < PI * (h * h) * (3 * (D / 2) - h))
      by (by apply Rmult_lt_0_compat).
    lra. }
  unfold calculateEjectaRange. cbv zeta.
  assert (0 < Rmin (v / 20) 2 <= 2).
  { split; [apply Rmin_glb_lt; lra | apply Rmin_r]. }
  split; nra.
Qed.

Lemma X6_witness :
  let c := calculateCrater 50 20 45 2700 1e15 in
  0 < diameter c
  /\ 0.1 * diameter c <= depth c <= 0.2 * diameter c
  /\ 0.03 * diameter c <= rimHeight c <= 0.07 * diameter c
  /\ 0 < volume c
  /\ 0 < ejectaRange c <= 5 * diameter c.
Proof.
  apply (X6_crater_proportions 50 20 45 2700 1e15); lra.
Defined.

(** X7.  The depth, the rim height and the volume jump down at the
    transition diameter of 2 km: a complex crater of up to one and a half
    times the diameter of a simple crater is shallower, has a lower rim and
    holds less volume than the simple one. *)
Theorem X7_transition_is_not_monotone D1 D2 :
  0 < D1 < 2000 -> 2000 <= D2 <= 1.5 * D1 ->
  calculateCraterDepth D2 < calculateCraterDepth D1
  /\ calculateRimHeight D2 < calculateRimHeight D1
  /\ calculateCraterVolume D2 (calculateCraterDepth D2)
     < calculateCraterVolume D1 (calculateCraterDepth D1).
Proof.
  intros H1 H2.
  unfold calculateCraterDepth, calculateRimHeight, calculateCraterVolume.
  cbv zeta.
  destruct (decide (D1 < 2000)); [|lra]. destruct (decide (D2 < 2000)); [lra|].
  split; [lra|]. split; [lra|].
  rewrite !Math_pow_2. pose proof PI_bounds.
  assert (Hc : D2 * D2 * D2 <= 3.375 * (D1 * D1 * D1)).
  { assert (Hs : D2 * D2 <= 1.5 * D1 * (1.5 * D1))
      by (apply Rmult_le_compat; lra).
    assert (D2 * D2 * D2 <= 1.5 * D1 * (1.5 * D1) * (1.5 * D1))
      by (apply Rmult_le_compat; nra).
    lra. }
  assert (0 < D1 * D1 * D1).
  { assert (0 < D1 * D1) by nra. nra. }
  replace (PI * (D2 * 0.1 * (D2 * 0.1)) * (3 * (D2 / 2) - D2 * 0.1) / 3)
    with (PI * (0.014 / 3) * (D2 * D2 * D2)) by lra.
  replace (PI * (D1 * 0.2 * (D1 * 0.2)) * (3 * (D1 / 2) - D1 * 0.2) / 3)
    with (PI * (0.052 / 3) * (D1 * D1 * D1)) by lra.
  nra.
Qed.

Lemma X7_witness :
  calculateCraterDepth 2000 < calculateCraterDepth 1900
  /\ calculateRimHeight 2000 < calculateRimHeight 1900
  /\ calculateCraterVolume 2000 (calculateCraterDepth 2000)
     < calculateCraterVolume 1900 (calculateCraterDepth 1900).
Proof. apply (X7_transition_is_not_monotone 1900 2000); lra. Defined.

Lemma Rpower_root_of_pow c (n : nat) :
  (0 < n)%nat -> 0 < c -> Rpower (c ^ n) (INR 1 / INR n) = c.
Proof.
  intros Hn Hc. assert (0 < c ^ n) by (by apply pow_lt).
  apply Rle_antisym.
  - apply Rpower_ratio_le; [done | done | lra | rewrite pow_1; lra].
  - apply Rpower_ratio_ge; [done | done | lra | rewrite pow_1; lra].
Qed.

(** X8.  The crater diameter follows a quarter-power law in the energy
    and an inverse twelfth-power law in the projectile mass: sixteen times
    the energy doubles the diameter, and at equal energy a projectile 4096
    times as massive digs a crater half as wide. *)
Theorem X8_crater_scaling_law e v m :
  0 < e -> 0 < m ->
  calculateCraterDiameter (16 * e) v m = 2 * calculateCraterDiameter e v m
  /\ calculateCraterDiameter e v (4096 * m)
     = calculateCraterDiameter e v m / 2.
Proof.
  intros He Hm.
  rewrite !calculateCraterDiameter_closed by lra.
  assert (Hx : 0 < e / (2700 * 9.81)) by (apply Rdiv_lt_0_compat; lra).
  assert (Hy : 0 < m / 2700) by (apply Rdiv_lt_0_compat; lra).
  assert (H16 : Rpower 16 (INR 1 / INR 4) = 2).
  { replace 16 with (2 ^ 4) by lra. apply Rpower_root_of_pow; [lia | lra]. }
  assert (H4096 : Rpower 4096 (INR 1 / INR 12) = 2).
  { replace 4096 with (2 ^ 12) by lra. apply Rpower_root_of_pow; [lia | lra]. }
  assert (Hp : 0 < Rpower (m / 2700) (INR 1 / INR 12)) by apply exp_pos.
  split.
  - replace (16 * e / (2700 * 9.81)) with (16 * (e / (2700 * 9.81))) by lra.
    rewrite <- Rpower_mult_distr by lra. rewrite H16. field. lra.
  - replace (4096 * m / 2700) with (4096 * (m / 2700)) by lra.
    rewrite <- Rpower_mult_distr by lra. rewrite H4096. field. lra.
Qed.

Lemma X8_witness :
  calculateCraterDiameter (16 * 1e15) 20 1e9
  = 2 * calculateCraterDiameter 1e15 20 1e9
  /\ calculateCraterDiameter 1e15 20 (4096 * 1e9)
     = calculateCraterDiameter 1e15 20 1e9 / 2.
Proof. apply (X8_crater_scaling_law 1e15 20 1e9); lra. Defined.

End CraterGeometry.

(** ** Blast wave: scaling and consistency *)

Section BlastScaling.
Import BlastWaveCalculator.

Lemma calculateOverpressureRadius_root e P :
  0 <= e -> 0 < P ->
  calculateOverpressureRadius e P = pow (e / (4 * PI * P)) (1 / 3)
  /\ 0 <= calculateOverpressureRadius e P
  /\ calculateOverpressureRadius e P ^ 3 * (4 * PI * P) = e.
Proof.
  intros He HP. pose proof PI_bounds.
  assert (HPp : 0 < 4 * PI * P) by (apply Rmult_lt_0_compat; lra).
  assert (Hx : 0 <= e / (4 * PI * P)).
  { apply div_le_lower; [done|]. lra. }
  assert (Hr : calculateOverpressureRadius e P
               = pow (e / (4 * PI * P)) (1 / 3)).
  { unfold calculateOverpressureRadius. cbv zeta.
    apply Rmax_left. by apply Math_pow_nonneg. }
  split; [done|]. split.
  { rewrite Hr. by apply Math_pow_nonneg. }
  pose proof (Math_pow_cube_root _ Hx) as Hc. rewrite Math_pow_3 in Hc.
  rewrite Hr.
  replace (pow (e / (4 * PI * P)) (1 / 3) ^ 3)
    with (pow (e / (4 * PI * P)) (1 / 3) * pow (e / (4 * PI * P)) (1 / 3)
          * pow (e / (4 * PI * P)) (1 / 3)) by (simpl; lra).
  rewrite Hc. field. lra.
Qed.

Lemma cube_injective a b : 0 <= a -> 0 <= b -> a ^ 3 = b ^ 3 -> a = b.
Proof.
  intros Ha Hb Hab.
  apply Rle_antisym; apply (pow_nat_le_inv _ _ 3); (lia || lra).
Qed.

(** X9.  The overpressure radius follows a cube-root law: eight times
    the energy doubles the radius at every pressure, and so does one
    eighth of the pressure at every energy. *)
Theorem X9_blast_cube_root_law e P :
  0 <= e -> 0 < P ->
  calculateOverpressureRadius (8 * e) P = 2 * calculateOverpressureRadius e P
  /\ calculateOverpressureRadius e (P / 8)
     = 2 * calculateOverpressureRadius e P.
Proof.
  intros He HP.
  destruct (calculateOverpressureRadius_root e P He HP) as (_ & H0 & Hc).
  destruct (calculateOverpressureRadius_root (8 * e) P) as (_ & H1 & Hc1);
    [lra | lra |].
  destruct (calculateOverpressureRadius_root e (P / 8)) as (_ & H2 & Hc2);
    [lra | lra |].
  pose proof PI_bounds.
  assert (HPp : 0 < 4 * PI * P) by (apply Rmult_lt_0_compat; lra).
  split; apply cube_injective; try lra.
  - apply (Rmult_eq_reg_r (4 * PI * P)); [|lra]. rewrite Hc1.
    replace ((2 * calculateOverpressureRadius e P) ^ 3)
      with (8 * calculateOverpressureRadius e P ^ 3) by (simpl; lra).
    rewrite Rmult_assoc, Hc. reflexivity.
  - apply (Rmult_eq_reg_r (4 * PI * (P / 8))).
    + rewrite Hc2.
      replace ((2 * calculateOverpressureRadius e P) ^ 3 * (4 * PI * (P / 8)))
        with (calculateOverpressureRadius e P ^ 3 * (4 * PI * P))
        by (simpl; lra).
      by rewrite Hc.
    + assert (0 < 4 * PI * (P / 8)) by (apply Rmult_lt_0_compat; lra). lra.
Qed.

Lemma X9_witness :
  calculateOverpressureRadius (8 * 1e15) 6895
  = 2 * calculateOverpressureRadius 1e15 6895
  /\ calculateOverpressureRadius 1e15 (6895 / 8)
     = 2 * calculateOverpressureRadius 1e15 6895.
Proof. apply (X9_blast_cube_root_law 1e15 6895); lra. Defined.

Lemma cube_lt a b : 0 <= a -> 0 <= b -> a ^ 3 < b ^ 3 -> a < b.
Proof.
  intros Ha Hb Hab. apply Rnot_le_lt. intros Hle.
  assert (b ^ 3 <= a ^ 3) by (apply pow_incr; lra). lra.
Qed.

Lemma calculateBlastWave_radii E angle :
  0 < E -> 0 < angle <= 90 ->
  let b := calculateBlastWave E angle in
  radius1psi b ^ 3 = 5 * radius5psi b ^ 3
  /\ radius5psi b ^ 3 = 2 * radius10psi b ^ 3
  /\ 0 < radius10psi b < radius5psi b
  /\ radius5psi b < radius1psi b.
Proof.
  intros HE Ha b. subst b. unfold calculateBlastWave. cbv zeta.
  cbn [radius1psi radius5psi radius10psi].
  unfold DAMAGE_THRESHOLDS.OVERPRESSURE.LIGHT_DAMAGE,
    DAMAGE_THRESHOLDS.OVERPRESSURE.MODERATE_DAMAGE,
    DAMAGE_THRESHOLDS.OVERPRESSURE.HEAVY_DAMAGE.
  assert (He : 0 < calculateEffectiveEnergy E angle).
  { unfold calculateEffectiveEnergy. cbv zeta.
    apply Rmult_lt_0_compat; [done|]. by apply sin_degrees_pos. }
  set (e := calculateEffectiveEnergy E angle) in *.
  destruct (calculateOverpressureRadius_root e 6895) as (_ & H1 & Hc1);
    [lra | lra |].
  destruct (calculateOverpressureRadius_root e 34475) as (_ & H5 & Hc5);
    [lra | lra |].
  destruct (calculateOverpressureRadius_root e 68950) as (_ & H10 & Hc10);
    [lra | lra |].
  set (r1 := calculateOverpressureRadius e 6895) in *.
  set (r5 := calculateOverpressureRadius e 34475) in *.
  set (r10 := calculateOverpressureRadius e 68950) in *.
  pose proof PI_bounds.
  assert (Hr1 : r1 ^ 3 = 5 * r5 ^ 3) by nra.
  assert (Hr5 : r5 ^ 3 = 2 * r10 ^ 3) by nra.
  assert (Hpos : 0 < r10 ^ 3) by nra.
  assert (0 < r10).
  { destruct H10 as [Hlt | Heq]; [done|]. rewrite <- Heq in Hpos.
    simpl in Hpos. lra. }
  split; [done|]. split; [done|]. split.
  - split; [done|]. apply cube_lt; lra.
  - apply cube_lt; lra.
Qed.

(** X10.  The three named blast radii of an impact that is not grazing
    are positive and strictly ordered, and they stand in fixed ratios
    whatever the impact: the cube of the 1 psi radius is five times the
    cube of the 5 psi radius, which is twice the cube of the 10 psi
    radius.  The table of overpressure radii lists the pressures 1, 5, 10,
    20 and 50 kPa in this order with radii that do not increase along it,
    and it agrees with the named radii: the 1 psi radius lies between the
    entries for 10 and 5 kPa, the 5 psi radius between those for 50 and
    20 kPa, and the 10 psi radius within the entry for 50 kPa. *)
Theorem X10_blast_radii_and_table E angle :
  0 < E -> 0 < angle <= 90 ->
  let b := calculateBlastWave E angle in
  radius1psi b ^ 3 = 5 * radius5psi b ^ 3
  /\ radius5psi b ^ 3 = 2 * radius10psi b ^ 3
  /\ 0 < radius10psi b < radius5psi b
  /\ radius5psi b < radius1psi b
  /\ exists r1000 r5000 r10000 r20000 r50000,
       overpressureRadii b
       = [ mkRadius 1000 r1000; mkRadius 5000 r5000; mkRadius 10000 r10000;
           mkRadius 20000 r20000; mkRadius 50000 r50000 ]
       /\ r50000 <= r20000 /\ r20000 <= r10000
       /\ r10000 <= r5000 /\ r5000 <= r1000
       /\ r10000 <= radius1psi b <= r5000
       /\ r50000 <= radius5psi b <= r20000
       /\ radius10psi b <= r50000.
Proof.
  intros HE Ha b.
  destruct (calculateBlastWave_radii E angle HE Ha) as (Hr1 & Hr5 & Ho1 & Ho2).
  fold b in Hr1, Hr5, Ho1, Ho2.
  split; [done|]. split; [done|]. split; [done|]. split; [done|].
  subst b. unfold calculateBlastWave. cbv zeta.
  cbn [radius1psi radius5psi radius10psi overpressureRadii].
  unfold DAMAGE_THRESHOLDS.OVERPRESSURE.LIGHT_DAMAGE,
    DAMAGE_THRESHOLDS.OVERPRESSURE.MODERATE_DAMAGE,
    DAMAGE_THRESHOLDS.OVERPRESSURE.HEAVY_DAMAGE.
  assert (He : 0 <= calculateEffectiveEnergy E angle).
  { unfold calculateEffectiveEnergy. cbv zeta.
    apply Rmult_le_pos; [lra|]. apply sin_degrees_nonneg. lra. }
  set (e := calculateEffectiveEnergy E angle) in *.
  assert (Hanti : forall P1 P2, 0 < P1 <= P2 ->
             calculateOverpressureRadius e P2
             <= calculateOverpressureRadius e P1).
  { intros P1 P2 HP. by apply calculateOverpressureRadius_antitone. }
  unfold calculateMultipleRadii. cbv zeta. cbn [map].
  eexists _, _, _, _, _. split; [reflexivity|].
  split; [apply Hanti; lra|]. split; [apply Hanti; lra|].
  split; [apply Hanti; lra|]. split; [apply Hanti; lra|].
  split; [split; apply Hanti; lra|].
  split; [split; apply Hanti; lra|]. apply Hanti; lra.
Qed.

Lemma X10_witness :
  let b := calculateBlastWave 1e15 45 in
  radius1psi b ^ 3 = 5 * radius5psi b ^ 3
  /\ radius5psi b ^ 3 = 2 * radius10psi b ^ 3
  /\ 0 < radius10psi b < radius5psi b
  /\ radius5psi b < radius1psi b
  /\ exists r1000 r5000 r10000 r20000 r50000,
       overpressureRadii b
       = [ mkRadius 1000 r1000; mkRadius 5000 r5000; mkRadius 10000 r10000;
           mkRadius 20000 r20000; mkRadius 50000 r50000 ]
       /\ r50000 <= r20000 /\ r20000 <= r10000
       /\ r10000 <= r5000 /\ r5000 <= r1000
       /\ r10000 <= radius1psi b <= r5000
       /\ r50000 <= radius5psi b <= r20000
       /\ radius10psi b <= r50000.
Proof. apply (X10_blast_radii_and_table 1e15 45); lra. Defined.

End BlastScaling.

(** ** Thermal radiation: the three regimes of the burn radii *)

Section ThermalRegimes.
Import ThermalCalculator.

Ltac solve_elem :=
  repeat first [apply list_elem_of_here | apply list_elem_of_further].

(** X11.  The burn radii are never inverted: for every positive energy
    the fireball radius is positive and
    [fireball <= 3rd degree <= 2nd degree <= 1st degree].  The validation
    inside the stage warns exactly when two neighbouring radii are
    equal. *)
Theorem X11_burn_radii_never_inverted E diameter :
  0 < E ->
  let t := calculateThermalRadiation E diameter in
  0 < radius (fireball t)
  /\ radius (fireball t) <= radius3deg t
  /\ radius3deg t <= radius2deg t
  /\ radius2deg t <= radius1deg t
  /\ (orderingWarning t = true
      <-> radius1deg t = radius2deg t \/ radius2deg t = radius3deg t).
Proof.
  intros HE t.
  destruct (thermal_radii_weak_order E diameter HE) as (H3 & H2 & H1).
  fold t in H3, H2, H1.
  split; [apply fireball_radius_pos, HE|].
  split; [done|]. split; [done|]. split; [done|].
  change (orderingWarning t)
    with (bool_decide (radius1deg t <= radius2deg t)
          || bool_decide (radius2deg t <= radius3deg t)).
  rewrite orb_true_iff, !bool_decide_eq_true. split.
  - intros [H | H]; [left | right]; lra.
  - intros [H | H]; [left | right]; lra.
Qed.

Lemma X11_witness :
  let t := calculateThermalRadiation 1e15 50 in
  0 < radius (fireball t)
  /\ radius (fireball t) <= radius3deg t
  /\ radius3deg t <= radius2deg t
  /\ radius2deg t <= radius1deg t
  /\ (orderingWarning t = true
      <-> radius1deg t = radius2deg t \/ radius2deg t = radius3deg t).
Proof. apply (X11_burn_radii_never_inverted 1e15 50). lra. Defined.

(** The fluence at the surface of the fireball of an impact of at least
    [4.184e9 * 300^5] joules exceeds the third-degree threshold. *)
Lemma fireball_fluence_high E :
  4.184e9 * 300 ^ 5 <= E ->
  62.5 * 10000
  < totalRadiantEnergy (calculateFireball E)
    / (4 * PI * pow (radius (calculateFireball E)) 2).
Proof.
  intros Hmin. pose proof PI_bounds as [Hpi Hpi4].
  assert (HE : 0 < E) by (simpl in Hmin; lra).
  cbn [calculateFireball totalRadiantEnergy radius].
  set (x := E / 4.184e9).
  assert (Hx : 0 < x) by (unfold x; apply Rdiv_lt_0_compat; lra).
  assert (Hx5 : 300 ^ 5 <= x) by (unfold x; apply div_le_lower; lra).
  set (y := Rpower x (INR 1 / INR 5)).
  assert (Hy : 0 < y) by apply exp_pos.
  assert (Hy5 : y ^ 5 = x).
  { unfold y. rewrite Rpower_ratio_pow by (done || lia). simpl. lra. }
  assert (Hy300 : 300 <= y).
  { apply Rpower_ratio_ge; [lia|done|lra|]. simpl. simpl in Hx5. lra. }
  assert (Hp : pow x 0.4 = y * y).
  { rewrite Math_pow_pos_base by done. unfold y. rewrite <- Rpower_plus.
    f_equal. simpl. lra. }
  rewrite Hp, Math_pow_2.
  replace (E * 0.35) with (4.184e9 * x * 0.35) by (unfold x; field; lra).
  rewrite <- Hy5.
  apply div_lt_lower.
  - assert (0 < y * y * 180 * (y * y * 180)) by nra. nra.
  - simpl.
    assert (H4 : 0 < y * y * (y * y)) by nra.
    replace (4.184e9 * (y * (y * (y * (y * (y * 1))))) * 0.35)
      with ((y * y * (y * y)) * (4.184e9 * 0.35 * y)) by ring.
    replace (62.5 * 10000 * (4 * PI * (y * y * 180 * (y * y * 180))))
      with ((y * y * (y * y)) * (62.5 * 10000 * 4 * 180 * 180 * PI)) by ring.
    apply Rmult_lt_compat_l; [lra|]. nra.
Qed.

(** Above the floor the burn radius does not depend on the size of the
    fireball. *)
Lemma calculateBurnRadius_above_floor E T :
  0 < E -> 0 < T ->
  T * 10000
  <= totalRadiantEnergy (calculateFireball E)
     / (4 * PI * pow (radius (calculateFireball E)) 2) ->
  calculateBurnRadius (calculateFireball E) T
  = sqrt (E * 0.35 / (4 * PI * (T * 10000))).
Proof.
  intros HE HT Hfl. pose proof (fireball_radius_pos E HE) as Hr.
  unfold calculateBurnRadius. cbv zeta.
  rewrite Rmax_left.
  - rewrite burn_radius_closed; try lra.
    + reflexivity.
    + cbn [calculateFireball totalRadiantEnergy]. lra.
  - apply Rle_trans with (radius (calculateFireball E) * 1); [lra|].
    apply Rmult_le_compat_l; [lra|].
    apply sqrt_lower; [lra|]. apply div_le_lower; lra.
Qed.

(** X12.  For yields of at least [300^5] tons of TNT (about 2.4 million
    megatons) each burn radius is the distance at which the radiated
    energy, spread over a sphere, falls to its threshold; the radii are
    strictly ordered beyond the fireball and the validation stays
    silent. *)
Theorem X12_large_yield_burn_radii E diameter :
  300 ^ 5 <= ImpactCalculator.energyToTNT E ->
  let t := calculateThermalRadiation E diameter in
  radius1deg t = sqrt (E * 0.35 / (4 * PI * (25 * 10000)))
  /\ radius2deg t = sqrt (E * 0.35 / (4 * PI * (37.5 * 10000)))
  /\ radius3deg t = sqrt (E * 0.35 / (4 * PI * (62.5 * 10000)))
  /\ radius (fireball t) < radius3deg t
  /\ radius3deg t < radius2deg t
  /\ radius2deg t < radius1deg t
  /\ orderingWarning t = false.
Proof.
  intros Hy t. unfold ImpactCalculator.energyToTNT in Hy. cbv zeta in Hy.
  assert (Hmin : 4.184e9 * 300 ^ 5 <= E).
  { apply (Rmult_le_compat_r 4.184e9) in Hy; [|lra].
    replace (E / 4.184e9 * 4.184e9) with E in Hy by (field; lra). lra. }
  assert (HE : 0 < E) by (simpl in Hmin; lra).
  pose proof (fireball_fluence_high E Hmin) as Hfl.
  pose proof (fireball_radius_pos E HE) as Hr.
  pose proof PI_bounds as [Hpi _].
  assert (H1 : radius1deg t = sqrt (E * 0.35 / (4 * PI * (25 * 10000)))).
  { apply calculateBurnRadius_above_floor; [done| |];
      unfold DAMAGE_THRESHOLDS.THERMAL.FIRST_DEGREE_BURN; lra. }
  assert (H2 : radius2deg t = sqrt (E * 0.35 / (4 * PI * (37.5 * 10000)))).
  { apply calculateBurnRadius_above_floor; [done| |];
      unfold DAMAGE_THRESHOLDS.THERMAL.SECOND_DEGREE_BURN; lra. }
  assert (H3 : radius3deg t = sqrt (E * 0.35 / (4 * PI * (62.5 * 10000)))).
  { apply calculateBurnRadius_above_floor; [done| |];
      unfold DAMAGE_THRESHOLDS.THERMAL.THIRD_DEGREE_BURN; lra. }
  assert (Hmono : forall T1 T2, 0 < T1 < T2 ->
             sqrt (E * 0.35 / (4 * PI * (T2 * 10000)))
             < sqrt (E * 0.35 / (4 * PI * (T1 * 10000)))).
  { intros T1 T2 HT.
    assert (0 < 4 * PI * (T1 * 10000)) by nra.
    assert (0 < 4 * PI * (T2 * 10000)) by nra.
    apply sqrt_lt_1_alt. split.
    - apply Rlt_le, Rdiv_lt_0_compat; lra.
    - apply Rmult_lt_compat_l; [lra|].
      apply Rinv_lt_contravar; [by apply Rmult_lt_0_compat | nra]. }
  assert (H32 : radius3deg t < radius2deg t)
    by (rewrite H3, H2; apply Hmono; lra).
  assert (H21 : radius2deg t < radius1deg t)
    by (rewrite H2, H1; apply Hmono; lra).
  assert (Hfb : radius (fireball t) < radius3deg t).
  { change (radius (fireball t)) with (radius (calculateFireball E)).
    rewrite H3.
    rewrite <- (burn_radius_closed (radius (calculateFireball E)))
      by lra.
    apply Rle_lt_trans with (radius (calculateFireball E) * 1); [lra|].
    apply Rmult_lt_compat_l; [lra|].
    rewrite <- sqrt_1 at 1. apply sqrt_lt_1_alt. split; [lra|].
    replace (E * 0.35) with (totalRadiantEnergy (calculateFireball E))
      by reflexivity.
    apply div_lt_lower; lra. }
  split; [done|]. split; [done|]. split; [done|].
  split; [done|]. split; [done|]. split; [done|].
  change (orderingWarning t)
    with (bool_decide (radius1deg t <= radius2deg t)
          || bool_decide (radius2deg t <= radius3deg t)).
  rewrite !bool_decide_eq_false_2 by lra. reflexivity.
Qed.

Lemma X12_witness :
  let t := calculateThermalRadiation (4.184e9 * 300 ^ 5) 1000 in
  radius1deg t
  = sqrt (4.184e9 * 300 ^ 5 * 0.35 / (4 * PI * (25 * 10000)))
  /\ radius2deg t
     = sqrt (4.184e9 * 300 ^ 5 * 0.35 / (4 * PI * (37.5 * 10000)))
  /\ radius3deg t
     = sqrt (4.184e9 * 300 ^ 5 * 0.35 / (4 * PI * (62.5 * 10000)))
  /\ radius (fireball t) < radius3deg t
  /\ radius3deg t < radius2deg t
  /\ radius2deg t < radius1deg t
  /\ orderingWarning t = false.
Proof.
  apply (X12_large_yield_burn_radii (4.184e9 * 300 ^ 5) 1000).
  unfold ImpactCalculator.energyToTNT. cbv zeta.
  apply div_le_lower; lra.
Defined.

End ThermalRegimes.

(** ** Thermal radiation in the aggregate result *)

Section ThermalPipeline.
Import ImpactCalculator.

Ltac solve_elem :=
  repeat first [apply list_elem_of_here | apply list_elem_of_further].

(** X13.  For every impact that reaches the ground with a kinetic energy
    at entry of at most [60^5] tons of TNT (about 778 megatons), the three
    thermal radii of the result are one and the same number, the radius of
    the fireball. *)
Theorem X13_small_yield_radii_coincide (p : ImpactParameters) :
  validParameters p -> survives p ->
  energyToTNT (calculateKineticEnergy (massOf p) (velocity p)) <= 60 ^ 5 ->
  let res := calculateImpact p in
  exists fb,
    res !! "fireball" = Some (VFireball fb)
    /\ 0 < ThermalCalculator.radius fb
    /\ res !! "thermalRadius1deg" = Some (num (ThermalCalculator.radius fb))
    /\ res !! "thermalRadius2deg" = Some (num (ThermalCalculator.radius fb))
    /\ res !! "thermalRadius3deg" = Some (num (ThermalCalculator.radius fb)).
Proof.
  intros Hvalid Hs Hy res. subst res.
  pose proof (finalEnergyOf_bounds p Hvalid Hs) as [H0 Hle].
  unfold energyToTNT in Hy. cbv zeta in Hy.
  assert (HE : 0 < finalEnergyOf p <= 4.184e9 * 60 ^ 5).
  { split; [done|]. eapply Rle_trans; [exact Hle|].
    apply (Rmult_le_compat_r 4.184e9) in Hy; [|lra].
    replace (calculateKineticEnergy (massOf p) (velocity p) / 4.184e9
             * 4.184e9)
      with (calculateKineticEnergy (massOf p) (velocity p)) in Hy
      by (field; lra).
    lra. }
  destruct (thermal_radii_collapse (finalEnergyOf p)
              (AtmosphereCalculator.finalDiameter (atmosphereResultsOf p)) HE)
    as (H1 & H2 & H3 & _).
  fold (thermalResultsOf p) in H1, H2, H3.
  exists (ThermalCalculator.fireball (thermalResultsOf p)).
  split; [apply lookup_phase1; [done|solve_elem]|].
  split; [apply fireball_radius_pos, H0|].
  split; [|split].
  - rewrite <- H1. apply lookup_phase1; [done|solve_elem].
  - rewrite <- H2. apply lookup_phase1; [done|solve_elem].
  - rewrite <- H3. apply lookup_phase1; [done|solve_elem].
Qed.

Lemma tunguska_yield :
  energyToTNT (calculateKineticEnergy (massOf Presets.tunguska)
                 (velocity Presets.tunguska)) <= 60 ^ 5.
Proof.
  unfold energyToTNT. cbv zeta. apply div_le_upper; [lra|].
  unfold massOf, asteroidDensityOf, calculateKineticEnergy, calculateMass,
    Presets.tunguska.
  cbn [diameter velocity composition density getAsteroidDensity].
  rewrite Math_pow_2, Math_pow_3. pose proof PI_bounds. simpl. nra.
Qed.

Lemma X13_witness :
  let res := calculateImpact Presets.tunguska in
  exists fb,
    res !! "fireball" = Some (VFireball fb)
    /\ 0 < ThermalCalculator.radius fb
    /\ res !! "thermalRadius1deg" = Some (num (ThermalCalculator.radius fb))
    /\ res !! "thermalRadius2deg" = Some (num (ThermalCalculator.radius fb))
    /\ res !! "thermalRadius3deg" = Some (num (ThermalCalculator.radius fb)).
Proof.
  apply (X13_small_yield_radii_coincide Presets.tunguska
           tunguska_valid tunguska_survives tunguska_yield).
Defined.

End ThermalPipeline.

(** ** Seismic stage: magnitude, duration, arrivals, frequency *)

Section SeismicScaling.
Import SeismicCalculator.

Lemma log10_increasing x y : 0 < x <= y -> log10 x <= log10 y.
Proof.
  intros [Hx Hxy]. unfold log10. pose proof ln_10_pos.
  apply Rmult_le_compat_r; [left; by apply Rinv_0_lt_compat|].
  destruct Hxy as [Hlt | ->]; [|lra]. left. by apply ln_increasing.
Qed.

Lemma log10_times_1000 x : 0 < x -> log10 (1000 * x) = 3 + log10 x.
Proof.
  intros Hx. unfold log10. rewrite ln_mult by lra.
  replace 1000 with (10 ^ 3) by lra. rewrite ln_pow by lra.
  pose proof ln_10_pos. simpl. field. lra.
Qed.

(** X14.  The magnitude grows with the energy, and between its two clamps
    it follows the Gutenberg-Richter relation: a thousand times the energy
    adds two units of magnitude. *)
Theorem X14_magnitude_scaling E1 E2 :
  0 < E1 <= E2 ->
  calculateMagnitude E1 <= calculateMagnitude E2
  /\ (0 < calculateMagnitude E1 <= 8 ->
      calculateMagnitude (1000 * E1) = calculateMagnitude E1 + 2).
Proof.
  intros [H1 H12]. split.
  - unfold calculateMagnitude. cbv zeta.
    assert (log10 (E1 * 0.01) <= log10 (E2 * 0.01))
      by (apply log10_increasing; lra).
    apply Rle_max_compat_l. apply Rle_min_compat_r. lra.
  - unfold calculateMagnitude. cbv zeta.
    replace (1000 * E1 * 0.01) with (1000 * (E1 * 0.01)) by lra.
    rewrite log10_times_1000 by lra.
    set (raw := (log10 (E1 * 0.01) - 9.1) / 1.5).
    replace ((3 + log10 (E1 * 0.01) - 9.1) / 1.5) with (raw + 2)
      by (unfold raw; lra).
    unfold Rmax, Rmin.
    repeat destruct (Rle_dec _ _); lra.
Qed.

Lemma X14_witness :
  calculateMagnitude 1e19 <= calculateMagnitude 1e22
  /\ calculateMagnitude (1000 * 1e19) = calculateMagnitude 1e19 + 2.
Proof.
  destruct (X14_magnitude_scaling 1e19 1e22) as [H1 H2]; [lra|].
  split; [exact H1|]. apply H2. rewrite calculateMagnitude_1e19. lra.
Defined.

Lemma Rpower_10_monotone a b : a <= b -> Rpower 10 a <= Rpower 10 b.
Proof. intros H. apply Rle_Rpower; lra. Qed.

(** X15.  The shaking lasts at least 5 seconds and never gets shorter as
    the magnitude grows.  The floor of 5 seconds is what is reported for
    every magnitude up to 5; from magnitude 6 on the duration is 30 % of
    the tectonic one and exceeds 5 seconds. *)
Theorem X15_shaking_duration :
  (forall M, 5 <= calculateShakingDuration M)
  /\ (forall M1 M2, M1 <= M2 ->
        calculateShakingDuration M1 <= calculateShakingDuration M2)
  /\ (forall M, M <= 5 -> calculateShakingDuration M = 5)
  /\ (forall M, 6 <= M ->
        calculateShakingDuration M = pow 10 (0.5 * M - 1.5) * 0.3
        /\ 5 < calculateShakingDuration M).
Proof.
  unfold calculateShakingDuration. cbv zeta.
  split; [intros M; apply Rmax_r|].
  split.
  { intros M1 M2 HM. apply Rle_max_compat_r.
    rewrite !Math_pow_pos_base by lra.
    apply Rmult_le_compat_r; [lra|]. apply Rpower_10_monotone. lra. }
  split.
  { intros M HM. apply Rmax_right. rewrite Math_pow_pos_base by lra.
    assert (Rpower 10 (0.5 * M - 1.5) <= Rpower 10 1)
      by (apply Rpower_10_monotone; lra).
    rewrite Rpower_1 in *; lra. }
  intros M HM. rewrite Math_pow_pos_base by lra.
  assert (H17 : 17 <= Rpower 10 (INR 3 / INR 2)).
  { apply Rpower_ratio_ge; [lia | lra | lra |]. simpl. lra. }
  assert (Rpower 10 (INR 3 / INR 2) <= Rpower 10 (0.5 * M - 1.5))
    by (apply Rpower_10_monotone; simpl; lra).
  rewrite Rmax_left by lra. split; lra.
Qed.

Lemma X15_witness :
  calculateShakingDuration 4 = 5 /\ 5 < calculateShakingDuration 7.
Proof.
  destruct X15_shaking_duration as (_ & _ & Hfloor & Habove).
  split; [apply Hfloor; lra | apply Habove; lra].
Defined.

(** X16.  The arrival times list one entry per zone, in the order of the
    zones, each with the P, S and surface wave in this order.  Wherever
    the zone radius is positive the P wave arrives first and the surface
    wave last, and the radius is recovered from the lag of the S wave
    behind the P wave as 8400 m for each second. *)
Theorem X16_wave_arrivals (epicenter : gmap string R)
    (zones : list IntensityZone) :
  Forall2 (fun zone a =>
             arrival_distance a = radius zone
             /\ arrival_intensity a = intensity zone
             /\ exists p s surface,
                  waveArrivals a
                  = [("pWave", p); ("sWave", s); ("surface", surface)]
                  /\ arrival_time p * 6000 = radius zone
                  /\ (arrival_time s - arrival_time p) * 8400 = radius zone
                  /\ (0 < radius zone ->
                      0 < arrival_time p < arrival_time s
                      /\ arrival_time s < arrival_time surface))
          zones (arrivals (calculateArrivalTimes epicenter zones)).
Proof.
  unfold calculateArrivalTimes. cbv zeta. cbn [arrivals].
  induction zones as [|zone zones IH]; cbn [map]; constructor; [|exact IH].
  cbn [arrival_distance arrival_intensity waveArrivals].
  split; [done|]. split; [done|].
  unfold waveTypes. cbn [map fst snd wave_velocity wave_name].
  eexists _, _, _. split; [reflexivity|]. cbn [arrival_time].
  split; [field|]. split; [field|].
  intros Hr.
  assert (0 < radius zone / 6000) by (apply Rdiv_lt_0_compat; lra).
  split; [split; [done|]|]; lra.
Qed.

Lemma X16_witness :
  let zones := [mkZone 8 "Severe" 6000 (8 / 12) 10 0 0 "#FF8800" 0.7] in
  Forall2 (fun zone a =>
             arrival_distance a = radius zone
             /\ arrival_intensity a = intensity zone
             /\ exists p s surface,
                  waveArrivals a
                  = [("pWave", p); ("sWave", s); ("surface", surface)]
                  /\ arrival_time p * 6000 = radius zone
                  /\ (arrival_time s - arrival_time p) * 8400 = radius zone
                  /\ (0 < radius zone ->
                      0 < arrival_time p < arrival_time s
                      /\ arrival_time s < arrival_time surface))
          zones (arrivals (calculateArrivalTimes ∅ zones)).
Proof.
  apply (X16_wave_arrivals ∅
           [mkZone 8 "Severe" 6000 (8 / 12) 10 0 0 "#FF8800" 0.7]).
Defined.

(** X17.  The dominant frequency is a number between 0.1 and 50 Hz
    whenever the crater diameter is not negative; a crater diameter of
    zero, where the base frequency is a division by zero, gives the upper
    clamp of 50 Hz, and a negative one gives [NaN]. *)
Theorem X17_dominant_frequency (M : R) :
  (forall cd, 0 <= cd ->
     exists f, calculateDominantFrequency M cd = Finite f /\ 0.1 <= f <= 50)
  /\ calculateDominantFrequency M 0 = Finite 50
  /\ (forall cd, cd < 0 -> calculateDominantFrequency M cd = NaN).
Proof.
  assert (Hmag : 0 < pow 10 ((5 - M) / 3)) by (apply Math_pow_positive; lra).
  assert (Hzero : calculateDominantFrequency M 0 = Finite 50).
  { unfold calculateDominantFrequency. cbv zeta.
    replace (0 / 1000) with 0 by lra.
    cbn [sqrtN]. rewrite decide_False by lra. rewrite sqrt_0.
    cbn [divN]. unfold div. rewrite decide_True by done.
    rewrite decide_True by lra. cbn [mulN]. rewrite decide_True by done.
    cbn [min_with max_with]. f_equal. apply Rmax_left. lra. }
  split; [|split; [done|]].
  - intros cd [Hcd | <-]; [|exists 50; split; [done|lra]].
    unfold calculateDominantFrequency. cbv zeta.
    assert (0 < cd / 1000) by lra.
    cbn [sqrtN]. rewrite decide_False by lra.
    assert (0 < sqrt (cd / 1000)) by (by apply sqrt_lt_R0).
    cbn [divN]. unfold div. rewrite decide_False by lra.
    cbn [mulN min_with max_with]. eexists. split; [reflexivity|].
    split; [apply Rmax_r|]. apply Rmax_lub; [apply Rmin_r | lra].
  - intros cd Hcd. unfold calculateDominantFrequency. cbv zeta.
    cbn [sqrtN]. rewrite decide_True by lra. reflexivity.
Qed.

Lemma X17_witness :
  exists f, calculateDominantFrequency 6 1000 = Finite f /\ 0.1 <= f <= 50.
Proof. destruct (X17_dominant_frequency 6) as (H & _). apply H. lra. Defined.

End SeismicScaling.

(** ** Seismic stage: the intensity zones and what is derived from them *)

Section SeismicZones.
Import SeismicCalculator.

Lemma baseIntensityOf_range M : (3 <= baseIntensityOf M <= 12)%Z.
Proof. unfold baseIntensityOf. lia. Qed.

Lemma levelsLoop_fields fuel base i cd :
  Forall (fun l => (3 <= level_intensity l <= i)%Z
                   /\ (exists k : nat,
                         level_intensity l = (i - 2 * Z.of_nat k)%Z)
                   /\ level_description l
                      = getIntensityDescription (level_intensity l)
                   /\ level_damageLevel l = IZR (level_intensity l) / 12
                   /\ level_baseRadius l
                      = cd * pow 2 (IZR (base - level_intensity l) / 2))
         (levelsLoop fuel base i cd).
Proof.
  revert i. induction fuel as [|fuel IH]; intros i; cbn [levelsLoop];
    [constructor|].
  case_decide; [|constructor]. constructor.
  - cbn [level_intensity level_description level_damageLevel
           level_baseRadius].
    split; [lia|]. split; [exists 0%nat; lia|]. done.
  - eapply Forall_impl; [apply IH|]. cbn.
    intros l (Hr & (k & Hk) & Hrest). split; [lia|].
    split; [exists (S k); lia|]. done.
Qed.

Lemma levelsLoop_length fuel base i cd :
  (i <= 12)%Z -> (length (levelsLoop fuel base i cd) <= 5)%nat.
Proof.
  intros Hi.
  assert (H : forall fuel i,
             (Z.of_nat (length (levelsLoop fuel base i cd))
              <= Z.max 0 ((i - 1) / 2))%Z).
  { clear. intros fuel. induction fuel as [|fuel IH]; intros i;
      cbn [levelsLoop]; [cbn; lia|].
    case_decide; [|cbn; lia]. cbn [length].
    specialize (IH (i - 2)%Z).
    rewrite Nat2Z.inj_succ.
    assert ((i - 2 - 1) / 2 = (i - 1) / 2 - 1)%Z.
    { replace (i - 2 - 1)%Z with ((i - 1) + (-1) * 2)%Z by lia.
      rewrite Z.div_add by lia. lia. }
    assert (1 <= (i - 1) / 2)%Z.
    { apply Z.div_le_lower_bound; lia. }
    lia. }
  specialize (H fuel i).
  assert ((i - 1) / 2 <= 5)%Z.
  { change 5%Z with (11 / 2)%Z. apply Z.div_le_mono; lia. }
  lia.
Qed.

Lemma zonesLoop_fields M loc lat lon levels index :
  Forall (fun z => exists l k,
            levels !! k = Some l
            /\ intensity z = level_intensity l
            /\ description z = level_description l
            /\ damageLevel z = level_damageLevel l
            /\ radius z = calculateIntensityRadius M (intensity z) loc
            /\ Rmax (level_baseRadius l) 500 < radius z
            /\ peakAcceleration z = intensityToPGA (intensity z)
            /\ center_latitude z = lat /\ center_longitude z = lon
            /\ color z = getIntensityColor (intensity z)
            /\ opacity z = 0.7 - INR (index + k) * 0.1)
         (zonesLoop M loc lat lon levels index).
Proof.
  revert index. induction levels as [|level rest IH]; intros index;
    cbn [zonesLoop]; [constructor|].
  assert (Hrest : Forall (fun z => exists l k,
            (level :: rest) !! k = Some l
            /\ intensity z = level_intensity l
            /\ description z = level_description l
            /\ damageLevel z = level_damageLevel l
            /\ radius z = calculateIntensityRadius M (intensity z) loc
            /\ Rmax (level_baseRadius l) 500 < radius z
            /\ peakAcceleration z = intensityToPGA (intensity z)
            /\ center_latitude z = lat /\ center_longitude z = lon
            /\ color z = getIntensityColor (intensity z)
            /\ opacity z = 0.7 - INR (index + k) * 0.1)
         (zonesLoop M loc lat lon rest (S index))).
  { eapply Forall_impl; [apply IH|]. cbn.
    intros z (l & k & Hl & Hr). exists l, (S k). split; [done|].
    replace (index + S k)%nat with (S index + k)%nat by lia. done. }
  case_decide; [|done]. constructor; [|done].
  exists level, 0%nat.
  cbn [intensity description damageLevel radius peakAcceleration
         center_latitude center_longitude color opacity].
  rewrite Nat.add_0_r. by repeat split.
Qed.

Lemma zonesLoop_length M loc lat lon levels index :
  (length (zonesLoop M loc lat lon levels index) <= length levels)%nat.
Proof.
  revert index. induction levels as [|level rest IH]; intros index;
    cbn [zonesLoop length]; [lia|].
  specialize (IH (S index)). case_decide; cbn [length]; lia.
Qed.

(** X18.  Every intensity zone of the seismic stage is well formed.  There
    are at most five zones.  The intensity of a zone lies between 3 and
    12 and below the base intensity by an even number; its radius is the
    one of the attenuation law, above 500 m and above the crater-scaled
    floor of its level; its peak acceleration, damage level, description
    and colour are those of its intensity; it is centred on the impact;
    and its opacity lies between 0.3 and 0.7. *)
Theorem X18_zones_well_formed M loc lat lon cd :
  let zs := calculateIntensityZones M loc lat lon cd in
  (length zs <= 5)%nat
  /\ Forall (fun z =>
       (3 <= intensity z <= 12)%Z
       /\ (exists k : nat,
             intensity z = (baseIntensityOf M - 2 * Z.of_nat k)%Z)
       /\ radius z = calculateIntensityRadius M (intensity z) loc
       /\ 500 < radius z
       /\ cd * pow 2 (IZR (baseIntensityOf M - intensity z) / 2) < radius z
       /\ peakAcceleration z = intensityToPGA (intensity z)
       /\ damageLevel z = IZR (intensity z) / 12
       /\ description z = getIntensityDescription (intensity z)
       /\ color z = getIntensityColor (intensity z)
       /\ center_latitude z = lat /\ center_longitude z = lon
       /\ 0.3 <= opacity z <= 0.7) zs.
Proof.
  intros zs. subst zs. unfold calculateIntensityZones. cbv zeta.
  pose proof (baseIntensityOf_range M) as Hbase.
  set (base := baseIntensityOf M) in *.
  set (levels := intensityLevelsOf base cd).
  assert (Hlen : (length levels <= 5)%nat).
  { apply levelsLoop_length. lia. }
  pose proof (levelsLoop_fields (Z.to_nat base) base base cd) as Hlevels.
  fold (intensityLevelsOf base cd) in Hlevels. fold levels in Hlevels.
  split.
  { rewrite merge_sort_Permutation.
    pose proof (zonesLoop_length M loc lat lon levels 0). lia. }
  rewrite merge_sort_Permutation.
  eapply Forall_impl; [apply zonesLoop_fields|]. cbn.
  intros z (l & k & Hl & Hi & Hdesc & Hdmg & Hr & Hmin & Hpga & Hlat & Hlon
            & Hcol & Hop).
  assert (Hk : (k < length levels)%nat) by (by eapply lookup_lt_Some).
  rewrite Forall_forall in Hlevels.
  destruct (Hlevels l) as (Hrange & Hpar & Hd & Hdl & Hbr).
  { by eapply list_elem_of_lookup_2. }
  rewrite Hi.
  split; [lia|]. split; [done|]. split; [by rewrite <- Hi|].
  split; [eapply Rle_lt_trans; [apply Rmax_r | exact Hmin]|].
  split.
  { rewrite <- Hbr. eapply Rle_lt_trans; [apply Rmax_l | exact Hmin]. }
  split; [by rewrite <- Hi|]. split; [by rewrite Hdmg|].
  split; [by rewrite Hdesc|]. split; [by rewrite <- Hi|].
  split; [done|]. split; [done|].
  rewrite Hop. cbn [Nat.add].
  assert (0 <= INR k <= 4).
  { split; [apply pos_INR|]. replace 4 with (INR 4) by (simpl; lra).
    apply le_INR. lia. }
  lra.
Qed.


Lemma max_spread_spec xs :
  match max_spread xs with
  | Finite m => m ∈ xs /\ Forall (fun x => x <= m) xs
  | NegInfinity => xs = []
  | _ => False
  end.
Proof.
  induction xs as [|x xs IH]; [done|].
  unfold max_spread in *. cbn [foldr].
  destruct (foldr _ NegInfinity xs) as [m| | |]; try done.
  - destruct IH as [Hin IH]. split.
    + unfold Rmax. destruct (Rle_dec x m);
        [by apply list_elem_of_further | apply list_elem_of_here].
    + constructor; [apply Rmax_l|].
      eapply Forall_impl; [exact IH|]. cbn. intros y Hy.
      eapply Rle_trans; [exact Hy|apply Rmax_r].
  - subst xs. split; [apply list_elem_of_here|].
    constructor; [lra|constructor].
Qed.

Lemma max_spread_max xs m :
  m ∈ xs -> Forall (fun x => x <= m) xs -> max_spread xs = Finite m.
Proof.
  intros Hin Hall. pose proof (max_spread_spec xs) as H.
  destruct (max_spread xs) as [m'| | |]; try done.
  - destruct H as [Hin' Hall']. f_equal.
    rewrite Forall_forall in Hall, Hall'.
    apply Rle_antisym; [by apply Hall | by apply Hall'].
  - subst xs. by apply elem_of_nil in Hin.
Qed.

Lemma StronglySorted_last {A} (R : relation A) l x :
  StronglySorted R (l ++ [x]) -> Forall (fun y => R y x) l.
Proof.
  induction l as [|a l IH]; cbn; [constructor|].
  intros H. apply StronglySorted_inv in H as [Hs Ha].
  constructor; [|by apply IH].
  rewrite Forall_forall in Ha. apply Ha.
  apply elem_of_app. right. apply list_elem_of_here.
Qed.

Lemma intensityToPGA_monotone i j :
  (i <= j)%Z -> intensityToPGA i <= intensityToPGA j.
Proof.
  intros Hij. unfold intensityToPGA. cbv zeta.
  rewrite !Math_pow_pos_base by lra.
  apply Rle_Rpower; [lra|]. apply IZR_le in Hij. lra.
Qed.

(** X19.  When a seismic result has zones, its effect radius is the radius
    of its first zone, the outermost one, and its ground motion is that of
    its last zone, the innermost one: the maximum intensity is the
    intensity of that zone and the peak ground acceleration is the one
    that intensity converts to.  No zone reaches farther than the first or
    shakes harder than the last. *)
Theorem X19_zone_extremes E loc cd :
  let res := calculateSeismicEffects E loc cd in
  zones res <> [] ->
  exists outer inner gm,
    head (zones res) = Some outer
    /\ last (zones res) = Some inner
    /\ effectRadius res = Finite (radius outer)
    /\ groundMotion res = Some gm
    /\ maxIntensity gm = Finite (IZR (intensity inner))
    /\ peakGroundAcceleration gm
       = Finite (intensityToPGA (intensity inner))
    /\ Forall (fun z => radius z <= radius outer
                        /\ (intensity z <= intensity inner)%Z) (zones res).
Proof.
  intros res. subst res. unfold calculateSeismicEffects.
  destruct (loc !! "latitude") as [lat|]; [|done].
  destruct (loc !! "longitude") as [lon|]; [|done].
  cbv zeta. case_decide; [done|].
  cbn [zones effectRadius groundMotion].
  set (M := calculateMagnitude E).
  pose proof (calculateIntensityZones_order M loc lat lon cd) as Hsorted.
  assert (Hpga : Forall (fun z => peakAcceleration z
                                  = intensityToPGA (intensity z))
                        (calculateIntensityZones M loc lat lon cd)).
  { unfold calculateIntensityZones. cbv zeta. rewrite merge_sort_Permutation.
    eapply Forall_impl; [apply zonesLoop_fields|]. cbn.
    by intros z (l & k & _ & _ & _ & _ & _ & _ & Hp & _). }
  generalize dependent (calculateIntensityZones M loc lat lon cd).
  intros zs Hsorted Hpga Hne.
  destruct (last zs) as [inner|] eqn:Hlast;
    [|by apply last_None in Hlast].
  assert (Hinner : Forall (fun z => (intensity z <= intensity inner)%Z) zs).
  { apply last_Some in Hlast as [pre Hpre]. rewrite Hpre in Hsorted |- *.
    apply StronglySorted_last in Hsorted.
    apply Forall_app. split; [|by constructor].
    eapply Forall_impl; [exact Hsorted|]. cbn. intros z [_ Hz]. lia. }
  assert (Hinner_in : inner ∈ zs).
  { apply last_Some in Hlast as [pre ->]. apply elem_of_app. right.
    apply list_elem_of_here. }
  assert (Hmaxi : max_spread (map (fun z => IZR (intensity z)) zs)
                  = Finite (IZR (intensity inner))).
  { apply max_spread_max.
    - apply list_elem_of_fmap. by exists inner.
    - apply Forall_fmap. eapply Forall_impl; [exact Hinner|].
      cbn. intros z Hz. by apply IZR_le. }
  assert (Hmaxp : max_spread (map peakAcceleration zs)
                  = Finite (intensityToPGA (intensity inner))).
  { apply max_spread_max.
    - apply list_elem_of_fmap. exists inner. split; [|done].
      rewrite Forall_forall in Hpga. symmetry. by apply Hpga.
    - apply Forall_fmap. rewrite Forall_forall in Hpga, Hinner |- *.
      intros z Hz. cbn. rewrite (Hpga z Hz).
      apply intensityToPGA_monotone. by apply Hinner. }
  destruct zs as [|outer rest]; [done|].
  exists outer, inner. eexists.
  split; [done|]. split; [done|].
  assert (Houter : Forall (fun z => radius z <= radius outer) (outer :: rest)).
  { apply StronglySorted_inv in Hsorted as [_ Hall].
    constructor; [lra|]. eapply Forall_impl; [exact Hall|].
    cbn. intros z [Hz _]. lra. }
  split.
  { apply max_spread_max.
    - apply list_elem_of_fmap. exists outer. split; [done|].
      apply list_elem_of_here.
    - by apply Forall_fmap. }
  split; [reflexivity|].
  unfold calculateGroundMotionParameters. cbv zeta.
  cbn [maxIntensity peakGroundAcceleration].
  split; [done|]. split; [done|].
  rewrite Forall_forall in Houter, Hinner |- *.
  intros z Hz. split; [by apply Houter | by apply Hinner].
Qed.

Lemma zones_1e19_nonempty :
  zones (calculateSeismicEffects 1e19
           (ImpactCalculator.locationOf (Some 0) (Some 0)) 100) <> [].
Proof.
  set (loc := ImpactCalculator.locationOf (Some 0) (Some 0)).
  rewrite (calculateSeismicEffects_valid _ _ _ 0 0).
  2:{ unfold loc, ImpactCalculator.locationOf.
      rewrite lookup_insert_ne by done. apply lookup_singleton_eq. }
  2:{ apply lookup_insert_eq. }
  rewrite calculateMagnitude_1e19. rewrite decide_False by lra.
  cbv zeta. cbn [zones].
  unfold calculateIntensityZones. cbv zeta. rewrite baseIntensityOf_79_15.
  set (l := mkLevel 9 (getIntensityDescription 9) (IZR 9 / 12)
                    (100 * pow 2 (IZR (9 - 9) / 2))).
  destruct (zonesLoop_complete (79 / 15) loc 0 0
              (intensityLevelsOf 9 100) 0 l) as (z & Hz & _).
  - apply list_elem_of_here.
  - cbn [level_baseRadius level_intensity l].
    rewrite calculateIntensityRadius_eq.
    assert (1 <= Rpower 10 ((2.0 + 1.5 * (79 / 15) + 0.0 - IZR 9) / 3.5)).
    { apply Rpower_10_ge_1. lra. }
    assert (pow 2 (IZR (9 - 9) / 2) = 1).
    { rewrite Math_pow_pos_base by lra. rewrite minus_IZR.
      replace ((9 - 9) / 2) with 0 by lra. apply Rpower_O. lra. }
    apply Rmax_lub_lt; lra.
  - intros Hnil.
    assert (Hin : z ∈ merge_sort largestFirst
                      (zonesLoop (79 / 15) loc 0 0 (intensityLevelsOf 9 100) 0))
      by (by rewrite merge_sort_Permutation).
    rewrite Hnil in Hin. by apply elem_of_nil in Hin.
Qed.

Lemma X19_witness :
  let res := calculateSeismicEffects 1e19
               (ImpactCalculator.locationOf (Some 0) (Some 0)) 100 in
  exists outer inner gm,
    head (zones res) = Some outer
    /\ last (zones res) = Some inner
    /\ effectRadius res = Finite (radius outer)
    /\ groundMotion res = Some gm
    /\ maxIntensity gm = Finite (IZR (intensity inner))
    /\ peakGroundAcceleration gm
       = Finite (intensityToPGA (intensity inner))
    /\ Forall (fun z => radius z <= radius outer
                        /\ (intensity z <= intensity inner)%Z) (zones res).
Proof.
  apply (X19_zone_extremes 1e19
           (ImpactCalculator.locationOf (Some 0) (Some 0)) 100).
  apply zones_1e19_nonempty.
Defined.

End SeismicZones.

(** ** Seismic stage: building damage *)

Section BuildingDamage.
Import SeismicCalculator.

Lemma damage_ramp_bounds a c d w :
  0 < d -> 0 < w -> 0 <= Rmin (Rmax (a - c) 0 / d * w) w <= w.
Proof.
  intros Hd Hw. split; [|apply Rmin_r].
  apply Rmin_glb; [|lra].
  assert (0 <= Rmax (a - c) 0) by apply Rmax_r.
  assert (0 <= Rmax (a - c) 0 / d) by (apply div_le_lower; lra).
  nra.
Qed.

Lemma damage_ramp_monotone a1 a2 c d w :
  0 < d -> 0 < w -> a1 <= a2 ->
  Rmin (Rmax (a1 - c) 0 / d * w) w <= Rmin (Rmax (a2 - c) 0 / d * w) w.
Proof.
  intros Hd Hw Ha. apply Rle_min_compat_r.
  apply Rmult_le_compat_r; [lra|].
  apply Rmult_le_compat_r; [left; by apply Rinv_0_lt_compat|].
  apply Rle_max_compat_r. lra.
Qed.

Lemma calculateFragilityCurve_bounds i v :
  (0 <= i)%Z -> 0 <= v ->
  let f := calculateFragilityCurve i v in
  0 <= light f <= 0.8 /\ 0 <= moderate f <= 0.6
  /\ 0 <= extensive f <= 0.4 /\ 0 <= complete f <= 0.2
  /\ 0 <= complete f * 0.6 + extensive f * 0.3 + moderate f * 0.1 <= 0.3.
Proof.
  intros Hi Hv f. subst f. unfold calculateFragilityCurve. cbv zeta.
  cbn [light moderate extensive complete].
  apply IZR_le in Hi.
  assert (0 <= IZR i * v) by (by apply Rmult_le_pos).
  pose proof (damage_ramp_bounds (IZR i * v) 4 8 0.6) as Hm.
  pose proof (damage_ramp_bounds (IZR i * v) 6 6 0.4) as He.
  pose proof (damage_ramp_bounds (IZR i * v) 8 4 0.2) as Hc.
  split.
  { split; [|apply Rmin_r]. apply Rmin_glb; lra. }
  split; [apply Hm; lra|]. split; [apply He; lra|]. split; [apply Hc; lra|].
  lra.
Qed.

Lemma calculateFragilityCurve_loss_monotone i v1 v2 :
  (0 <= i)%Z -> v1 <= v2 ->
  let f1 := calculateFragilityCurve i v1 in
  let f2 := calculateFragilityCurve i v2 in
  complete f1 * 0.6 + extensive f1 * 0.3 + moderate f1 * 0.1
  <= complete f2 * 0.6 + extensive f2 * 0.3 + moderate f2 * 0.1.
Proof.
  intros Hi Hv f1 f2. subst f1 f2. unfold calculateFragilityCurve. cbv zeta.
  cbn [moderate extensive complete].
  apply IZR_le in Hi.
  assert (Ha : IZR i * v1 <= IZR i * v2) by (by apply Rmult_le_compat_l).
  pose proof (damage_ramp_monotone _ _ 4 8 0.6 ltac:(lra) ltac:(lra) Ha).
  pose proof (damage_ramp_monotone _ _ 6 6 0.4 ltac:(lra) ltac:(lra) Ha).
  pose proof (damage_ramp_monotone _ _ 8 4 0.2 ltac:(lra) ltac:(lra) Ha).
  lra.
Qed.

(** X20.  The building-damage assessment has one entry per zone, in the
    order of the zones, each listing the residential, commercial,
    industrial and critical category in this order.  For zones of
    non-negative intensity every damage probability lies between zero and
    the cap of its state (0.8, 0.6, 0.4, 0.2), the expected loss lies
    between 0 and 0.3, and within a zone it does not increase from one
    category to the next.  The totals over all zones are never
    accumulated: [totalDamage] is zero in every state. *)
Theorem X20_building_damage (zones : list IntensityZone) :
  Forall (fun z => (0 <= intensity z)%Z) zones ->
  let assessment := assessBuildingDamage zones in
  totalDamage assessment = mkDamageStates 0 0 0 0
  /\ Forall2 (fun z za =>
       za_intensity za = intensity z /\ za_radius za = radius z
       /\ exists residential commercial industrial critical,
            buildings za
            = [ ("residential", residential); ("commercial", commercial);
                ("industrial", industrial); ("critical", critical) ]
            /\ Forall (fun b =>
                 0 <= light (damageStates b) <= 0.8
                 /\ 0 <= moderate (damageStates b) <= 0.6
                 /\ 0 <= extensive (damageStates b) <= 0.4
                 /\ 0 <= complete (damageStates b) <= 0.2
                 /\ 0 <= expectedLoss b <= 0.3)
                 [residential; commercial; industrial; critical]
            /\ expectedLoss critical <= expectedLoss industrial
            /\ expectedLoss industrial <= expectedLoss commercial
            /\ expectedLoss commercial <= expectedLoss residential)
       zones (da_zones assessment).
Proof.
  intros Hzones assessment. subst assessment. unfold assessBuildingDamage.
  cbn [totalDamage da_zones]. split; [done|].
  induction Hzones as [|z zones Hz _ IH]; cbn [map]; constructor; [|exact IH].
  cbn [za_intensity za_radius buildings].
  split; [done|]. split; [done|].
  unfold damageCategories. cbn [map fst snd].
  eexists _, _, _, _. split; [reflexivity|].
  cbn [expectedLoss damageStates].
  split.
  { repeat (apply Forall_cons_2;
              [apply (calculateFragilityCurve_bounds (intensity z));
               [done|lra]|]).
    apply Forall_nil_2. }
  split; [|split]; apply calculateFragilityCurve_loss_monotone; (done || lra).
Qed.

Lemma X20_witness :
  let zones := [mkZone 8 "Severe" 1000 (8 / 12) 10 0 0 "#FF8800" 0.7] in
  let assessment := assessBuildingDamage zones in
  totalDamage assessment = mkDamageStates 0 0 0 0
  /\ Forall2 (fun z za =>
       za_intensity za = intensity z /\ za_radius za = radius z
       /\ exists residential commercial industrial critical,
            buildings za
            = [ ("residential", residential); ("commercial", commercial);
                ("industrial", industrial); ("critical", critical) ]
            /\ Forall (fun b =>
                 0 <= light (damageStates b) <= 0.8
                 /\ 0 <= moderate (damageStates b) <= 0.6
                 /\ 0 <= extensive (damageStates b) <= 0.4
                 /\ 0 <= complete (damageStates b) <= 0.2
                 /\ 0 <= expectedLoss b <= 0.3)
                 [residential; commercial; industrial; critical]
            /\ expectedLoss critical <= expectedLoss industrial
            /\ expectedLoss industrial <= expectedLoss commercial
            /\ expectedLoss commercial <= expectedLoss residential)
       zones (da_zones assessment).
Proof.
  apply (X20_building_damage
           [mkZone 8 "Severe" 1000 (8 / 12) 10 0 0 "#FF8800" 0.7]).
  constructor; [cbn; lia | constructor].
Defined.

End BuildingDamage.

(** ** Tsunami stage: the initial wave and its fronts *)

Section TsunamiWave.
Import TsunamiCalculator.

Lemma estimateWaterDepth_values lat lng :
  estimateWaterDepth lat lng = 2000 \/ estimateWaterDepth lat lng = 3000
  \/ estimateWaterDepth lat lng = 4000.
Proof. unfold estimateWaterDepth. cbv zeta. repeat case_decide; auto. Qed.

(** X21.  At every depth the ocean model estimates (2000, 3000 or 4000 m;
    twenty times such a depth, and the twentieth of that, are exact on
    doubles) the label [waveType] of the initial wave is 'shallow-water',
    whatever the energy and the crater diameter, because the wavelength is
    never below twenty times the depth.  The speed and the period
    nevertheless follow the deep-water formulas whenever fifty crater
    diameters do not exceed twenty water depths, and the shallow-water
    formulas otherwise. *)
Theorem X21_wave_regime e lat lng cd :
  let depth := estimateWaterDepth lat lng in
  let w := calculateInitialWave e depth cd in
  (depth = 2000 \/ depth = 3000 \/ depth = 4000)
  /\ waveType w = "shallow-water"
  /\ wavelength w = Rmax (cd * 50) (depth * 20)
  /\ (cd * 50 <= depth * 20 ->
      speed w = sqrt (gravity * (depth * 20) / (2 * PI))
      /\ period w = sqrt (depth * 20 / (2 * PI * gravity)))
  /\ (depth * 20 < cd * 50 ->
      speed w = sqrt (gravity * depth)
      /\ period w = cd * 50 / sqrt (gravity * depth)).
Proof.
  intros depth w. split; [apply estimateWaterDepth_values|].
  subst w. generalize depth. clear depth. intros depth.
  unfold calculateInitialWave. cbv zeta.
  cbn [waveType wavelength speed period].
  pose proof (Rmax_r (cd * 50) (depth * 20)) as Hr.
  split; [by rewrite decide_False by lra|]. split; [done|].
  unfold calculateWaveSpeed, calculateWavePeriod. split.
  - intros Hle. rewrite Rmax_right by done.
    rewrite !decide_False by lra. done.
  - intros Hlt. rewrite Rmax_left by lra.
    rewrite !decide_True by lra. done.
Qed.

Lemma X21_witness :
  let depth := estimateWaterDepth 0 0 in
  let w := calculateInitialWave 1e18 depth 1000 in
  depth = 4000
  /\ waveType w = "shallow-water"
  /\ speed w = sqrt (gravity * (depth * 20) / (2 * PI))
  /\ period w = sqrt (depth * 20 / (2 * PI * gravity)).
Proof.
  destruct (X21_wave_regime 1e18 0 0 1000) as (_ & Hlabel & _ & Hdeep & _).
  assert (Hdepth : estimateWaterDepth 0 0 = 4000).
  { unfold estimateWaterDepth. cbv zeta. rewrite Rabs_R0.
    rewrite decide_False by lra. by rewrite decide_True by lra. }
  split; [exact Hdepth|]. split; [exact Hlabel|].
  apply Hdeep. rewrite Hdepth. lra.
Defined.

(** X22.  A generated tsunami starts from a wave that carries between
    0.2 % and 0.4 % of the impact energy and is at least 0.1 m high, and
    its first wave front is the initial wave itself: time 0, radius 0, the
    initial height, speed and energy. *)
Theorem X22_initial_wave_and_first_front E loc cd :
  0 < E -> 0 <= cd ->
  let res := calculateTsunami E loc cd in
  generated res = true ->
  exists w prop rest,
    initialWave res = Some w
    /\ 0.002 * E <= energy w <= 0.004 * E
    /\ geN (height w) 0.1 = true
    /\ propagation res = Some prop
    /\ prop_initialWave prop = w
    /\ waveFronts prop
       = mkFront 0 0 (height w) (speed w) (energy w) :: rest.
Proof.
  intros HE Hcd res Hgen. subst res. unfold calculateTsunami in *.
  destruct (loc !! "latitude") as [lat|]; [|done].
  destruct (loc !! "longitude") as [lon|]; [|done].
  cbv zeta in *.
  destruct (negb (inOcean (determineOceanImpact lat lon))) eqn:Hocean;
    [done|].
  assert (Hdepth : 2000 <= waterDepth (determineOceanImpact lat lon)).
  { unfold determineOceanImpact in *. cbv zeta in *.
    destruct (negb (isOceanCoordinate lat lon)); [done|].
    cbn [waterDepth].
    destruct (estimateWaterDepth_values lat lon) as [-> | [-> | ->]]; lra. }
  set (depth := waterDepth (determineOceanImpact lat lon)) in *.
  set (w := calculateInitialWave E depth cd) in *.
  destruct (ltN (height w) 0.1) eqn:Hh; [done|].
  cbn [initialWave propagation].
  assert (Heff : 0.002 <= calculateEnergyTransferEfficiency depth cd
                 <= 0.004).
  { unfold calculateEnergyTransferEfficiency. cbv zeta.
    rewrite (Rmin_right (depth / 1000) 1) by lra.
    assert (0 <= Rmin (cd / 1000) 1 <= 1).
    { split; [apply Rmin_glb; lra | apply Rmin_r]. }
    lra. }
  assert (Hener : energy w = E * calculateEnergyTransferEfficiency depth cd)
    by reflexivity.
  assert (Hw : isHeight (height w)).
  { apply calculateInitialWaveHeight_isHeight.
    apply Rmult_lt_0_compat; lra. }
  destruct (propagationLoop_first w 23 Hw Hh) as (rest & Hrest).
  exists w. eexists. exists rest.
  split; [done|]. split; [rewrite Hener; split; nra|].
  split; [by apply ltN_false_geN|].
  split; [reflexivity|]. split; [done|]. exact Hrest.
Qed.

Lemma X22_witness :
  let res := calculateTsunami 1e18
               (ImpactCalculator.locationOf (Some 0) (Some 0)) 1000 in
  exists w prop rest,
    initialWave res = Some w
    /\ 0.002 * 1e18 <= energy w <= 0.004 * 1e18
    /\ geN (height w) 0.1 = true
    /\ propagation res = Some prop
    /\ prop_initialWave prop = w
    /\ waveFronts prop
       = mkFront 0 0 (height w) (speed w) (energy w) :: rest.
Proof.
  apply (X22_initial_wave_and_first_front 1e18
           (ImpactCalculator.locationOf (Some 0) (Some 0)) 1000);
    [lra | lra | apply mid_atlantic_generated].
Defined.


Lemma propagationLoop_energy w remaining step k f :
  propagationLoop w remaining step !! k = Some f ->
  front_energy f = calculateEnergyAtDistance (energy w) (front_radius f).
Proof.
  revert step k. induction remaining as [|n IH]; intros step k; cbn; [done|].
  case_decide as Hfar; [by rewrite lookup_nil|].
  destruct (ltN (calculateWaveHeightDecay _ _ _) _) eqn:Hsmall;
    [by rewrite lookup_nil|].
  destruct k as [|k]; cbn.
  - by intros [= <-].
  - apply IH.
Qed.

Lemma StronglySorted_of_lookup {A} (R : relation A) (l : list A) :
  (forall i j a b, (i < j)%nat -> l !! i = Some a -> l !! j = Some b ->
                   R a b) ->
  StronglySorted R l.
Proof.
  induction l as [|x l IH]; intros H; constructor.
  - apply IH. intros i j a b Hij Ha Hb. by apply (H (S i) (S j)); [lia|..].
  - apply Forall_forall. intros y Hy.
    apply list_elem_of_lookup_1 in Hy as [j Hj].
    by apply (H 0%nat (S j)); [lia|..].
Qed.

Lemma calculateWaveHeightDecay_antitone h d1 d2 wavelength :
  isHeight h -> geN h 0 = true -> 0 < wavelength -> 0 <= d1 <= d2 ->
  heightLe (calculateWaveHeightDecay h d2 wavelength)
           (calculateWaveHeightDecay h d1 wavelength).
Proof.
  intros Hh Hpos Hl Hd. unfold calculateWaveHeightDecay. cbv zeta.
  assert (Hs : forall d, 1 <= sqrt (Rmax (d / 1000) 1)).
  { intros d. apply sqrt_lower; [lra|].
    pose proof (Rmax_r (d / 1000) 1). lra. }
  assert (Hg : forall d, 0 < 1 / sqrt (Rmax (d / 1000) 1)).
  { intros d. pose proof (Hs d). apply Rdiv_lt_0_compat; lra. }
  assert (Hgm : 1 / sqrt (Rmax (d2 / 1000) 1)
                <= 1 / sqrt (Rmax (d1 / 1000) 1)).
  { pose proof (Hs d1). pose proof (Hs d2).
    unfold Rdiv. rewrite !Rmult_1_l.
    apply Rinv_le_contravar; [lra|].
    apply sqrt_le_1_alt. apply Rle_max_compat_r. lra. }
  assert (Hem : exp (- d2 / (wavelength * 1000))
                <= exp (- d1 / (wavelength * 1000))).
  { assert (- d2 / (wavelength * 1000) <= - d1 / (wavelength * 1000)).
    { apply Rmult_le_compat_r; [|lra].
      left. apply Rinv_0_lt_compat. lra. }
    destruct H as [Hlt | ->]; [left; by apply exp_increasing | lra]. }
  pose proof (exp_pos (- d1 / (wavelength * 1000))).
  pose proof (exp_pos (- d2 / (wavelength * 1000))).
  destruct h as [x| | |]; cbn [isHeight geN] in *; try done.
  - apply bool_decide_eq_true in Hpos. cbn [mulN heightLe].
    pose proof (Hg d1). pose proof (Hg d2).
    apply Rmult_le_compat; try lra.
    + apply Rmult_le_pos; lra.
    + apply Rmult_le_compat_l; lra.
  - cbn [mulN]. rewrite !decide_True by apply Hg. cbn [mulN].
    by rewrite !decide_True by done.
Qed.

Lemma calculateInitialWaveHeight_nonneg e v depth :
  geN (calculateInitialWaveHeight e v depth) 0 = true
  \/ calculateInitialWaveHeight e v depth = NaN.
Proof.
  unfold calculateInitialWaveHeight. cbv zeta.
  destruct (div _ _) as [x| | |]; cbn [max_with sqrtN geN]; auto.
  - rewrite decide_False by (pose proof (Rmax_r x 0); lra).
    left. apply bool_decide_eq_true. apply sqrt_pos.
  - rewrite decide_False by lra. left. apply bool_decide_eq_true.
    apply sqrt_pos.
Qed.

(** X23.  The wave fronts of a generated tsunami spread and fade: along
    the list the radius never decreases, and neither the energy nor the
    height of a front exceeds that of an earlier one.  In the energy
    distribution of the result the final energy, that of the last front,
    is positive and at most the initial energy, and the decay rate is the
    initial energy shared among the fronts. *)
Theorem X23_fronts_spread_and_fade E loc cd :
  0 < E -> 0 <= cd ->
  let res := calculateTsunami E loc cd in
  generated res = true ->
  exists prop,
    propagation res = Some prop
    /\ StronglySorted spreads (waveFronts prop)
    /\ let distribution :=
         calculateEnergyDistribution (prop_initialWave prop) prop in
       0 < finalEnergy distribution <= initialEnergy distribution
       /\ energyDecayRate distribution * INR (length (waveFronts prop))
          = initialEnergy distribution.
Proof.
  intros HE Hcd res Hgen. subst res. unfold calculateTsunami in *.
  destruct (loc !! "latitude") as [lat|]; [|done].
  destruct (loc !! "longitude") as [lon|]; [|done].
  cbv zeta in *.
  destruct (negb (inOcean (determineOceanImpact lat lon))) eqn:Hocean;
    [done|].
  assert (Hdepth : 0 < waterDepth (determineOceanImpact lat lon)).
  { unfold determineOceanImpact in *. cbv zeta in *.
    destruct (negb (isOceanCoordinate lat lon)); [done|].
    apply estimateWaterDepth_pos. }
  set (depth := waterDepth (determineOceanImpact lat lon)) in *.
  set (w := calculateInitialWave E depth cd) in *.
  destruct (ltN (height w) 0.1) eqn:Hh; [done|].
  cbn [propagation]. eexists. split; [reflexivity|].
  cbn [modelWavePropagation waveFronts prop_initialWave].
  assert (Heff : 0 < calculateEnergyTransferEfficiency depth cd)
    by (apply calculateEnergyTransferEfficiency_pos; lra).
  assert (Hener : 0 < energy w).
  { change (energy w) with (E * calculateEnergyTransferEfficiency depth cd).
    by apply Rmult_lt_0_compat. }
  assert (Hw : isHeight (height w)).
  { apply calculateInitialWaveHeight_isHeight.
    by apply Rmult_lt_0_compat. }
  assert (Hpos : geN (height w) 0 = true).
  { destruct (calculateInitialWaveHeight_nonneg
                (E * calculateEnergyTransferEfficiency depth cd)
                (calculateWaterDisplacement cd depth) depth) as [H | H];
      [exact H|].
    change (height w = NaN) in H. by rewrite H in Hw. }
  assert (Hlambda : 0 < wavelength w).
  { change (wavelength w) with (Rmax (cd * 50) (depth * 20)).
    pose proof (Rmax_r (cd * 50) (depth * 20)). lra. }
  assert (Hspeed : 0 <= speed w).
  { change (speed w)
      with (calculateWaveSpeed (Rmax (cd * 50) (depth * 20)) depth).
    unfold calculateWaveSpeed. case_decide; apply sqrt_pos. }
  split.
  2:{ unfold calculateEnergyDistribution. cbv zeta.
      cbn [modelWavePropagation waveFronts initialEnergy finalEnergy
           energyDecayRate].
      destruct (propagationLoop_first w 23 Hw Hh) as (rest & Hrest).
      unfold timeSteps. rewrite Hrest.
      destruct (last (mkFront 0 0 (height w) (speed w) (energy w) :: rest))
        as [final|] eqn:Hlast; [|by apply last_None in Hlast].
      split.
      - apply last_Some in Hlast as [pre Hpre].
        assert (Hk : (mkFront 0 0 (height w) (speed w) (energy w) :: rest)
                     !! length pre = Some final).
        { rewrite Hpre. by rewrite list_lookup_middle. }
        rewrite <- Hrest in Hk.
        pose proof (propagationLoop_energy _ _ _ _ _ Hk) as He.
        apply propagationLoop_fronts in Hk as (_ & _ & _ & _ & _).
        rewrite He. unfold calculateEnergyAtDistance.
        assert (1 <= Rmax (front_radius final / 1000) 1) by apply Rmax_r.
        split; [apply Rdiv_lt_0_compat; lra|].
        apply div_le_upper; [lra|]. nra.
      - cbn [length]. field. apply not_0_INR. lia. }
  apply StronglySorted_of_lookup. intros i j a b Hij Ha Hb.
  pose proof (propagationLoop_energy _ _ _ _ _ Ha) as Hea.
  pose proof (propagationLoop_energy _ _ _ _ _ Hb) as Heb.
  apply propagationLoop_fronts in Ha as (Hta & Hra & _ & Hha & _).
  apply propagationLoop_fronts in Hb as (Htb & Hrb & _ & Hhb & _).
  assert (Htime : 0 <= front_time a <= front_time b).
  { rewrite Hta, Htb. cbn [Nat.add].
    pose proof (pos_INR i). assert (INR i <= INR j) by (apply le_INR; lia).
    lra. }
  assert (Hrad : 0 <= front_radius a <= front_radius b).
  { rewrite Hra, Hrb. split; [apply Rmult_le_pos; lra|].
    apply Rmult_le_compat_l; lra. }
  split; [lra|]. split.
  - rewrite Hea, Heb. unfold calculateEnergyAtDistance.
    assert (1 <= Rmax (front_radius a / 1000) 1) by apply Rmax_r.
    apply Rmult_le_compat_l; [lra|].
    apply Rinv_le_contravar; [lra|]. apply Rle_max_compat_r. lra.
  - rewrite Hha, Hhb. by apply calculateWaveHeightDecay_antitone.
Qed.

Lemma X23_witness :
  let res := calculateTsunami 1e18
               (ImpactCalculator.locationOf (Some 0) (Some 0)) 1000 in
  exists prop,
    propagation res = Some prop
    /\ StronglySorted spreads (waveFronts prop)
    /\ let distribution :=
         calculateEnergyDistribution (prop_initialWave prop) prop in
       0 < finalEnergy distribution <= initialEnergy distribution
       /\ energyDecayRate distribution * INR (length (waveFronts prop))
          = initialEnergy distribution.
Proof.
  apply (X23_fronts_spread_and_fade 1e18
           (ImpactCalculator.locationOf (Some 0) (Some 0)) 1000);
    [lra | lra | apply mid_atlantic_generated].
Defined.

(** X24.  No coastline is ever reached.  The reference coastlines carry
    their position under the keys [lat] and [lng], the distance reads
    [latitude] and [longitude], and so every distance to a coastline is
    [NaN].  A generated tsunami therefore has no coastal effect, no
    arrival time and no coastal marker, and its maximum height, the
    maximum over an empty list, is [-Infinity]. *)
Theorem X24_no_coast_is_reached E loc cd :
  let res := calculateTsunami E loc cd in
  generated res = true ->
  Forall (fun coastline =>
            calculateDistance loc (coast_coordinates coastline) = NaN)
         (getMajorCoastlines loc)
  /\ coastalEffects res = []
  /\ maxHeight res = NegInfinity
  /\ arrivalTimes res = Some []
  /\ exists vis, visualization res = Some vis /\ coastalMarkers vis = [].
Proof.
  intros res Hgen. subst res.
  split.
  { apply Forall_forall. intros c Hc. by apply calculateDistance_coastline. }
  unfold calculateTsunami in *.
  destruct (loc !! "latitude") as [lat|]; [|done].
  destruct (loc !! "longitude") as [lon|]; [|done].
  cbv zeta in *.
  destruct (negb (inOcean (determineOceanImpact lat lon))); [done|].
  destruct (ltN _ 0.1); [done|].
  cbn [coastalEffects maxHeight arrivalTimes visualization].
  rewrite !calculateCoastalEffects_empty.
  split; [done|]. split; [done|]. split; [done|].
  eexists. split; [reflexivity|]. done.
Qed.

Lemma X24_witness :
  let loc := ImpactCalculator.locationOf (Some 0) (Some 0) in
  let res := calculateTsunami 1e18 loc 1000 in
  Forall (fun coastline =>
            calculateDistance loc (coast_coordinates coastline) = NaN)
         (getMajorCoastlines loc)
  /\ coastalEffects res = []
  /\ maxHeight res = NegInfinity
  /\ arrivalTimes res = Some []
  /\ exists vis, visualization res = Some vis /\ coastalMarkers vis = [].
Proof.
  apply (X24_no_coast_is_reached 1e18
           (ImpactCalculator.locationOf (Some 0) (Some 0)) 1000).
  apply mid_atlantic_generated.
Defined.

End TsunamiWave.

(** ** Tsunami stage: the great-circle distance *)

Section GreatCircle.
Import TsunamiCalculator.

Lemma sin_sqr_half x :
  - (PI / 2) <= x <= PI / 2 -> sin (x / 2) * sin (x / 2) <= 1 / 2.
Proof.
  intros Hx.
  pose proof (cos_2a_sin (x / 2)) as H.
  replace (2 * (x / 2)) with x in H by lra.
  assert (0 <= cos x) by (apply cos_ge_0; lra).
  lra.
Qed.

(** At most a quarter turn apart in latitude and in longitude, the
    quantity under the square roots stays clear of 1. *)
Lemma haversine_term_quarter phi1 phi2 dlambda :
  - (PI / 2) <= phi1 <= PI / 2 -> - (PI / 2) <= phi2 <= PI / 2 ->
  - (PI / 2) <= phi2 - phi1 <= PI / 2 -> - (PI / 2) <= dlambda <= PI / 2 ->
  0 <= sin ((phi2 - phi1) / 2) * sin ((phi2 - phi1) / 2)
       + cos phi1 * cos phi2 * sin (dlambda / 2) * sin (dlambda / 2)
    <= 3 / 4.
Proof.
  intros H1 H2 Hphi Hlam.
  assert (Hc1 : 0 <= cos phi1) by (apply cos_ge_0; lra).
  assert (Hc2 : 0 <= cos phi2) by (apply cos_ge_0; lra).
  pose proof (sin_sqr_half _ Hlam) as Hs.
  pose proof (sin_sqr_half _ Hphi) as Hh.
  set (s := sin (dlambda / 2)) in *.
  assert (Hs0 : 0 <= s * s) by nra.
  pose proof (cos_2a_sin ((phi2 - phi1) / 2)) as Hhalf.
  replace (2 * ((phi2 - phi1) / 2)) with (phi2 - phi1) in Hhalf by lra.
  rewrite cos_minus in Hhalf.
  pose proof (COS_bound (phi1 + phi2)) as [_ Hsum]. rewrite cos_plus in Hsum.
  set (h := sin ((phi2 - phi1) / 2)) in *.
  assert (Hh0 : 0 <= h * h) by nra.
  assert (Hcc : 0 <= cos phi1 * cos phi2) by (by apply Rmult_le_pos).
  assert (Hcc1 : cos phi1 * cos phi2 <= 1 - h * h) by lra.
  assert (Hccs : cos phi1 * cos phi2 * s * s <= (1 - h * h) * (1 / 2)).
  { rewrite Rmult_assoc. apply Rmult_le_compat; lra. }
  assert (0 <= cos phi1 * cos phi2 * s * s).
  { rewrite Rmult_assoc. apply Rmult_le_pos; lra. }
  split; lra.
Qed.

Lemma atan_sqrt_3 : atan (sqrt 3) = PI / 3.
Proof.
  rewrite <- tan_PI3. apply atan_tan. pose proof PI_bounds. lra.
Qed.

Lemma atan2_haversine a :
  0 <= a <= 3 / 4 -> 0 <= atan2 (sqrt a) (sqrt (1 - a)) <= PI / 3.
Proof.
  intros [Ha0 Ha1]. unfold atan2.
  assert (Hx : 1 / 2 <= sqrt (1 - a)) by (apply sqrt_lower; lra).
  rewrite decide_True by lra.
  assert (Hy : 0 <= sqrt a) by apply sqrt_pos.
  assert (Hq : 0 <= sqrt a / sqrt (1 - a)) by (apply div_le_lower; lra).
  assert (Hq3 : sqrt a / sqrt (1 - a) <= sqrt 3).
  { rewrite <- sqrt_div_alt by lra. apply sqrt_le_1_alt.
    apply div_le_upper; lra. }
  split.
  - destruct Hq as [Hlt | <-]; [|rewrite atan_0; lra].
    rewrite <- atan_0. left. by apply atan_increasing.
  - rewrite <- atan_sqrt_3.
    destruct Hq3 as [Hlt | ->]; [|lra].
    left. by apply atan_increasing.
Qed.

Lemma sin_atan2_haversine a :
  0 <= a <= 3 / 4 -> sin (atan2 (sqrt a) (sqrt (1 - a))) = sqrt a.
Proof.
  intros [Ha0 Ha1]. unfold atan2.
  assert (Hx : 1 / 2 <= sqrt (1 - a)) by (apply sqrt_lower; lra).
  rewrite decide_True by lra.
  rewrite sin_atan. unfold Rsqr.
  assert (Hs : sqrt (1 - a) * sqrt (1 - a) = 1 - a) by (apply sqrt_sqrt; lra).
  assert (Hsa : sqrt a * sqrt a = a) by (apply sqrt_sqrt; lra).
  replace (1 + sqrt a / sqrt (1 - a) * (sqrt a / sqrt (1 - a)))
    with (/ (sqrt (1 - a) * sqrt (1 - a))).
  2:{ transitivity ((sqrt (1 - a) * sqrt (1 - a) + sqrt a * sqrt a)
                    / (sqrt (1 - a) * sqrt (1 - a))).
      - rewrite Hs, Hsa. field. lra.
      - field. lra. }
  rewrite sqrt_inv, sqrt_square by lra.
  field. lra.
Qed.

(** X25.  Between two points that carry both coordinates, with latitudes
    between -90 and 90 degrees, and that lie at most 90 degrees apart in
    latitude and in longitude, the great-circle distance is a number [d]
    between zero and a third of the circumference of the Earth that
    satisfies the haversine relation: the squared sine of half the angle
    [d / R] is the sum of the squared sine of half the difference of the
    latitudes and of the squared sine of half the difference of the
    longitudes times the cosines of the two latitudes.  It is the same in
    both directions, and from a point to itself it is zero.  Under these
    bounds the quantity whose square roots the formula takes lies between
    0 and 3/4. *)
Theorem X25_great_circle_distance (p1 p2 : gmap string R)
    lat1 lon1 lat2 lon2 :
  p1 !! "latitude" = Some lat1 -> p1 !! "longitude" = Some lon1 ->
  p2 !! "latitude" = Some lat2 -> p2 !! "longitude" = Some lon2 ->
  -90 <= lat1 <= 90 -> -90 <= lat2 <= 90 ->
  -90 <= lat2 - lat1 <= 90 -> -90 <= lon2 - lon1 <= 90 ->
  exists d,
    calculateDistance p1 p2 = Finite d
    /\ 0 <= d <= 2 / 3 * PI * earthRadius
    /\ sin (d / (2 * earthRadius)) ^ 2
       = sin ((lat2 - lat1) * PI / 180 / 2) ^ 2
         + cos (lat1 * PI / 180) * cos (lat2 * PI / 180)
           * sin ((lon2 - lon1) * PI / 180 / 2) ^ 2
    /\ calculateDistance p2 p1 = Finite d
    /\ calculateDistance p1 p1 = Finite 0.
Proof.
  intros Hlat1 Hlon1 Hlat2 Hlon2 Hr1 Hr2 Hdlat Hdlon.
  unfold calculateDistance. rewrite Hlat1, Hlon1, Hlat2, Hlon2. cbv zeta.
  eexists. split; [reflexivity|].
  pose proof PI_bounds as [Hpi _].
  assert (HR : 0 < earthRadius)
    by (unfold earthRadius, PHYSICS_CONSTANTS.EARTH_RADIUS; lra).
  assert (Ha : 0 <= sin ((lat2 - lat1) * PI / 180 / 2)
                    * sin ((lat2 - lat1) * PI / 180 / 2)
                    + cos (lat1 * PI / 180) * cos (lat2 * PI / 180)
                      * sin ((lon2 - lon1) * PI / 180 / 2)
                      * sin ((lon2 - lon1) * PI / 180 / 2) <= 3 / 4).
  { replace ((lat2 - lat1) * PI / 180)
      with (lat2 * PI / 180 - lat1 * PI / 180) by lra.
    apply haversine_term_quarter.
    - split; nra.
    - split; nra.
    - split; nra.
    - split; nra. }
  split; [|split; [|split]].
  - pose proof (atan2_haversine _ Ha) as [Hlo Hhi].
    match goal with
    | |- 0 <= _ * (2 * atan2 ?y ?x) <= _ => set (c := atan2 y x) in *
    end.
    split; [apply Rmult_le_pos; lra|]. nra.
  - pose proof (sin_atan2_haversine _ Ha) as Hsin.
    match goal with
    | |- sin (_ * (2 * atan2 ?y ?x) / _) ^ 2 = _ =>
        replace (earthRadius * (2 * atan2 y x) / (2 * earthRadius))
          with (atan2 y x) by (field; lra)
    end.
    rewrite Hsin.
    match goal with
    | |- sqrt ?a ^ 2 = _ =>
        replace (sqrt a ^ 2) with (sqrt a * sqrt a) by ring
    end.
    rewrite sqrt_sqrt by lra. ring.
  - do 3 f_equal.
    assert (Hsym : sin ((lat1 - lat2) * PI / 180 / 2)
                 * sin ((lat1 - lat2) * PI / 180 / 2)
                 + cos (lat2 * PI / 180) * cos (lat1 * PI / 180)
                   * sin ((lon1 - lon2) * PI / 180 / 2)
                   * sin ((lon1 - lon2) * PI / 180 / 2)
                 = sin ((lat2 - lat1) * PI / 180 / 2)
                   * sin ((lat2 - lat1) * PI / 180 / 2)
                   + cos (lat1 * PI / 180) * cos (lat2 * PI / 180)
                     * sin ((lon2 - lon1) * PI / 180 / 2)
                     * sin ((lon2 - lon1) * PI / 180 / 2)).
    { replace ((lat1 - lat2) * PI / 180 / 2)
        with (- ((lat2 - lat1) * PI / 180 / 2)) by lra.
      replace ((lon1 - lon2) * PI / 180 / 2)
        with (- ((lon2 - lon1) * PI / 180 / 2)) by lra.
      rewrite !sin_neg. ring. }
    by rewrite Hsym.
  - f_equal.
    replace ((lat1 - lat1) * PI / 180 / 2) with 0 by lra.
    replace ((lon1 - lon1) * PI / 180 / 2) with 0 by lra.
    rewrite sin_0.
    replace (0 * 0 + cos (lat1 * PI / 180) * cos (lat1 * PI / 180) * 0 * 0)
      with 0 by ring.
    rewrite Rminus_0_r, sqrt_0, sqrt_1.
    unfold atan2. rewrite decide_True by lra.
    replace (0 / 1) with 0 by lra. rewrite atan_0. ring.
Qed.

Lemma X25_witness :
  let p1 := ImpactCalculator.locationOf (Some 0) (Some 0) in
  let p2 := ImpactCalculator.locationOf (Some 36) (Some 80) in
  exists d,
    calculateDistance p1 p2 = Finite d
    /\ 0 <= d <= 2 / 3 * PI * earthRadius
    /\ sin (d / (2 * earthRadius)) ^ 2
       = sin ((36 - 0) * PI / 180 / 2) ^ 2
         + cos (0 * PI / 180) * cos (36 * PI / 180)
           * sin ((80 - 0) * PI / 180 / 2) ^ 2
    /\ calculateDistance p2 p1 = Finite d
    /\ calculateDistance p1 p1 = Finite 0.
Proof.
  apply (X25_great_circle_distance
           (ImpactCalculator.locationOf (Some 0) (Some 0))
           (ImpactCalculator.locationOf (Some 36) (Some 80))
           0 0 36 80);
    try (unfold ImpactCalculator.locationOf;
         first [ apply lookup_insert_eq
               | rewrite lookup_insert_ne by done;
                 apply lookup_singleton_eq ]);
    lra.
Defined.

End GreatCircle.

(** ** Edge cases of the second phase in the aggregate result *)

Section PhaseTwoEdges.
Import ImpactCalculator.

Ltac solve_elem :=
  repeat first [apply list_elem_of_here | apply list_elem_of_further].

Lemma locationOf_missing lat lon :
  lat = None \/ lon = None ->
  locationOf lat lon !! "latitude" = None
  \/ locationOf lat lon !! "longitude" = None.
Proof.
  unfold locationOf. intros [-> | ->].
  - left. destruct lon as [lon|]; [|done].
    rewrite lookup_insert_ne by done. done.
  - right. destruct lat as [lat|]; [|done].
    by rewrite lookup_singleton_ne.
Qed.

(** X26.  When the parameters carry no latitude or no longitude and the
    body reaches the ground, the crater, blast and thermal keys are
    computed as usual and the second phase reports that nothing happened:
    a seismic magnitude and radius of 0 with no zone, no tsunami, a
    [null] ocean impact, and [undefined] under the keys that only a
    significant earthquake or a generated tsunami fills. *)
Theorem X26_missing_location (p : ImpactParameters) :
  survives p -> latitude p = None \/ longitude p = None ->
  let res := calculateImpact p in
  res !! "seismicMagnitude" = Some (num 0)
  /\ res !! "seismicSignificant" = Some (VBool false)
  /\ res !! "seismicRadius" = Some (num 0)
  /\ res !! "seismicZones" = Some (VZones [])
  /\ res !! "groundMotion" = Some VUndefined
  /\ res !! "buildingDamage" = Some VUndefined
  /\ res !! "seismicDuration" = Some VUndefined
  /\ res !! "tsunamiGenerated" = Some (VBool false)
  /\ res !! "tsunamiMaxHeight" = Some (num 0)
  /\ res !! "tsunamiOceanImpact" = Some VNull
  /\ res !! "tsunamiPropagation" = Some VUndefined
  /\ res !! "tsunamiCoastalEffects" = Some (VCoastalEffects [])
  /\ res !! "tsunamiVisualization" = Some VUndefined
  /\ res !! "tsunamiArrivalTimes" = Some VUndefined.
Proof.
  intros Hs Hloc res. subst res.
  apply locationOf_missing in Hloc.
  assert (Hseis : seismicResultsOf p
                  = SeismicCalculator.mkSeismic 0 false (Finite 0) []
                      (Some 0) None None None).
  { unfold seismicResultsOf, SeismicCalculator.calculateSeismicEffects.
    destruct Hloc as [-> | ->]; [done|].
    by destruct (_ !! "latitude"). }
  assert (Htsu : tsunamiResultsOf p
                 = TsunamiCalculator.mkTsunami false
                     (Some "Invalid coordinates provided") None (Finite 0)
                     None None None [] None None None).
  { unfold tsunamiResultsOf, TsunamiCalculator.calculateTsunami.
    destruct Hloc as [-> | ->]; [done|].
    by destruct (_ !! "latitude"). }
  pose proof (fun k v => lookup_phase2 p k v Hs) as Hlook.
  rewrite Hseis, Htsu in Hlook. unfold phase2Fields in Hlook.
  cbn [SeismicCalculator.magnitude SeismicCalculator.significant
       SeismicCalculator.effectRadius SeismicCalculator.zones
       SeismicCalculator.groundMotion SeismicCalculator.damageAssessment
       SeismicCalculator.duration TsunamiCalculator.generated
       TsunamiCalculator.maxHeight TsunamiCalculator.oceanImpact
       TsunamiCalculator.propagation TsunamiCalculator.coastalEffects
       TsunamiCalculator.visualization TsunamiCalculator.arrivalTimes
       orUndefined] in Hlook.
  repeat (split; [apply Hlook; solve_elem|]).
  apply Hlook; solve_elem.
Qed.

Lemma unlocated_survives : survives Presets.unlocated.
Proof. apply survives_of_diameter, tunguska_survival_diameter. Qed.

Lemma X26_witness :
  let res := calculateImpact Presets.unlocated in
  res !! "seismicMagnitude" = Some (num 0)
  /\ res !! "seismicSignificant" = Some (VBool false)
  /\ res !! "seismicRadius" = Some (num 0)
  /\ res !! "seismicZones" = Some (VZones [])
  /\ res !! "groundMotion" = Some VUndefined
  /\ res !! "buildingDamage" = Some VUndefined
  /\ res !! "seismicDuration" = Some VUndefined
  /\ res !! "tsunamiGenerated" = Some (VBool false)
  /\ res !! "tsunamiMaxHeight" = Some (num 0)
  /\ res !! "tsunamiOceanImpact" = Some VNull
  /\ res !! "tsunamiPropagation" = Some VUndefined
  /\ res !! "tsunamiCoastalEffects" = Some (VCoastalEffects [])
  /\ res !! "tsunamiVisualization" = Some VUndefined
  /\ res !! "tsunamiArrivalTimes" = Some VUndefined.
Proof.
  apply (X26_missing_location Presets.unlocated unlocated_survives).
  by left.
Defined.


Lemma calculateInitialWaveHeight_no_crater e depth :
  0 < e ->
  TsunamiCalculator.calculateInitialWaveHeight e
    (TsunamiCalculator.calculateWaterDisplacement 0 depth) depth
  = PosInfinity.
Proof.
  intros He.
  unfold TsunamiCalculator.calculateInitialWaveHeight,
    TsunamiCalculator.calculateWaterDisplacement. cbv zeta.
  rewrite !Math_pow_2.
  replace (2 / 3 * PI * (0 / 2 * (0 / 2)) * Rmin (0 / 2 * 0.2) depth)
    with 0 by lra.
  replace (0 / PI) with 0 by lra. rewrite sqrt_0.
  replace (TsunamiCalculator.waterDensity * TsunamiCalculator.gravity
           * (PI * (0 * 0))) with 0 by lra.
  unfold div. rewrite decide_True by done. rewrite decide_True by lra.
  reflexivity.
Qed.

Lemma calculateWaveHeightDecay_infinite distance wavelength :
  TsunamiCalculator.calculateWaveHeightDecay PosInfinity distance wavelength
  = PosInfinity.
Proof.
  unfold TsunamiCalculator.calculateWaveHeightDecay. cbv zeta.
  assert (1 <= sqrt (Rmax (distance / 1000) 1)).
  { apply sqrt_lower; [lra|]. pose proof (Rmax_r (distance / 1000) 1). lra. }
  assert (0 < 1 / sqrt (Rmax (distance / 1000) 1))
    by (apply Rdiv_lt_0_compat; lra).
  cbn [mulN]. rewrite decide_True by done. cbn [mulN].
  rewrite decide_True by apply exp_pos. reflexivity.
Qed.

(** X27.  A grazing impact over the ocean reports a tsunami of infinite
    height.  With an impact angle of 0 the crater diameter is 0, the
    displaced volume and the wave area are 0, and the initial wave height
    is a division by zero: the tsunami counts as generated, and the
    initial wave and every wave front, of which there is at least one,
    have the height [Infinity]. *)
Theorem X27_grazing_impact_at_sea (p : ImpactParameters) lat lon :
  validParameters p -> survives p -> angle p = 0 ->
  latitude p = Some lat -> longitude p = Some lon ->
  TsunamiCalculator.isOceanCoordinate lat lon = true ->
  let res := calculateImpact p in
  res !! "craterDiameter" = Some (num 0)
  /\ res !! "tsunamiGenerated" = Some (VBool true)
  /\ exists prop,
       res !! "tsunamiPropagation" = Some (VPropagation prop)
       /\ TsunamiCalculator.height (TsunamiCalculator.prop_initialWave prop)
          = PosInfinity
       /\ TsunamiCalculator.waveFronts prop <> []
       /\ Forall (fun front =>
                    TsunamiCalculator.front_height front = PosInfinity)
                 (TsunamiCalculator.waveFronts prop).
Proof.
  intros Hvalid Hs Hangle Hlat Hlon Hocean res. subst res.
  pose proof (finalEnergyOf_bounds p Hvalid Hs) as [HE _].
  assert (Hcrater : CraterCalculator.diameter (craterResultsOf p) = 0).
  { unfold craterResultsOf, CraterCalculator.calculateCrater. cbv zeta.
    cbn [CraterCalculator.diameter].
    rewrite Hangle, sin_zero_degrees, Rmult_0_r.
    apply calculateCraterDiameter_zero. }
  split.
  { rewrite <- Hcrater. apply lookup_phase1; [done|solve_elem]. }
  set (depth := TsunamiCalculator.estimateWaterDepth lat lon).
  set (w := TsunamiCalculator.calculateInitialWave (finalEnergyOf p) depth 0).
  assert (Hdepth : 0 < depth) by apply estimateWaterDepth_pos.
  assert (Hheight : TsunamiCalculator.height w = PosInfinity).
  { apply calculateInitialWaveHeight_no_crater.
    apply Rmult_lt_0_compat; [done|].
    apply calculateEnergyTransferEfficiency_pos; lra. }
  set (loc := locationOf (latitude p) (longitude p)).
  assert (Htsu : tsunamiResultsOf p
            = TsunamiCalculator.mkTsunami true None
                (Some (TsunamiCalculator.determineOceanImpact lat lon))
                (TsunamiCalculator.maxHeightOf
                   (TsunamiCalculator.calculateCoastalEffects
                      (TsunamiCalculator.modelWavePropagation w loc) loc))
                None (Some w)
                (Some (TsunamiCalculator.modelWavePropagation w loc))
                (TsunamiCalculator.calculateCoastalEffects
                   (TsunamiCalculator.modelWavePropagation w loc) loc)
                (Some (TsunamiCalculator.generateTsunamiVisualization
                         (TsunamiCalculator.modelWavePropagation w loc)
                         (TsunamiCalculator.calculateCoastalEffects
                            (TsunamiCalculator.modelWavePropagation w loc)
                            loc)))
                (Some (TsunamiCalculator.calculateArrivalTimes loc
                         (TsunamiCalculator.calculateCoastalEffects
                            (TsunamiCalculator.modelWavePropagation w loc)
                            loc)))
                (Some (TsunamiCalculator.estimateEventDuration w))).
  { unfold tsunamiResultsOf, TsunamiCalculator.calculateTsunami.
    fold loc. rewrite Hcrater.
    assert (Hl1 : loc !! "latitude" = Some lat).
    { unfold loc, locationOf. rewrite Hlat, Hlon.
      rewrite lookup_insert_ne by done. apply lookup_singleton_eq. }
    assert (Hl2 : loc !! "longitude" = Some lon).
    { unfold loc, locationOf. rewrite Hlat, Hlon. apply lookup_insert_eq. }
    rewrite Hl1, Hl2. cbv zeta.
    assert (Hin : TsunamiCalculator.inOcean
                    (TsunamiCalculator.determineOceanImpact lat lon) = true).
    { unfold TsunamiCalculator.determineOceanImpact. cbv zeta.
      by rewrite Hocean. }
    assert (Hwd : TsunamiCalculator.waterDepth
                    (TsunamiCalculator.determineOceanImpact lat lon) = depth).
    { unfold TsunamiCalculator.determineOceanImpact. cbv zeta.
      by rewrite Hocean. }
    rewrite Hin, Hwd. cbn [negb]. fold w. rewrite Hheight. cbn [ltN].
    reflexivity. }
  pose proof (fun k v => lookup_phase2 p k v Hs) as Hlook.
  rewrite Htsu in Hlook. unfold phase2Fields in Hlook.
  cbn [TsunamiCalculator.generated TsunamiCalculator.propagation
       orUndefined] in Hlook.
  split; [apply Hlook; solve_elem|].
  eexists. split; [apply Hlook; solve_elem|].
  cbn [TsunamiCalculator.modelWavePropagation
       TsunamiCalculator.prop_initialWave TsunamiCalculator.waveFronts].
  split; [done|]. split.
  - destruct (propagationLoop_first w 23) as (rest & Hrest).
    + by rewrite Hheight.
    + by rewrite Hheight.
    + unfold TsunamiCalculator.timeSteps. by rewrite Hrest.
  - apply Forall_forall. intros f Hf.
    apply list_elem_of_lookup_1 in Hf as [k Hk].
    apply propagationLoop_fronts in Hk as (_ & _ & _ & Hh & _).
    rewrite Hh, Hheight. apply calculateWaveHeightDecay_infinite.
Qed.

Lemma grazingAtSea_valid : validParameters Presets.grazingAtSea.
Proof.
  unfold validParameters, Presets.grazingAtSea. cbn.
  repeat split; try lra; try done.
  - eexists. split; [done|]. lra.
  - eexists. split; [done|]. lra.
Qed.

Lemma grazingAtSea_survives : survives Presets.grazingAtSea.
Proof. apply survives_of_diameter, tunguska_survival_diameter. Qed.

Lemma equator_is_ocean : TsunamiCalculator.isOceanCoordinate 0 0 = true.
Proof.
  unfold TsunamiCalculator.isOceanCoordinate. rewrite Rabs_R0.
  by rewrite !bool_decide_eq_true_2 by lra.
Qed.

Lemma X27_witness :
  let res := calculateImpact Presets.grazingAtSea in
  res !! "craterDiameter" = Some (num 0)
  /\ res !! "tsunamiGenerated" = Some (VBool true)
  /\ exists prop,
       res !! "tsunamiPropagation" = Some (VPropagation prop)
       /\ TsunamiCalculator.height (TsunamiCalculator.prop_initialWave prop)
          = PosInfinity
       /\ TsunamiCalculator.waveFronts prop <> []
       /\ Forall (fun front =>
                    TsunamiCalculator.front_height front = PosInfinity)
                 (TsunamiCalculator.waveFronts prop).
Proof.
  apply (X27_grazing_impact_at_sea Presets.grazingAtSea 0 0
           grazingAtSea_valid grazingAtSea_survives eq_refl eq_refl eq_refl
           equator_is_ocean).
Defined.

End PhaseTwoEdges.

(** ** The rings drawn for the blast wave and the thermal radiation *)

Section MapRings.
Import ImpactCalculator VisualizationManager.

Ltac solve_elem :=
  repeat first [apply list_elem_of_here | apply list_elem_of_further].

Lemma radiusOf_num results key x :
  results !! key = Some (num x) -> radiusOf results key = Finite x.
Proof. unfold radiusOf. by intros ->. Qed.

(** Three positive radii given in ascending order come out reversed. *)
Lemma sortedZonesOf_ascending a b c ca cb cc oa ob oc la lb lc :
  0 < a < b -> b < c ->
  sortedZonesOf [ mkEffectZone (Finite a) ca oa la;
                  mkEffectZone (Finite b) cb ob lb;
                  mkEffectZone (Finite c) cc oc lc ]
  = [ mkEffectZone (Finite c) cc oc lc;
      mkEffectZone (Finite b) cb ob lb;
      mkEffectZone (Finite a) ca oa la ].
Proof.
  intros Hab Hbc. unfold sortedZonesOf.
  rewrite !filter_cons_True, filter_nil
    by (cbn [zone_radius truthy gtN];
        rewrite !bool_decide_eq_true_2 by lra; done).
  unfold JsArray.sort. cbn [foldr JsArray.insertSorted zone_radius subN gtN].
  rewrite (bool_decide_eq_true_2 (0 < c - b)) by lra.
  cbn [JsArray.insertSorted zone_radius subN gtN].
  rewrite (bool_decide_eq_true_2 (0 < c - a)) by lra.
  cbn [JsArray.insertSorted zone_radius subN gtN].
  rewrite (bool_decide_eq_true_2 (0 < b - a)) by lra.
  reflexivity.
Qed.

(** Three positive radii given in descending order, ties included, stay
    as they are. *)
Lemma sortedZonesOf_descending a b c ca cb cc oa ob oc la lb lc :
  0 < c <= b -> b <= a ->
  sortedZonesOf [ mkEffectZone (Finite a) ca oa la;
                  mkEffectZone (Finite b) cb ob lb;
                  mkEffectZone (Finite c) cc oc lc ]
  = [ mkEffectZone (Finite a) ca oa la;
      mkEffectZone (Finite b) cb ob lb;
      mkEffectZone (Finite c) cc oc lc ].
Proof.
  intros Hcb Hba. unfold sortedZonesOf.
  rewrite !filter_cons_True, filter_nil
    by (cbn [zone_radius truthy gtN];
        rewrite !bool_decide_eq_true_2 by lra; done).
  unfold JsArray.sort. cbn [foldr JsArray.insertSorted zone_radius subN gtN].
  rewrite (bool_decide_eq_false_2 (0 < c - b)) by lra.
  cbn [JsArray.insertSorted zone_radius subN gtN].
  rewrite (bool_decide_eq_false_2 (0 < b - a)) by lra.
  reflexivity.
Qed.

(** Radii of zero are filtered out. *)
Lemma sortedZonesOf_zero ca cb cc oa ob oc la lb lc :
  sortedZonesOf [ mkEffectZone (Finite 0) ca oa la;
                  mkEffectZone (Finite 0) cb ob lb;
                  mkEffectZone (Finite 0) cc oc lc ] = [].
Proof.
  unfold sortedZonesOf.
  rewrite !filter_cons_False, filter_nil
    by (cbn [zone_radius truthy gtN];
        rewrite (bool_decide_eq_false_2 (0 < 0)) by lra;
        rewrite andb_false_r; intros H; exact H).
  reflexivity.
Qed.

(** X28.  What [visualizeBlastWave] draws for an impact that reaches the
    ground.  When the impact is not grazing it adds exactly three rings,
    in the reverse of the order in which the zones are written in the
    source: the 1 psi ring outermost, then the 5 psi ring, then the 10 psi
    disc; each ring starts where the next one ends, so that they do not
    overlap.  For a grazing impact all three radii are zero and nothing
    is drawn. *)
Theorem X28_blast_rings (p : ImpactParameters) (center : gmap string R) :
  validParameters p -> survives p ->
  let res := calculateImpact p in
  (angle p = 0 -> visualizeBlastWave center res = [])
  /\ (0 < angle p ->
      exists r1 r5 r10,
        res !! "blastRadius1psi" = Some (num r1)
        /\ res !! "blastRadius5psi" = Some (num r5)
        /\ res !! "blastRadius10psi" = Some (num r10)
        /\ 0 < r10 < r5 /\ r5 < r1
        /\ visualizeBlastWave center res
           = [ mkRingLayer "blast-wave-layer-0" center (Finite r1)
                 "#ffcc00" 0.5 "#ffcc00" (Finite r5);
               mkRingLayer "blast-wave-layer-1" center (Finite r5)
                 "#ff6600" 0.6 "#ff6600" (Finite r10);
               mkRingLayer "blast-wave-layer-2" center (Finite r10)
                 "#cc0000" 0.7 "#cc0000" (Finite 0) ]).
Proof.
  intros Hvalid Hs res. subst res. split.
  - intros Hangle.
    destruct (grazing_crater_and_blast p Hangle Hs)
      as (_ & _ & H1 & H5 & H10 & _).
    unfold visualizeBlastWave. cbv zeta.
    rewrite (radiusOf_num _ _ _ H1), (radiusOf_num _ _ _ H5),
      (radiusOf_num _ _ _ H10).
    by rewrite sortedZonesOf_zero.
  - intros Hangle.
    pose proof (finalEnergyOf_bounds p Hvalid Hs) as [HE _].
    destruct Hvalid as (_ & _ & [_ Ha90] & _).
    destruct (calculateBlastWave_radii (finalEnergyOf p) (angle p) HE
                (conj Hangle Ha90)) as (_ & _ & [H10 H105] & H51).
    fold (blastResultsOf p) in H10, H105, H51.
    exists (BlastWaveCalculator.radius1psi (blastResultsOf p)),
      (BlastWaveCalculator.radius5psi (blastResultsOf p)),
      (BlastWaveCalculator.radius10psi (blastResultsOf p)).
    assert (L1 : calculateImpact p !! "blastRadius1psi"
                 = Some (num (BlastWaveCalculator.radius1psi
                                (blastResultsOf p))))
      by (apply lookup_phase1; [done|solve_elem]).
    assert (L5 : calculateImpact p !! "blastRadius5psi"
                 = Some (num (BlastWaveCalculator.radius5psi
                                (blastResultsOf p))))
      by (apply lookup_phase1; [done|solve_elem]).
    assert (L10 : calculateImpact p !! "blastRadius10psi"
                  = Some (num (BlastWaveCalculator.radius10psi
                                 (blastResultsOf p))))
      by (apply lookup_phase1; [done|solve_elem]).
    split; [done|]. split; [done|]. split; [done|].
    split; [done|]. split; [done|].
    unfold visualizeBlastWave. cbv zeta.
    rewrite (radiusOf_num _ _ _ L1), (radiusOf_num _ _ _ L5),
      (radiusOf_num _ _ _ L10).
    rewrite sortedZonesOf_ascending by done.
    reflexivity.
Qed.

Lemma X28_witness :
  let res := calculateImpact Presets.tunguska in
  let center := {[ "lat" := 60.8858; "lng" := 101.8942 ]} in
  exists r1 r5 r10,
    res !! "blastRadius1psi" = Some (num r1)
    /\ res !! "blastRadius5psi" = Some (num r5)
    /\ res !! "blastRadius10psi" = Some (num r10)
    /\ 0 < r10 < r5 /\ r5 < r1
    /\ visualizeBlastWave center res
       = [ mkRingLayer "blast-wave-layer-0" center (Finite r1)
             "#ffcc00" 0.5 "#ffcc00" (Finite r5);
           mkRingLayer "blast-wave-layer-1" center (Finite r5)
             "#ff6600" 0.6 "#ff6600" (Finite r10);
           mkRingLayer "blast-wave-layer-2" center (Finite r10)
             "#cc0000" 0.7 "#cc0000" (Finite 0) ].
Proof.
  intros res center.
  destruct (X28_blast_rings Presets.tunguska center
              tunguska_valid tunguska_survives) as [_ H].
  apply H. unfold Presets.tunguska. cbn [angle]. lra.
Defined.

(** X29.  What [visualizeThermalRadiation] draws for an impact that
    reaches the ground: always three rings, in the order of the source,
    first, second and third degree, each starting where the next one
    ends.  When the kinetic energy at entry is at most [60^5] tons of TNT
    the three radii are equal, so the rings of first and of second degree
    burns have their inner radius equal to their outer radius, and only
    the third-degree disc covers any ground. *)
Theorem X29_thermal_rings (p : ImpactParameters) (center : gmap string R) :
  validParameters p -> survives p ->
  let res := calculateImpact p in
  exists r1 r2 r3,
    res !! "thermalRadius1deg" = Some (num r1)
    /\ res !! "thermalRadius2deg" = Some (num r2)
    /\ res !! "thermalRadius3deg" = Some (num r3)
    /\ 0 < r3 <= r2 /\ r2 <= r1
    /\ visualizeThermalRadiation center res
       = [ mkRingLayer "thermal-layer-0" center (Finite r1)
             "#ffff00" 0.5 "#ffff00" (Finite r2);
           mkRingLayer "thermal-layer-1" center (Finite r2)
             "#ff8800" 0.6 "#ff8800" (Finite r3);
           mkRingLayer "thermal-layer-2" center (Finite r3)
             "#cc3300" 0.7 "#cc3300" (Finite 0) ]
    /\ (energyToTNT (calculateKineticEnergy (massOf p) (velocity p))
        <= 60 ^ 5 ->
        r1 = r2 /\ r2 = r3).
Proof.
  intros Hvalid Hs res. subst res.
  pose proof (finalEnergyOf_bounds p Hvalid Hs) as [HE Hle].
  destruct (thermal_radii_weak_order (finalEnergyOf p)
              (AtmosphereCalculator.finalDiameter (atmosphereResultsOf p)) HE)
    as (Hfb & H32 & H21).
  fold (thermalResultsOf p) in Hfb, H32, H21.
  pose proof (fireball_radius_pos _ HE) as Hpos.
  change (ThermalCalculator.calculateFireball (finalEnergyOf p))
    with (ThermalCalculator.fireball (thermalResultsOf p)) in Hpos.
  exists (ThermalCalculator.radius1deg (thermalResultsOf p)),
    (ThermalCalculator.radius2deg (thermalResultsOf p)),
    (ThermalCalculator.radius3deg (thermalResultsOf p)).
  assert (L1 : calculateImpact p !! "thermalRadius1deg"
               = Some (num (ThermalCalculator.radius1deg
                              (thermalResultsOf p))))
    by (apply lookup_phase1; [done|solve_elem]).
  assert (L2 : calculateImpact p !! "thermalRadius2deg"
               = Some (num (ThermalCalculator.radius2deg
                              (thermalResultsOf p))))
    by (apply lookup_phase1; [done|solve_elem]).
  assert (L3 : calculateImpact p !! "thermalRadius3deg"
               = Some (num (ThermalCalculator.radius3deg
                              (thermalResultsOf p))))
    by (apply lookup_phase1; [done|solve_elem]).
  split; [done|]. split; [done|]. split; [done|].
  split; [lra|]. split; [done|]. split.
  - unfold visualizeThermalRadiation. cbv zeta.
    rewrite (radiusOf_num _ _ _ L1), (radiusOf_num _ _ _ L2),
      (radiusOf_num _ _ _ L3).
    rewrite sortedZonesOf_descending by lra.
    reflexivity.
  - intros Hy. unfold energyToTNT in Hy. cbv zeta in Hy.
    assert (HEmax : 0 < finalEnergyOf p <= 4.184e9 * 60 ^ 5).
    { split; [done|]. eapply Rle_trans; [exact Hle|].
      apply (Rmult_le_compat_r 4.184e9) in Hy; [|lra].
      replace (calculateKineticEnergy (massOf p) (velocity p) / 4.184e9
               * 4.184e9)
        with (calculateKineticEnergy (massOf p) (velocity p)) in Hy
        by (field; lra).
      lra. }
    destruct (thermal_radii_collapse (finalEnergyOf p)
                (AtmosphereCalculator.finalDiameter (atmosphereResultsOf p))
                HEmax) as (E1 & E2 & E3 & _).
    fold (thermalResultsOf p) in E1, E2, E3.
    rewrite E1, E2, E3. done.
Qed.

Lemma X29_witness :
  let res := calculateImpact Presets.tunguska in
  let center := {[ "lat" := 60.8858; "lng" := 101.8942 ]} in
  exists r,
    res !! "thermalRadius1deg" = Some (num r)
    /\ res !! "thermalRadius2deg" = Some (num r)
    /\ res !! "thermalRadius3deg" = Some (num r)
    /\ 0 < r
    /\ visualizeThermalRadiation center res
       = [ mkRingLayer "thermal-layer-0" center (Finite r)
             "#ffff00" 0.5 "#ffff00" (Finite r);
           mkRingLayer "thermal-layer-1" center (Finite r)
             "#ff8800" 0.6 "#ff8800" (Finite r);
           mkRingLayer "thermal-layer-2" center (Finite r)
             "#cc3300" 0.7 "#cc3300" (Finite 0) ].
Proof.
  intros res center.
  destruct (X29_thermal_rings Presets.tunguska center
              tunguska_valid tunguska_survives)
    as (r1 & r2 & r3 & L1 & L2 & L3 & [Hpos _] & _ & Hrings & Hsmall).
  destruct (Hsmall tunguska_yield) as [E12 E23].
  rewrite E12, E23 in *. by exists r3.
Defined.

End MapRings.

(** ** The wave front shown by the tsunami animation *)

Section WaveAnimation.
Import TsunamiCalculator TsunamiLayerManager.

Lemma findWaveAtTime_loop (fronts : list WaveFront) (t : R) (c : WaveFront) :
  let state :=
    foldl (fun (state : WaveFront * R) wave =>
             let diff := Rabs (front_time wave - t) in
             if decide (diff < snd state) then (wave, diff) else state)
          (c, Rabs (front_time c - t)) fronts in
  (fst state = c \/ fst state ∈ fronts)
  /\ Rabs (front_time (fst state) - t) <= Rabs (front_time c - t)
  /\ Forall (fun f => Rabs (front_time (fst state) - t)
                      <= Rabs (front_time f - t)) fronts.
Proof.
  revert c. induction fronts as [|f rest IH]; intros c; cbn [foldl].
  { cbn. split; [by left|]. split; [lra|constructor]. }
  cbv zeta. cbn [snd].
  destruct (decide (Rabs (front_time f - t) < Rabs (front_time c - t)))
    as [Hlt|Hge].
  - destruct (IH f) as (Hin & Hle & Hall). cbv zeta in *.
    split; [|split].
    + right. destruct Hin as [-> | Hin];
        [apply list_elem_of_here | by apply list_elem_of_further].
    + lra.
    + by constructor.
  - destruct (IH c) as (Hin & Hle & Hall). cbv zeta in *.
    split; [|split].
    + destruct Hin as [Heq | Hin]; [by left|].
      right. by apply list_elem_of_further.
    + done.
    + constructor; [lra | done].
Qed.

(** X30.  [findWaveAtTime] returns a front of the list whose time is
    closest to the target: no front of the list is strictly closer.  It
    has no answer only for the empty list, where the source throws. *)
Theorem X30_closest_front (fronts : list WaveFront) (t : R) :
  (fronts = [] -> findWaveAtTime fronts t = None)
  /\ (fronts <> [] ->
      exists w,
        findWaveAtTime fronts t = Some w
        /\ w ∈ fronts
        /\ Forall (fun f => Rabs (front_time w - t)
                            <= Rabs (front_time f - t)) fronts).
Proof.
  split; [by intros ->|].
  intros Hne. destruct fronts as [|first rest]; [done|].
  unfold findWaveAtTime. eexists. split; [reflexivity|].
  destruct (findWaveAtTime_loop (first :: rest) t first) as (Hin & _ & Hall).
  cbv zeta in *. split; [|done].
  destruct Hin as [-> | Hin]; [apply list_elem_of_here | done].
Qed.

Lemma X30_witness :
  let fronts := [ mkFront 0 0 (Finite 1) 200 1e15;
                  mkFront 3600 720000 (Finite 0.5) 200 1e12 ] in
  exists w,
    findWaveAtTime fronts 1000 = Some w
    /\ w ∈ fronts
    /\ Forall (fun f => Rabs (front_time w - 1000)
                        <= Rabs (front_time f - 1000)) fronts.
Proof.
  intros fronts. destruct (X30_closest_front fronts 1000) as [_ H].
  by apply H.
Defined.

End WaveAnimation.
